(** * Reactive core of domutils-library (src/reactive/signals.js)

    A shallow embedding of [createSignal], [createEffect], [createComputed]
    and [$state] with explicit state passing.  The module-level mutable
    objects of the source ([EFFECT_STACK], [EFFECT_DEPS],
    [STATE_PROP_SIGNALS]) and every closure variable ([value], [subs],
    [cleanup], [cached], [dirty], [globalSubs], the proxied target) live in
    one [World] record.  User callbacks are finite interaction trees
    ([prog]) over the library's public interface; the library calls them
    back through a fuel-indexed [call].

    Conventions of the model:
    - objects are named by their index in the table of their kind; a new
      object gets the next index;
    - [EFFECT_DEPS] is split over the runners ([ef_deps], [cp_deps]) and
      [STATE_PROP_SIGNALS] over the proxied targets ([st_sigs]);
    - a [Set] that the source only reads through [Array.from], [has] or a
      [forEach] whose callback cannot change it is the list of its members in
      insertion order; [globalSubs], which is iterated while callbacks run,
      keeps the empty slots of deleted members;
    - a reference to an object that was never created cannot arise in a
      client program; the model lets a call through one throw [type_error]
      and change nothing besides the trace;
    - numbers are integers or [NaN]; property keys are strings, and a
      proxied target is the map of its own properties: the model follows
      the source on the names that [Object.prototype] does not define
      ([inherited]) and on the properties a target has of its own, and
      statements about arbitrary property names are restricted to those;
    - [trace] is a history variable: besides what the source reports with
      [console.error] and [setTimeout] it records every call of a function
      object, every entry of a runner and every change of its dependencies. *)

From Stdlib Require Import ZArith Lia.
From stdpp Require Import base option list gmap strings.

Local Open Scope Z_scope.
Local Open Scope nat_scope.

(** ** Values *)

(** Function objects that user code can hold.  Every one of them is a
    closure created by the library, except [FUser n], the [n]-th function
    of the client program. *)
Inductive fref :=
| FUser (n : nat)          (* a client function *)
| FGet (s : nat)           (* [get] of signal [s] *)
| FSet (s : nat)           (* [set] of signal [s] *)
| FSubscribe (s : nat)     (* [subscribe] of signal [s] *)
| FClosure (u : nat)       (* an arrow function allocated at run time *)
| FDispose (e : nat)       (* the disposer returned by [createEffect] *)
| FComputed (c : nat).     (* the getter returned by [createComputed] *)

Inductive val :=
| VUndef
| VNull
| VBool (b : bool)
| VNum (n : Z)
| VNaN
| VStr (s : string)
| VFun (f : fref)
| VObj (o : nat).          (* a plain object, e.g. the result of [inspect()] *)

Global Instance fref_eq_dec : EqDecision fref.
Proof. solve_decision. Defined.
Global Instance val_eq_dec : EqDecision val.
Proof. solve_decision. Defined.

(** JavaScript [a === b] on the modelled values. *)
Definition strict_eq (a b : val) : bool :=
  match a, b with
  | VNaN, _ | _, VNaN => false
  | _, _ => bool_decide (a = b)
  end.

(** [typeof v === 'function'] *)
Definition is_function (v : val) : bool :=
  match v with VFun _ => true | _ => false end.

Definition arg (i : nat) (args : list val) : val := default VUndef (args !! i).

Definition type_error : val := VStr "TypeError".

(** ** Runners, dependency sources, subscribers *)

(** The two kinds of arrow functions pushed on [EFFECT_STACK]:
    [runner] of effect [e] and [recompute] of computed [c].  They never
    escape to client code, so they are not [fref]s. *)
Inductive runner := REffect (e : nat) | RComputed (c : nat).

(** A [signalKey]: the [get] function of a signal, or the
    [{ __subs }] object of one proxied property. *)
Inductive source := SrcSig (s : nat) | SrcProp (p : nat).

(** Members of a [__subs] set. *)
Inductive subscriber := SRunner (r : runner) | SFn (f : fref).

Global Instance runner_eq_dec : EqDecision runner.
Proof. solve_decision. Defined.
Global Instance source_eq_dec : EqDecision source.
Proof. solve_decision. Defined.
Global Instance subscriber_eq_dec : EqDecision subscriber.
Proof. solve_decision. Defined.

(** A JavaScript [Set] read through [Array.from] or [has]: the live
    members in insertion order. *)
Definition set_add {A} `{EqDecision A} (x : A) (l : list A) : list A :=
  if bool_decide (x ∈ l) then l else l ++ [x].

Fixpoint set_delete {A} `{EqDecision A} (x : A) (l : list A) : list A :=
  match l with
  | [] => []
  | y :: l' => if bool_decide (x = y) then set_delete x l' else y :: set_delete x l'
  end.

(** A [Set] that is iterated with [forEach] while callbacks may change
    it: the entry list of the language definition, where [delete] leaves
    an empty slot and [add] appends. *)
Definition slots_add (x : val) (l : list (option val)) : list (option val) :=
  if bool_decide (Some x ∈ l) then l else l ++ [Some x].

Definition slots_delete (x : val) (l : list (option val)) : list (option val) :=
  (λ o, if bool_decide (o = Some x) then None else o) <$> l.

(** ** The traced events

    [EvConsoleError] and [EvAsyncThrow] are what the source reports
    ([console.error(...)], [setTimeout(() => { throw err; })]); the other
    events are history variables. *)
Inductive event :=
| EvCall (f : fref) (args : list val)   (* a function object is invoked *)
| EvRun (r : runner)                    (* a runner is entered *)
| EvTrack (r : runner) (k : source)     (* [_trackDependency(r, k)] *)
| EvUnsub (r : runner)                  (* the runner drops its dependencies *)
| EvConsoleError (args : list val)
| EvAsyncThrow (err : val).

Global Instance event_eq_dec : EqDecision event.
Proof. solve_decision. Defined.

(** ** The store *)

Record signal := { sg_value : val; sg_subs : list subscriber }.

Record effect := {
  ef_fn : val;
  ef_cleanup : val;
  ef_deps : option (list source)      (* [EFFECT_DEPS.get(runner)] *)
}.

Record computed := {
  cp_fn : val;
  cp_cached : val;
  cp_dirty : bool;
  cp_cleanup : val;
  cp_deps : option (list source)      (* [EFFECT_DEPS.get(recompute)] *)
}.

Record state := {
  st_target : gmap string val;
  st_globalSubs : list (option val);
  st_sigs : option (gmap string nat)  (* [STATE_PROP_SIGNALS.get(target)] *)
}.

Inductive closure :=
| CUnsub (s : nat) (fn : val)         (* [() => subs.delete(fn)] *)
| CNoop                               (* [() => {}] *)
| CStateSubscribe (st : nat)          (* [(fn) => { globalSubs.add(fn); ... }] *)
| CStateUnsub (st : nat) (fn : val)   (* [() => globalSubs.delete(fn)] *)
| CInspect (st : nat).                (* [() => Object.assign({}, target)] *)

Record World := {
  EFFECT_STACK : list runner;         (* top of the stack = head of the list *)
  signals : list signal;
  effects : list effect;
  computeds : list computed;
  states : list state;
  propsigs : list (list subscriber);  (* [__subs] of each property signal *)
  closures : list closure;
  objects : list (gmap string val);
  log : list val;                     (* an array the client pushes to *)
  trace : list event
}.

Definition empty_world : World :=
  {| EFFECT_STACK := []; signals := []; effects := []; computeds := [];
     states := []; propsigs := []; closures := []; objects := [];
     log := []; trace := [] |}.

Definition set_stack (f : list runner → list runner) (w : World) : World :=
  {| EFFECT_STACK := f (EFFECT_STACK w); signals := signals w; effects := effects w;
     computeds := computeds w; states := states w; propsigs := propsigs w;
     closures := closures w; objects := objects w; log := log w; trace := trace w |}.
Definition set_signals (f : list signal → list signal) (w : World) : World :=
  {| EFFECT_STACK := EFFECT_STACK w; signals := f (signals w); effects := effects w;
     computeds := computeds w; states := states w; propsigs := propsigs w;
     closures := closures w; objects := objects w; log := log w; trace := trace w |}.
Definition set_effects (f : list effect → list effect) (w : World) : World :=
  {| EFFECT_STACK := EFFECT_STACK w; signals := signals w; effects := f (effects w);
     computeds := computeds w; states := states w; propsigs := propsigs w;
     closures := closures w; objects := objects w; log := log w; trace := trace w |}.
Definition set_computeds (f : list computed → list computed) (w : World) : World :=
  {| EFFECT_STACK := EFFECT_STACK w; signals := signals w; effects := effects w;
     computeds := f (computeds w); states := states w; propsigs := propsigs w;
     closures := closures w; objects := objects w; log := log w; trace := trace w |}.
Definition set_states (f : list state → list state) (w : World) : World :=
  {| EFFECT_STACK := EFFECT_STACK w; signals := signals w; effects := effects w;
     computeds := computeds w; states := f (states w); propsigs := propsigs w;
     closures := closures w; objects := objects w; log := log w; trace := trace w |}.
Definition set_propsigs (f : list (list subscriber) → list (list subscriber)) (w : World) : World :=
  {| EFFECT_STACK := EFFECT_STACK w; signals := signals w; effects := effects w;
     computeds := computeds w; states := states w; propsigs := f (propsigs w);
     closures := closures w; objects := objects w; log := log w; trace := trace w |}.
Definition set_closures (f : list closure → list closure) (w : World) : World :=
  {| EFFECT_STACK := EFFECT_STACK w; signals := signals w; effects := effects w;
     computeds := computeds w; states := states w; propsigs := propsigs w;
     closures := f (closures w); objects := objects w; log := log w; trace := trace w |}.
Definition set_objects (f : list (gmap string val) → list (gmap string val)) (w : World) : World :=
  {| EFFECT_STACK := EFFECT_STACK w; signals := signals w; effects := effects w;
     computeds := computeds w; states := states w; propsigs := propsigs w;
     closures := closures w; objects := f (objects w); log := log w; trace := trace w |}.
Definition set_log (f : list val → list val) (w : World) : World :=
  {| EFFECT_STACK := EFFECT_STACK w; signals := signals w; effects := effects w;
     computeds := computeds w; states := states w; propsigs := propsigs w;
     closures := closures w; objects := objects w; log := f (log w); trace := trace w |}.
Definition set_trace (f : list event → list event) (w : World) : World :=
  {| EFFECT_STACK := EFFECT_STACK w; signals := signals w; effects := effects w;
     computeds := computeds w; states := states w; propsigs := propsigs w;
     closures := closures w; objects := objects w; log := log w; trace := f (trace w) |}.

(** ** Primitive updates *)

Definition emit (ev : event) : World → World := set_trace (λ t, t ++ [ev]).
Definition add_log (v : val) : World → World := set_log (λ l, l ++ [v]).

Definition push (r : runner) : World → World := set_stack (cons r).
Definition pop : World → World := set_stack (drop 1).
(** [EFFECT_STACK[EFFECT_STACK.length - 1]] *)
Definition active (w : World) : option runner := head (EFFECT_STACK w).

(** [EFFECT_DEPS.get], [EFFECT_DEPS.set] / [EFFECT_DEPS.delete] *)
Definition EFFECT_DEPS_get (r : runner) (w : World) : option (list source) :=
  match r with
  | REffect e => effects w !! e ≫= ef_deps
  | RComputed c => computeds w !! c ≫= cp_deps
  end.

Definition EFFECT_DEPS_put (r : runner) (d : option (list source)) : World → World :=
  match r with
  | REffect e =>
      set_effects (alter (λ x, {| ef_fn := ef_fn x; ef_cleanup := ef_cleanup x; ef_deps := d |}) e)
  | RComputed c =>
      set_computeds (alter (λ x, {| cp_fn := cp_fn x; cp_cached := cp_cached x;
                                     cp_dirty := cp_dirty x; cp_cleanup := cp_cleanup x;
                                     cp_deps := d |}) c)
  end.

(** [signalKey.__subs] *)
Definition subs_of (k : source) (w : World) : list subscriber :=
  match k with
  | SrcSig s => from_option sg_subs [] (signals w !! s)
  | SrcProp p => default [] (propsigs w !! p)
  end.

Definition subs_update (k : source) (f : list subscriber → list subscriber) : World → World :=
  match k with
  | SrcSig s => set_signals (alter (λ x, {| sg_value := sg_value x; sg_subs := f (sg_subs x) |}) s)
  | SrcProp p => set_propsigs (alter f p)
  end.

(** The cleanup variable of a runner's closure. *)
Definition cleanup_of (r : runner) (w : World) : val :=
  match r with
  | REffect e => from_option ef_cleanup VNull (effects w !! e)
  | RComputed c => from_option cp_cleanup VNull (computeds w !! c)
  end.

Definition set_cleanup (r : runner) (v : val) : World → World :=
  match r with
  | REffect e =>
      set_effects (alter (λ x, {| ef_fn := ef_fn x; ef_cleanup := v; ef_deps := ef_deps x |}) e)
  | RComputed c =>
      set_computeds (alter (λ x, {| cp_fn := cp_fn x; cp_cached := cp_cached x;
                                     cp_dirty := cp_dirty x; cp_cleanup := v;
                                     cp_deps := cp_deps x |}) c)
  end.

Definition fn_of (r : runner) (w : World) : val :=
  match r with
  | REffect e => from_option ef_fn VUndef (effects w !! e)
  | RComputed c => from_option cp_fn VUndef (computeds w !! c)
  end.

Definition runner_exists (r : runner) (w : World) : bool :=
  match r with
  | REffect e => bool_decide (e < length (effects w))
  | RComputed c => bool_decide (c < length (computeds w))
  end.

(** [cached = result] and [dirty = false] of [recompute] *)
Definition set_cached (c : nat) (v : val) : World → World :=
  set_computeds (alter (λ x, {| cp_fn := cp_fn x; cp_cached := v; cp_dirty := cp_dirty x;
                                 cp_cleanup := cp_cleanup x; cp_deps := cp_deps x |}) c).
Definition set_dirty (c : nat) (b : bool) : World → World :=
  set_computeds (alter (λ x, {| cp_fn := cp_fn x; cp_cached := cp_cached x; cp_dirty := b;
                                 cp_cleanup := cp_cleanup x; cp_deps := cp_deps x |}) c).
Definition cached_of (c : nat) (w : World) : val :=
  from_option cp_cached VUndef (computeds w !! c).
Definition dirty_of (c : nat) (w : World) : bool :=
  from_option cp_dirty true (computeds w !! c).

(** The [value] variable of a signal. *)
Definition value_of (s : nat) (w : World) : val :=
  from_option sg_value VUndef (signals w !! s).
Definition set_value (s : nat) (v : val) : World → World :=
  set_signals (alter (λ x, {| sg_value := v; sg_subs := sg_subs x |}) s).

(** Allocation: a new object gets the next index of its table. *)
Definition alloc_signal (init : val) : World → World :=
  set_signals (λ l, l ++ [{| sg_value := init; sg_subs := [] |}]).
Definition alloc_effect (fn : val) : World → World :=
  set_effects (λ l, l ++ [{| ef_fn := fn; ef_cleanup := VNull; ef_deps := None |}]).
Definition alloc_computed (fn : val) : World → World :=
  set_computeds (λ l, l ++ [{| cp_fn := fn; cp_cached := VUndef; cp_dirty := true;
                               cp_cleanup := VNull; cp_deps := None |}]).
Definition alloc_state (init : gmap string val) : World → World :=
  set_states (λ l, l ++ [{| st_target := init; st_globalSubs := []; st_sigs := None |}]).
Definition alloc_closure (c : closure) : World → World :=
  set_closures (λ l, l ++ [c]).
Definition alloc_object (o : gmap string val) : World → World :=
  set_objects (λ l, l ++ [o]).

(** The proxied target, its global subscribers and its property signals. *)
Definition target_of (st : nat) (w : World) : gmap string val :=
  from_option st_target ∅ (states w !! st).
Definition set_target (st : nat) (f : gmap string val → gmap string val) : World → World :=
  set_states (alter (λ x, {| st_target := f (st_target x); st_globalSubs := st_globalSubs x;
                              st_sigs := st_sigs x |}) st).
Definition globalSubs_of (st : nat) (w : World) : list (option val) :=
  from_option st_globalSubs [] (states w !! st).
Definition set_globalSubs (st : nat) (f : list (option val) → list (option val)) : World → World :=
  set_states (alter (λ x, {| st_target := st_target x; st_globalSubs := f (st_globalSubs x);
                              st_sigs := st_sigs x |}) st).
Definition sigs_of (st : nat) (w : World) : option (gmap string nat) :=
  states w !! st ≫= st_sigs.
Definition set_sigs (st : nat) (m : option (gmap string nat)) : World → World :=
  set_states (alter (λ x, {| st_target := st_target x; st_globalSubs := st_globalSubs x;
                              st_sigs := m |}) st).

(** The names that [Object.prototype] defines.  The target is
    [Object.assign({}, initial)], a plain object: for these names, and
    for no other, [target[prop]], [prop in target], [Reflect.get] and
    [Reflect.set] reach the prototype when the target has no property of
    its own ([__proto__] is an accessor there, the others are functions).
    [target_of] holds the own properties only. *)
Definition inherited (prop : string) : bool :=
  bool_decide (prop ∈ ["constructor"; "hasOwnProperty"; "isPrototypeOf";
                       "propertyIsEnumerable"; "toLocaleString"; "toString"; "valueOf";
                       "__defineGetter__"; "__defineSetter__"; "__lookupGetter__";
                       "__lookupSetter__"; "__proto__"]).

(** *** [createSignal(initial)] (lines 34-73): the new signal; [get],
    [set] and [subscribe] of signal [s] are [FGet s], [FSet s] and
    [FSubscribe s]. *)
Definition createSignal (initial : val) (w : World) : nat * World :=
  (length (signals w), alloc_signal initial w).

(** *** [$state(initial)] (lines 208-281): the new proxy, over a copy of
    [initial]. *)
Definition create_state (initial : gmap string val) (w : World) : nat * World :=
  (length (states w), alloc_state initial w).

(** *** [_trackDependency(runner, signalKey)] *)
Definition _trackDependency (r : runner) (k : source) (w : World) : World :=
  let w1 := subs_update k (set_add (SRunner r)) w in
  let deps := default [] (EFFECT_DEPS_get r w1) in
  emit (EvTrack r k) (EFFECT_DEPS_put r (Some (set_add k deps)) w1).

(** *** The "remove previous subscriptions" block shared by [runner],
    [recompute] and the disposer *)
Definition unsubscribe_deps (r : runner) (w : World) : World :=
  emit (EvUnsub r)
    match EFFECT_DEPS_get r w with
    | Some prevDeps =>
        EFFECT_DEPS_put r None
          (foldl (λ w' sigKey, subs_update sigKey (set_delete (SRunner r)) w') w prevDeps)
    | None => w
    end.

(** *** [_ensurePropSignalFor(target, prop)] *)
Definition _ensurePropSignalFor (st : nat) (prop : string) (w : World) : nat * World :=
  let map := default ∅ (sigs_of st w) in
  match map !! prop with
  | Some sig => (sig, w)
  | None =>
      let sig := length (propsigs w) in
      (sig, set_sigs st (Some (<[prop := sig]> map)) (set_propsigs (λ l, l ++ [[]]) w))
  end.

(** ** Client programs

    The body of a client function is a finite tree of calls into the
    library; each continuation receives what the call returned, so the
    control flow and the data flow of the client are ordinary Rocq
    functions. *)
Inductive prog :=
| PRet (v : val)                                         (* [return v] *)
| PThrow (v : val)                                       (* [throw v] *)
| PLog (v : val) (k : prog)                              (* [log.push(v)] *)
| PCall (f : val) (args : list val) (k : val → prog)     (* [f(...args)] *)
| PNewSignal (init : val) (k : nat → prog)               (* [createSignal(init)] *)
| PNewEffect (fn : val) (k : val → prog)                 (* [createEffect(fn)] *)
| PNewComputed (fn : val) (k : val → prog)               (* [createComputed(fn)] *)
| PNewState (init : gmap string val) (k : nat → prog)    (* [$state(init)] *)
| PStateGet (st : nat) (prop : string) (k : val → prog)  (* [proxy[prop]] *)
| PStateSet (st : nat) (prop : string) (v : val) (k : prog)   (* [proxy[prop] = v] *)
| PStateDelete (st : nat) (prop : string) (k : prog)     (* [delete proxy[prop]] *)
| PObjGet (o : nat) (prop : string) (k : val → prog).    (* [obj[prop]] on a plain object *)

Inductive outcome := Normal (v : val) | Thrown (err : val).

Inductive result := Done (o : outcome) (w : World) | OutOfFuel.

(** [try { ... } catch (err) { setTimeout(() => { throw err; }); }] *)
Definition try_async (r : result) : result :=
  match r with
  | Done (Thrown err) w => Done (Normal VUndef) (emit (EvAsyncThrow err) w)
  | Done (Normal _) w => Done (Normal VUndef) w
  | OutOfFuel => OutOfFuel
  end.

(** [try { ... } catch (err) { console.error(tag..., err); }] *)
Definition try_console (tag : list val) (r : result) : result :=
  match r with
  | Done (Thrown err) w => Done (Normal VUndef) (emit (EvConsoleError (tag ++ [err])) w)
  | Done (Normal _) w => Done (Normal VUndef) w
  | OutOfFuel => OutOfFuel
  end.

(** [try { ... } catch (_) {}] *)
Definition try_silent (r : result) : result :=
  match r with
  | Done _ w => Done (Normal VUndef) w
  | OutOfFuel => OutOfFuel
  end.

(** ** The library, relative to a way of calling function objects *)
Section Library.
Context (call : val → list val → World → result).
(** Bound on the number of slots one live [Set.prototype.forEach]
    visits. *)
Context (loop_fuel : nat).

(** [if (typeof cleanup === 'function') cleanup();] *)
Definition run_cleanup (r : runner) (w : World) : result :=
  if is_function (cleanup_of r w) then call (cleanup_of r w) [] w
  else Done (Normal VUndef) w.

(** *** [runner] of [createEffect] (lines 86-110) *)
Definition effect_runner (e : nat) (w : World) : result :=
  let r := REffect e in
  let w0 := emit (EvRun r) w in
  if runner_exists r w0 then
    (* remove previous subscriptions for this runner *)
    let w1 := unsubscribe_deps r w0 in
    (* execute previous cleanup *)
    match try_console [] (run_cleanup r w1) with
    | OutOfFuel => OutOfFuel
    | Done _ w2 =>
        let w3 := push r (set_cleanup r VNull w2) in
        (* run effect and collect dependencies *)
        match call (fn_of r w3) [] w3 with
        | OutOfFuel => OutOfFuel
        | Done (Normal maybeCleanup) w4 =>
            Done (Normal VUndef)
              (pop (if is_function maybeCleanup then set_cleanup r maybeCleanup w4 else w4))
        | Done (Thrown err) w4 =>
            Done (Normal VUndef)
              (pop (emit (EvConsoleError [VStr "createEffect error"; err]) w4))
        end
    end
  else Done (Thrown type_error) w0.

(** *** [recompute] of [createComputed] (lines 141-168) *)
Definition recompute (c : nat) (w : World) : result :=
  let r := RComputed c in
  let w0 := emit (EvRun r) w in
  if runner_exists r w0 then
    let w1 := unsubscribe_deps r w0 in
    match try_silent (run_cleanup r w1) with
    | OutOfFuel => OutOfFuel
    | Done _ w2 =>
        let w3 := push r (set_cleanup r VNull w2) in
        match call (fn_of r w3) [] w3 with
        | OutOfFuel => OutOfFuel
        | Done (Normal result) w4 =>
            Done (Normal VUndef)
              (pop (set_dirty c false
                      (if is_function result then set_cleanup r result w4
                       else set_cached c result w4)))
        | Done (Thrown err) w4 =>
            Done (Normal VUndef)
              (pop (emit (EvConsoleError [VStr "createComputed error"; err]) w4))
        end
    end
  else Done (Thrown type_error) w0.

Definition run_runner (r : runner) (w : World) : result :=
  match r with
  | REffect e => effect_runner e w
  | RComputed c => recompute c w
  end.

(** Calling one member of a [__subs] set. *)
Definition invoke (x : subscriber) (w : World) : result :=
  match x with
  | SRunner r => run_runner r w
  | SFn f => call (VFun f) [] w
  end.

(** [arr.forEach((fn) => { try { fn(); } catch (err) { setTimeout(...) } })]
    over the array [arr = Array.from(subs)]. *)
Fixpoint notify (arr : list subscriber) (w : World) : result :=
  match arr with
  | [] => Done (Normal VUndef) w
  | fn :: arr' =>
      match try_async (invoke fn w) with
      | OutOfFuel => OutOfFuel
      | Done _ w' => notify arr' w'
      end
  end.

(** *** [get] of [createSignal] (lines 38-44) *)
Definition sig_get (s : nat) (w : World) : result :=
  match signals w !! s with
  | None => Done (Thrown type_error) w
  | Some sg =>
      match active w with
      | Some r => Done (Normal (sg_value sg)) (_trackDependency r (SrcSig s) w)
      | None => Done (Normal (sg_value sg)) w
      end
  end.

(** *** [set] of [createSignal] (lines 49-64) *)
Definition sig_set (s : nat) (newVal : val) (w : World) : result :=
  match signals w !! s with
  | None => Done (Thrown type_error) w
  | Some sg =>
      let old := sg_value sg in
      match (if is_function newVal then call newVal [old] w
             else Done (Normal newVal) w) with
      | OutOfFuel => OutOfFuel
      | Done (Thrown err) w1 => Done (Thrown err) w1
      | Done (Normal next) w1 =>
          let w2 := set_value s next w1 in
          if strict_eq old next then Done (Normal next) w2
          else
            (* notify subscribers (copy to avoid mutation during iteration) *)
            match notify (subs_of (SrcSig s) w2) w2 with
            | OutOfFuel => OutOfFuel
            | Done _ w3 => Done (Normal (value_of s w3)) w3
            end
      end
  end.

(** *** [subscribe] of [createSignal] (lines 66-70) *)
Definition sig_subscribe (s : nat) (fn : val) (w : World) : result :=
  match signals w !! s with
  | None => Done (Thrown type_error) w
  | Some _ =>
      match fn with
      | VFun f =>
          Done (Normal (VFun (FClosure (length (closures w)))))
            (alloc_closure (CUnsub s fn) (subs_update (SrcSig s) (set_add (SFn f)) w))
      | _ =>
          Done (Normal (VFun (FClosure (length (closures w))))) (alloc_closure CNoop w)
      end
  end.

(** *** The disposer returned by [createEffect] (lines 116-126) *)
Definition dispose (e : nat) (w : World) : result :=
  let r := REffect e in
  if runner_exists r w then
    let w1 := unsubscribe_deps r w in
    match try_console [] (run_cleanup r w1) with
    | OutOfFuel => OutOfFuel
    | Done _ w2 => Done (Normal VUndef) (set_cleanup r VNull w2)
    end
  else Done (Thrown type_error) w.

(** *** The getter returned by [createComputed] (lines 174-177) *)
Definition computed_get (c : nat) (w : World) : result :=
  match computeds w !! c with
  | None => Done (Thrown type_error) w
  | Some cp =>
      if cp_dirty cp then
        match recompute c w with
        | Done _ w' => Done (Normal (cached_of c w')) w'
        | OutOfFuel => OutOfFuel
        end
      else Done (Normal (cp_cached cp)) w
  end.

(** *** [createEffect(fn)] (lines 81-127) *)
Definition createEffect (fn : val) (w : World) : result :=
  if is_function fn then
    let e := length (effects w) in
    match effect_runner e (alloc_effect fn w) with
    | Done _ w' => Done (Normal (VFun (FDispose e))) w'
    | OutOfFuel => OutOfFuel
    end
  else Done (Thrown (VStr "createEffect: fn must be a function")) w.

(** *** [createComputed(fn)] (lines 134-178) *)
Definition createComputed (fn : val) (w : World) : result :=
  if is_function fn then
    let c := length (computeds w) in
    match recompute c (alloc_computed fn w) with
    | Done _ w' => Done (Normal (VFun (FComputed c))) w'
    | OutOfFuel => OutOfFuel
    end
  else Done (Thrown (VStr "createComputed: fn must be a function")) w.

(** *** [notifyGlobal(key, oldVal, newVal)] (lines 211-215): a live
    [globalSubs.forEach], resumed at slot [i]. *)
Fixpoint notifyGlobal_from (n : nat) (st : nat) (args : list val) (i : nat)
    (w : World) : result :=
  match n with
  | 0 => OutOfFuel
  | S n' =>
      match globalSubs_of st w !! i with
      | None => Done (Normal VUndef) w
      | Some None => notifyGlobal_from n' st args (S i) w
      | Some (Some fn) =>
          match try_console [] (call fn args w) with
          | OutOfFuel => OutOfFuel
          | Done _ w' => notifyGlobal_from n' st args (S i) w'
          end
      end
  end.

Definition notifyGlobal (st : nat) (key : string) (oldVal newVal : val) : World → result :=
  notifyGlobal_from loop_fuel st [VStr key; oldVal; newVal] 0.

(** The "notify property-specific subscribers" block of [handler.set]
    and [handler.deleteProperty]. *)
Definition notify_prop (st : nat) (prop : string) (w : World) : result :=
  match sigs_of st w with
  | Some map =>
      match map !! prop with
      | Some sig => notify (subs_of (SrcProp sig) w) w
      | None => Done (Normal VUndef) w
      end
  | None => Done (Normal VUndef) w
  end.

(** *** [handler.get] (lines 218-232)

    [Reflect.get(target, prop, receiver)] is read among the own properties
    of the target: what the source returns for an own property and for
    every name with [inherited prop = false]. *)
Definition handler_get (st : nat) (prop : string) (w : World) : result :=
  match states w !! st with
  | None => Done (Thrown type_error) w
  | Some _ =>
      if bool_decide (prop = "__isState") then Done (Normal (VBool true)) w
      else if bool_decide (prop = "subscribe") then
        Done (Normal (VFun (FClosure (length (closures w)))))
          (alloc_closure (CStateSubscribe st) w)
      else if bool_decide (prop = "inspect") then
        Done (Normal (VFun (FClosure (length (closures w)))))
          (alloc_closure (CInspect st) w)
      else
        (* tracking: if inside an effect, register dependency on this property *)
        let w' :=
          match active w with
          | Some r =>
              let '(sig, w1) := _ensurePropSignalFor st prop w in
              _trackDependency r (SrcProp sig) w1
          | None => w
          end in
        (* normal property access *)
        Done (Normal (default VUndef (target_of st w' !! prop))) w'
  end.

(** *** [handler.set] (lines 234-253)

    [target[prop]] is read among the own properties of the target and
    [Reflect.set] stores an own property: what the source does for an own
    property and for every name with [inherited prop = false]. *)
Definition handler_set (st : nat) (prop : string) (value : val) (w : World) : result :=
  match states w !! st with
  | None => Done (Thrown type_error) w
  | Some _ =>
      let old := default VUndef (target_of st w !! prop) in
      let w1 := set_target st (<[prop := value]>) w in
      if strict_eq old value then Done (Normal (VBool true)) w1
      else
        match notify_prop st prop w1 with
        | OutOfFuel => OutOfFuel
        | Done _ w2 =>
            match notifyGlobal st prop old value w2 with
            | OutOfFuel => OutOfFuel
            | Done _ w3 => Done (Normal (VBool true)) w3
            end
        end
  end.

(** [map.delete(prop)] on [STATE_PROP_SIGNALS.get(target)] *)
Definition discard_prop_signal (st : nat) (prop : string) (w : World) : World :=
  match sigs_of st w with
  | Some map => set_sigs st (Some (delete prop map)) w
  | None => w
  end.

(** *** [handler.deleteProperty] (lines 255-277)

    [prop in target] and [target[prop]] are decided by the own properties
    of the target: what the source does for an own property and for
    every name with [inherited prop = false]. *)
Definition handler_deleteProperty (st : nat) (prop : string) (w : World) : result :=
  match states w !! st with
  | None => Done (Thrown type_error) w
  | Some _ =>
      let old := default VUndef (target_of st w !! prop) in
      let existed := bool_decide (is_Some (target_of st w !! prop)) in
      let w1 := set_target st (delete prop) w in
      if existed then
        match notify_prop st prop w1 with
        | OutOfFuel => OutOfFuel
        | Done _ w2 =>
            match notifyGlobal st prop old VUndef (discard_prop_signal st prop w2) with
            | OutOfFuel => OutOfFuel
            | Done _ w3 => Done (Normal (VBool true)) w3
            end
        end
      else Done (Normal (VBool true)) w1
  end.

(** Calling an arrow function that the library allocated. *)
Definition call_closure (u : nat) (args : list val) (w : World) : result :=
  match closures w !! u with
  | None => Done (Thrown type_error) w
  | Some (CUnsub s fn) =>
      match fn with
      | VFun f =>
          Done (Normal (VBool (bool_decide (SFn f ∈ subs_of (SrcSig s) w))))
            (subs_update (SrcSig s) (set_delete (SFn f)) w)
      | _ => Done (Normal (VBool false)) w
      end
  | Some CNoop => Done (Normal VUndef) w
  | Some (CStateSubscribe st) =>
      Done (Normal (VFun (FClosure (length (closures w)))))
        (alloc_closure (CStateUnsub st (arg 0 args))
           (set_globalSubs st (slots_add (arg 0 args)) w))
  | Some (CStateUnsub st fn) =>
      Done (Normal (VBool (bool_decide (Some fn ∈ globalSubs_of st w))))
        (set_globalSubs st (slots_delete fn) w)
  | Some (CInspect st) =>
      Done (Normal (VObj (length (objects w)))) (alloc_object (target_of st w) w)
  end.

(** *** Running a client program *)
Fixpoint exec_with (p : prog) (w : World) : result :=
  match p with
  | PRet v => Done (Normal v) w
  | PThrow v => Done (Thrown v) w
  | PLog v k => exec_with k (add_log v w)
  | PCall f args k =>
      match call f args w with
      | Done (Normal v) w' => exec_with (k v) w'
      | r => r
      end
  | PNewSignal init k =>
      exec_with (k (fst (createSignal init w))) (snd (createSignal init w))
  | PNewEffect fn k =>
      match createEffect fn w with
      | Done (Normal v) w' => exec_with (k v) w'
      | r => r
      end
  | PNewComputed fn k =>
      match createComputed fn w with
      | Done (Normal v) w' => exec_with (k v) w'
      | r => r
      end
  | PNewState init k =>
      exec_with (k (fst (create_state init w))) (snd (create_state init w))
  | PStateGet st prop k =>
      match handler_get st prop w with
      | Done (Normal v) w' => exec_with (k v) w'
      | r => r
      end
  | PStateSet st prop v k =>
      match handler_set st prop v w with
      | Done (Normal _) w' => exec_with k w'
      | r => r
      end
  | PStateDelete st prop k =>
      match handler_deleteProperty st prop w with
      | Done (Normal _) w' => exec_with k w'
      | r => r
      end
  | PObjGet o prop k =>
      match objects w !! o with
      | Some obj => exec_with (k (default VUndef (obj !! prop))) w
      | None => Done (Thrown type_error) w
      end
  end.
End Library.

(** ** Tying the knot: calls bounded by their nesting depth *)
Section Interp.
(** The functions of the client program. *)
Context (code : nat → list val → prog).

Fixpoint call (fuel : nat) (f : val) (args : list val) (w : World) : result :=
  match fuel with
  | 0 => OutOfFuel
  | S n =>
      match f with
      | VFun fr =>
          let w := emit (EvCall fr args) w in
          match fr with
          | FUser u => exec_with (call n) n (code u args) w
          | FGet s => sig_get s w
          | FSet s => sig_set (call n) s (arg 0 args) w
          | FSubscribe s => sig_subscribe s (arg 0 args) w
          | FClosure u => call_closure u args w
          | FDispose e => dispose (call n) e w
          | FComputed c => computed_get (call n) c w
          end
      | _ => Done (Thrown type_error) w
      end
  end.

(** A top-level script. *)
Definition exec (fuel : nat) (p : prog) (w : World) : result :=
  exec_with (call fuel) fuel p w.
End Interp.

(** * Reasoning principles *)

Global Arguments emit : simpl never.
Global Arguments add_log : simpl never.
Global Arguments push : simpl never.
Global Arguments pop : simpl never.
Global Arguments active : simpl never.
Global Arguments EFFECT_DEPS_get : simpl never.
Global Arguments EFFECT_DEPS_put : simpl never.
Global Arguments subs_of : simpl never.
Global Arguments subs_update : simpl never.
Global Arguments cleanup_of : simpl never.
Global Arguments set_cleanup : simpl never.
Global Arguments fn_of : simpl never.
Global Arguments runner_exists : simpl never.
Global Arguments set_cached : simpl never.
Global Arguments set_dirty : simpl never.
Global Arguments cached_of : simpl never.
Global Arguments dirty_of : simpl never.
Global Arguments value_of : simpl never.
Global Arguments set_value : simpl never.
Global Arguments alloc_signal : simpl never.
Global Arguments alloc_effect : simpl never.
Global Arguments alloc_computed : simpl never.
Global Arguments alloc_state : simpl never.
Global Arguments alloc_closure : simpl never.
Global Arguments alloc_object : simpl never.
Global Arguments target_of : simpl never.
Global Arguments set_target : simpl never.
Global Arguments globalSubs_of : simpl never.
Global Arguments set_globalSubs : simpl never.
Global Arguments sigs_of : simpl never.
Global Arguments set_sigs : simpl never.
Global Arguments _trackDependency : simpl never.
Global Arguments unsubscribe_deps : simpl never.
Global Arguments _ensurePropSignalFor : simpl never.
Global Arguments discard_prop_signal : simpl never.

(** ** Observations on traces *)

Definition is_call (f : fref) (ev : event) : bool :=
  match ev with EvCall g _ => bool_decide (g = f) | _ => false end.

(** How often the function object [f] has been invoked. *)
Definition calls (f : fref) (t : list event) : nat :=
  length (filter (λ ev, Is_true (is_call f ev)) t).

(** How often runner [r] has been entered. *)
Definition runs (r : runner) (t : list event) : nat :=
  length (filter (λ ev, ev = EvRun r) t).

(** The sources runner [r] has read since it last dropped its
    dependencies, according to the history [t]. *)
Definition live_step (r : runner) (acc : list source) (ev : event) : list source :=
  match ev with
  | EvTrack r' k => if bool_decide (r' = r) then set_add k acc else acc
  | EvUnsub r' => if bool_decide (r' = r) then [] else acc
  | _ => acc
  end.

Definition live_from (r : runner) (acc : list source) (t : list event) : list source :=
  foldl (live_step r) acc t.

Definition live (r : runner) (t : list event) : list source := live_from r [] t.

(** Events that are neither runner entries nor dependency bookkeeping. *)
Definition plain (ev : event) : bool :=
  match ev with
  | EvCall _ _ | EvConsoleError _ | EvAsyncThrow _ => true
  | _ => false
  end.

(** [subscribe], [inspect] and [__isState] never reach the target in
    [handler.get]. *)
Definition reserved (prop : string) : bool :=
  bool_decide (prop = "__isState") || bool_decide (prop = "subscribe")
  || bool_decide (prop = "inspect").

(** [_ensurePropSignalFor] followed by [_trackDependency], as in
    [handler.get]. *)
Definition track_prop (r : runner) (st : nat) (prop : string) (w : World) : World :=
  let '(sig, w1) := _ensurePropSignalFor st prop w in
  _trackDependency r (SrcProp sig) w1.
Global Arguments track_prop : simpl never.

(** ** A preservation scheme

    [Inv] is a property of stores, [Ext] a preorder between a store and a
    later one, [Q] the runners that may be entered.  When every primitive
    update respects them, so does every library entry point and every
    client program. *)
Record Preserved (Inv : World → Prop) (Ext : World → World → Prop) (Q : runner → Prop) := {
  pr_refl : ∀ w, Ext w w;
  pr_trans : ∀ w1 w2 w3, Ext w1 w2 → Ext w2 w3 → Ext w1 w3;
  pr_exists : ∀ r w w', Ext w w' → runner_exists r w = true → runner_exists r w' = true;
  pr_emit : ∀ ev w, plain ev = true → Inv w → Inv (emit ev w) ∧ Ext w (emit ev w);
  pr_log : ∀ v w, Inv w → Inv (add_log v w) ∧ Ext w (add_log v w);
  pr_run : ∀ r w, Q r → Inv w → Inv (emit (EvRun r) w) ∧ Ext w (emit (EvRun r) w);
  pr_unsub : ∀ r w, Inv w → Inv (unsubscribe_deps r w) ∧ Ext w (unsubscribe_deps r w);
  pr_cleanup : ∀ r v w, Inv w → Inv (set_cleanup r v w) ∧ Ext w (set_cleanup r v w);
  pr_push : ∀ r w, Q r → runner_exists r w = true → Inv w → Inv (push r w);
  pr_pop : ∀ r w w', Ext (push r w) w' → Inv w' → Inv (pop w') ∧ Ext w (pop w');
  pr_track_sig : ∀ r s w, active w = Some r → is_Some (signals w !! s) → Inv w →
           Inv (_trackDependency r (SrcSig s) w) ∧ Ext w (_trackDependency r (SrcSig s) w);
  pr_track_prop : ∀ r st prop w, active w = Some r → is_Some (states w !! st) →
           reserved prop = false → Inv w →
           Inv (track_prop r st prop w) ∧ Ext w (track_prop r st prop w);
  pr_value : ∀ s v w, Inv w → Inv (set_value s v w) ∧ Ext w (set_value s v w);
  pr_subs_add : ∀ s f w, Inv w →
           Inv (subs_update (SrcSig s) (set_add (SFn f)) w)
           ∧ Ext w (subs_update (SrcSig s) (set_add (SFn f)) w);
  pr_subs_delete : ∀ s f w, Inv w →
           Inv (subs_update (SrcSig s) (set_delete (SFn f)) w)
           ∧ Ext w (subs_update (SrcSig s) (set_delete (SFn f)) w);
  pr_alloc_closure : ∀ c w, Inv w → Inv (alloc_closure c w) ∧ Ext w (alloc_closure c w);
  pr_alloc_object : ∀ o w, Inv w → Inv (alloc_object o w) ∧ Ext w (alloc_object o w);
  pr_alloc_signal : ∀ v w, Inv w → Inv (alloc_signal v w) ∧ Ext w (alloc_signal v w);
  pr_alloc_state : ∀ i w, Inv w → Inv (alloc_state i w) ∧ Ext w (alloc_state i w);
  pr_alloc_effect : ∀ fn w, Inv w → Inv (alloc_effect fn w) ∧ Ext w (alloc_effect fn w);
  pr_alloc_computed : ∀ fn w, Inv w → Inv (alloc_computed fn w) ∧ Ext w (alloc_computed fn w);
  pr_dirty : ∀ c w, Inv w → Inv (set_dirty c false w) ∧ Ext w (set_dirty c false w);
  pr_cached : ∀ c v w, Inv w → Inv (set_cached c v w) ∧ Ext w (set_cached c v w);
  pr_target : ∀ st f w, Inv w → Inv (set_target st f w) ∧ Ext w (set_target st f w);
  pr_discard : ∀ st prop w, Inv w →
           Inv (discard_prop_signal st prop w) ∧ Ext w (discard_prop_signal st prop w);
  pr_slots_add : ∀ st x w, Inv w →
           Inv (set_globalSubs st (slots_add x) w) ∧ Ext w (set_globalSubs st (slots_add x) w);
  pr_slots_delete : ∀ st x w, Inv w →
           Inv (set_globalSubs st (slots_delete x) w)
           ∧ Ext w (set_globalSubs st (slots_delete x) w);
  pr_Q_subs : ∀ k r w, Inv w → SRunner r ∈ subs_of k w → Q r;
  pr_Q_effect : ∀ w, Inv w → Q (REffect (length (effects w)));
  pr_Q_computed : ∀ c w, Inv w → Q (RComputed c)
}.

Section Preservation.
Context {Inv : World → Prop} {Ext : World → World → Prop} {Q : runner → Prop}.
Context (P : Preserved Inv Ext Q).

(** What it means for a step from [w] to arrive at [w']. *)
Definition step_ok (w w' : World) : Prop := Inv w' ∧ Ext w w'.

Definition res_ok (f : World → result) : Prop :=
  ∀ w o w', Inv w → f w = Done o w' → step_ok w w'.

Lemma step_here w : Inv w → step_ok w w.
Proof. intros; split; [done | apply (pr_refl _ _ _ P)]. Qed.

Lemma step_then w w1 w2 : step_ok w w1 → (Inv w1 → step_ok w1 w2) → step_ok w w2.
Proof.
  intros [HI HE] H. destruct (H HI). split; [done | eapply (pr_trans _ _ _ P); eauto].
Qed.

Lemma res_ok_try_async f : res_ok f → res_ok (λ w, try_async (f w)).
Proof.
  intros Hf w o w' HI H. unfold try_async in H.
  destruct (f w) as [[v|err] w1|] eqn:E; simplify_eq; [by eapply Hf|].
  eapply step_then; [by eapply Hf|]. intros; by apply (pr_emit _ _ _ P).
Qed.

Lemma res_ok_try_console tag f : res_ok f → res_ok (λ w, try_console tag (f w)).
Proof.
  intros Hf w o w' HI H. unfold try_console in H.
  destruct (f w) as [[v|err] w1|] eqn:E; simplify_eq; [by eapply Hf|].
  eapply step_then; [by eapply Hf|]. intros; by apply (pr_emit _ _ _ P).
Qed.

Lemma res_ok_try_silent f : res_ok f → res_ok (λ w, try_silent (f w)).
Proof.
  intros Hf w o w' HI H. unfold try_silent in H.
  destruct (f w) as [[v|err] w1|] eqn:E; simplify_eq; by eapply Hf.
Qed.

Section WithCall.
Context (call : val → list val → World → result) (loop_fuel : nat).
Context (call_ok : ∀ f args, res_ok (call f args)).

Lemma run_cleanup_ok r : res_ok (run_cleanup call r).
Proof.
  intros w o w' HI H. unfold run_cleanup in H.
  destruct (is_function _); [by eapply call_ok|]. simplify_eq. by apply step_here.
Qed.

(** Running a body between [push] and [pop]. *)
Lemma within_push r w w' :
  Q r → runner_exists r w = true → Inv w →
  (Inv (push r w) → step_ok (push r w) w') → step_ok w (pop w').
Proof.
  intros HQ Hex HI H. destruct (H (pr_push _ _ _ P r w HQ Hex HI)) as [HI' HE'].
  by apply (pr_pop _ _ _ P r).
Qed.

Lemma effect_runner_ok e : Q (REffect e) → res_ok (effect_runner call e).
Proof.
  intros HQ w o w' HI H. unfold effect_runner in H.
  eapply step_then; [by apply (pr_run _ _ _ P (REffect e))|intros HI0].
  set (w0 := emit (EvRun (REffect e)) w) in *.
  destruct (runner_exists (REffect e) w0) eqn:Hex; [|simplify_eq; by apply step_here].
  set (w1 := unsubscribe_deps (REffect e) w0) in *.
  destruct (try_console [] (run_cleanup call (REffect e) w1)) as [o2 w2|] eqn:E2; [|done].
  assert (Hpre : step_ok w0 (set_cleanup (REffect e) VNull w2)).
  { eapply step_then; [by apply (pr_unsub _ _ _ P)|intros HI1].
    eapply step_then;
      [by apply (res_ok_try_console [] _ (run_cleanup_ok (REffect e)) w1 o2 w2)|intros HI2].
    by apply (pr_cleanup _ _ _ P). }
  eapply step_then; [exact Hpre|intros HIp].
  set (w3 := push (REffect e) (set_cleanup (REffect e) VNull w2)) in *.
  destruct (call (fn_of (REffect e) w3) [] w3) as [[v|err] w4|] eqn:E4; [| |done];
    simplify_eq; apply (within_push (REffect e));
    [done|by eapply (pr_exists _ _ _ P), Hex; apply Hpre|done|intros HI3
    |done|by eapply (pr_exists _ _ _ P), Hex; apply Hpre|done|intros HI3].
  - eapply step_then; [by eapply call_ok|intros HI4].
    destruct (is_function v); [by apply (pr_cleanup _ _ _ P)|by apply step_here].
  - eapply step_then; [by eapply call_ok|intros HI4]. by apply (pr_emit _ _ _ P).
Qed.

Lemma recompute_ok c : Q (RComputed c) → res_ok (recompute call c).
Proof.
  intros HQ w o w' HI H. unfold recompute in H.
  eapply step_then; [by apply (pr_run _ _ _ P (RComputed c))|intros HI0].
  set (w0 := emit (EvRun (RComputed c)) w) in *.
  destruct (runner_exists (RComputed c) w0) eqn:Hex; [|simplify_eq; by apply step_here].
  set (w1 := unsubscribe_deps (RComputed c) w0) in *.
  destruct (try_silent (run_cleanup call (RComputed c) w1)) as [o2 w2|] eqn:E2; [|done].
  assert (Hpre : step_ok w0 (set_cleanup (RComputed c) VNull w2)).
  { eapply step_then; [by apply (pr_unsub _ _ _ P)|intros HI1].
    eapply step_then;
      [by apply (res_ok_try_silent _ (run_cleanup_ok (RComputed c)) w1 o2 w2)|intros HI2].
    by apply (pr_cleanup _ _ _ P). }
  eapply step_then; [exact Hpre|intros HIp].
  set (w3 := push (RComputed c) (set_cleanup (RComputed c) VNull w2)) in *.
  destruct (call (fn_of (RComputed c) w3) [] w3) as [[v|err] w4|] eqn:E4; [| |done];
    simplify_eq; apply (within_push (RComputed c));
    [done|by eapply (pr_exists _ _ _ P), Hex; apply Hpre|done|intros HI3
    |done|by eapply (pr_exists _ _ _ P), Hex; apply Hpre|done|intros HI3].
  - eapply step_then; [by eapply call_ok|intros HI4].
    eapply step_then; [|intros HI5; by apply (pr_dirty _ _ _ P)].
    destruct (is_function v); [by apply (pr_cleanup _ _ _ P)|by apply (pr_cached _ _ _ P)].
  - eapply step_then; [by eapply call_ok|intros HI4]. by apply (pr_emit _ _ _ P).
Qed.

Lemma run_runner_ok r : Q r → res_ok (run_runner call r).
Proof. destruct r; [apply effect_runner_ok|apply recompute_ok]. Qed.

Lemma invoke_ok x : (∀ r, x = SRunner r → Q r) → res_ok (invoke call x).
Proof. destruct x as [r|f]; simpl; [intros H; apply run_runner_ok; eauto|intros _; apply call_ok]. Qed.

Lemma notify_ok arr : (∀ r, SRunner r ∈ arr → Q r) → res_ok (notify call arr).
Proof.
  induction arr as [|x arr IH]; intros HQ w o w' HI H; simpl in H.
  - simplify_eq. by apply step_here.
  - destruct (try_async (invoke call x w)) as [o1 w1|] eqn:E1; [|done].
    eapply step_then.
    + eapply (res_ok_try_async (invoke call x)); [|done|exact E1].
      apply invoke_ok. intros r ->. apply HQ. by left.
    + intros HI1. eapply IH; [|done|exact H]. intros r Hr. apply HQ. by right.
Qed.

Lemma sig_get_ok s : res_ok (sig_get s).
Proof.
  intros w o w' HI H. unfold sig_get in H.
  destruct (signals w !! s) as [sg|] eqn:Es; [|simplify_eq; by apply step_here].
  destruct (active w) as [r|] eqn:Ea; simplify_eq; [|by apply step_here].
  apply (pr_track_sig _ _ _ P); eauto.
Qed.

Lemma sig_set_ok s newVal : res_ok (sig_set call s newVal).
Proof.
  intros w o w' HI H. unfold sig_set in H.
  destruct (signals w !! s) as [sg|] eqn:Es; [|simplify_eq; by apply step_here].
  destruct (if is_function newVal then call newVal [sg_value sg] w else Done (Normal newVal) w)
    as [[next|err] w1|] eqn:E1; [| |done].
  - assert (step_ok w w1) as Hw1.
    { destruct (is_function newVal); [by eapply call_ok|simplify_eq; by apply step_here]. }
    eapply step_then; [exact Hw1|intros HI1].
    eapply step_then; [by apply (pr_value _ _ _ P s next)|intros HI2].
    destruct (strict_eq _ _); [simplify_eq; by apply step_here|].
    destruct (notify call _ _) as [o3 w3|] eqn:E3; [|done]. simplify_eq.
    eapply notify_ok; [|done|exact E3]. intros r Hr. by eapply (pr_Q_subs _ _ _ P).
  - simplify_eq.
    destruct (is_function newVal); [by eapply call_ok|simplify_eq].
Qed.

Lemma sig_subscribe_ok s fn : res_ok (sig_subscribe s fn).
Proof.
  intros w o w' HI H. unfold sig_subscribe in H.
  destruct (signals w !! s) as [sg|] eqn:Es; [|simplify_eq; by apply step_here].
  destruct fn; simplify_eq; try by apply (pr_alloc_closure _ _ _ P).
  eapply step_then; [by apply (pr_subs_add _ _ _ P)|intros HI1].
  by apply (pr_alloc_closure _ _ _ P).
Qed.

Lemma dispose_ok e : res_ok (dispose call e).
Proof.
  intros w o w' HI H. unfold dispose in H.
  destruct (runner_exists (REffect e) w) eqn:Hex; [|simplify_eq; by apply step_here].
  destruct (try_console [] _) as [o2 w2|] eqn:E2; [|done]. simplify_eq.
  eapply step_then; [by apply (pr_unsub _ _ _ P)|intros HI1].
  eapply step_then;
    [by eapply (res_ok_try_console [] _ (run_cleanup_ok (REffect e)))|intros HI2].
  by apply (pr_cleanup _ _ _ P).
Qed.

Lemma computed_get_ok c : res_ok (computed_get call c).
Proof.
  intros w o w' HI H. unfold computed_get in H.
  destruct (computeds w !! c) as [cp|] eqn:Ec; [|simplify_eq; by apply step_here].
  destruct (cp_dirty cp); [|simplify_eq; by apply step_here].
  destruct (recompute call c w) as [o1 w1|] eqn:E1; [|done]. simplify_eq.
  eapply recompute_ok; [|done|exact E1]. by apply (pr_Q_computed _ _ _ P c w).
Qed.

Lemma createEffect_ok fn : res_ok (createEffect call fn).
Proof.
  intros w o w' HI H. unfold createEffect in H.
  destruct (is_function fn); [|simplify_eq; by apply step_here].
  destruct (effect_runner call _ _) as [o1 w1|] eqn:E1; [|done]. simplify_eq.
  eapply step_then; [by apply (pr_alloc_effect _ _ _ P fn)|intros HI1].
  eapply effect_runner_ok; [|done|exact E1]. by apply (pr_Q_effect _ _ _ P).
Qed.

Lemma createComputed_ok fn : res_ok (createComputed call fn).
Proof.
  intros w o w' HI H. unfold createComputed in H.
  destruct (is_function fn); [|simplify_eq; by apply step_here].
  destruct (recompute call _ _) as [o1 w1|] eqn:E1; [|done]. simplify_eq.
  eapply step_then; [by apply (pr_alloc_computed _ _ _ P fn)|intros HI1].
  eapply recompute_ok; [|done|exact E1]. by apply (pr_Q_computed _ _ _ P _ w).
Qed.

Lemma notifyGlobal_from_ok n st args i : res_ok (notifyGlobal_from call n st args i).
Proof.
  revert i. induction n as [|n IH]; intros i w o w' HI H; simpl in H; [done|].
  destruct (globalSubs_of st w !! i) as [[fn|]|]; [| |simplify_eq; by apply step_here].
  - destruct (try_console [] (call fn args w)) as [o1 w1|] eqn:E1; [|done].
    eapply step_then; [by eapply (res_ok_try_console [] _ (call_ok fn args))|intros HI1].
    by eapply IH.
  - by eapply IH.
Qed.

Lemma notify_prop_ok st prop : res_ok (notify_prop call st prop).
Proof.
  intros w o w' HI H. unfold notify_prop in H.
  destruct (sigs_of st w) as [map|]; [|simplify_eq; by apply step_here].
  destruct (map !! prop) as [sig|]; [|simplify_eq; by apply step_here].
  eapply notify_ok; [|done|exact H]. intros r Hr. by eapply (pr_Q_subs _ _ _ P).
Qed.

Lemma handler_get_ok st prop : res_ok (handler_get st prop).
Proof.
  intros w o w' HI H. unfold handler_get in H.
  destruct (states w !! st) as [x|] eqn:Est; [|simplify_eq; by apply step_here].
  destruct (bool_decide (prop = "__isState")) eqn:E1; [simplify_eq; by apply step_here|].
  destruct (bool_decide (prop = "subscribe")) eqn:E2;
    [simplify_eq; by apply (pr_alloc_closure _ _ _ P)|].
  destruct (bool_decide (prop = "inspect")) eqn:E3;
    [simplify_eq; by apply (pr_alloc_closure _ _ _ P)|].
  simplify_eq. destruct (active w) as [r|] eqn:Ea; [|by apply step_here].
  apply (pr_track_prop _ _ _ P r st prop w); eauto.
  unfold reserved. by rewrite E1, E2, E3.
Qed.

Lemma handler_set_ok st prop v : res_ok (handler_set call loop_fuel st prop v).
Proof.
  intros w o w' HI H. unfold handler_set in H.
  destruct (states w !! st) as [x|] eqn:Est; [|simplify_eq; by apply step_here].
  eapply step_then; [by apply (pr_target _ _ _ P st (<[prop:=v]>))|intros HI1].
  destruct (strict_eq _ _); [simplify_eq; by apply step_here|].
  destruct (notify_prop call st prop _) as [o2 w2|] eqn:E2; [|done].
  eapply step_then; [by eapply notify_prop_ok|intros HI2].
  destruct (notifyGlobal call loop_fuel st prop _ _ w2) as [o3 w3|] eqn:E3; [|done].
  simplify_eq. by eapply notifyGlobal_from_ok.
Qed.

Lemma handler_deleteProperty_ok st prop :
  res_ok (handler_deleteProperty call loop_fuel st prop).
Proof.
  intros w o w' HI H. unfold handler_deleteProperty in H.
  destruct (states w !! st) as [x|] eqn:Est; [|simplify_eq; by apply step_here].
  eapply step_then; [by apply (pr_target _ _ _ P st (delete prop))|intros HI1].
  destruct (bool_decide _); [|simplify_eq; by apply step_here].
  destruct (notify_prop call st prop _) as [o2 w2|] eqn:E2; [|done].
  eapply step_then; [by eapply notify_prop_ok|intros HI2].
  eapply step_then; [by apply (pr_discard _ _ _ P st prop)|intros HI2'].
  destruct (notifyGlobal call loop_fuel st prop _ _ _) as [o3 w3|] eqn:E3; [|done].
  simplify_eq. by eapply notifyGlobal_from_ok.
Qed.

Lemma call_closure_ok u args : res_ok (call_closure u args).
Proof.
  intros w o w' HI H. unfold call_closure in H.
  destruct (closures w !! u) as [[s fn| |st|st fn|st]|];
    [|simplify_eq; try by apply step_here..].
  - destruct fn; simplify_eq; try by apply step_here. by apply (pr_subs_delete _ _ _ P).
  - eapply step_then; [by apply (pr_slots_add _ _ _ P)|intros HI1].
    by apply (pr_alloc_closure _ _ _ P).
  - by apply (pr_slots_delete _ _ _ P).
  - by apply (pr_alloc_object _ _ _ P).
Qed.

Lemma exec_with_ok p : res_ok (exec_with call loop_fuel p).
Proof.
  induction p as [v|v|v k IH|f args k IH|init k IH|fn k IH|fn k IH|init k IH
                 |st prop k IH|st prop v k IH|st prop k IH|ob prop k IH];
    intros w o w' HI H; simpl in H.
  - simplify_eq. by apply step_here.
  - simplify_eq. by apply step_here.
  - eapply step_then; [by apply (pr_log _ _ _ P v)|intros HI1]. by eapply IH.
  - destruct (call f args w) as [[v|err] w1|] eqn:E1; [| |done].
    + eapply step_then; [by eapply call_ok|intros HI1]. by eapply IH.
    + simplify_eq. by eapply call_ok.
  - eapply step_then; [by apply (pr_alloc_signal _ _ _ P init)|intros HI1]. by eapply IH.
  - destruct (createEffect call fn w) as [[v|err] w1|] eqn:E1; [| |done].
    + eapply step_then; [by eapply createEffect_ok|intros HI1]. by eapply IH.
    + simplify_eq. by eapply createEffect_ok.
  - destruct (createComputed call fn w) as [[v|err] w1|] eqn:E1; [| |done].
    + eapply step_then; [by eapply createComputed_ok|intros HI1]. by eapply IH.
    + simplify_eq. by eapply createComputed_ok.
  - eapply step_then; [by apply (pr_alloc_state _ _ _ P init)|intros HI1]. by eapply IH.
  - destruct (handler_get st prop w) as [[v|err] w1|] eqn:E1; [| |done].
    + eapply step_then; [by eapply handler_get_ok|intros HI1]. by eapply IH.
    + simplify_eq. by eapply handler_get_ok.
  - destruct (handler_set call loop_fuel st prop v w) as [[v'|err] w1|] eqn:E1; [| |done].
    + eapply step_then; [by eapply handler_set_ok|intros HI1]. by eapply IH.
    + simplify_eq. by eapply handler_set_ok.
  - destruct (handler_deleteProperty call loop_fuel st prop w) as [[v'|err] w1|] eqn:E1;
      [| |done].
    + eapply step_then; [by eapply handler_deleteProperty_ok|intros HI1]. by eapply IH.
    + simplify_eq. by eapply handler_deleteProperty_ok.
  - destruct (objects w !! ob) as [obj|]; [by eapply IH|simplify_eq; by apply step_here].
Qed.
End WithCall.

(** The scheme holds at every nesting depth. *)
Lemma call_ok code fuel f args : res_ok (call code fuel f args).
Proof.
  revert f args. induction fuel as [|n IH]; intros f args w o w' HI H; simpl in H; [done|].
  destruct f as [| | | | | |fr|]; try (simplify_eq; by apply step_here).
  eapply step_then; [by apply (pr_emit _ _ _ P (EvCall fr args))|intros HI1].
  destruct fr as [u|s|s|s|u|e|c].
  - by eapply (exec_with_ok (call code n) n IH).
  - by eapply sig_get_ok.
  - by eapply (sig_set_ok (call code n) IH).
  - by eapply sig_subscribe_ok.
  - by eapply call_closure_ok.
  - by eapply (dispose_ok (call code n) IH).
  - by eapply (computed_get_ok (call code n) IH).
Qed.

Lemma exec_ok code fuel p : res_ok (exec code fuel p).
Proof. apply exec_with_ok, call_ok. Qed.
End Preservation.

(** ** Unfolding the primitive updates *)

Ltac unfold_prims :=
  unfold track_prop, _ensurePropSignalFor, discard_prop_signal, _trackDependency,
    emit, add_log, push, pop, active, EFFECT_DEPS_put, subs_update,
    set_cleanup, set_cached, set_dirty, set_value, alloc_signal, alloc_effect,
    alloc_computed, alloc_state, alloc_closure, alloc_object, set_target, set_globalSubs,
    set_sigs, set_stack, set_signals, set_effects, set_computeds, set_states, set_propsigs,
    set_closures, set_objects, set_log, set_trace in *.

(** The loop of [unsubscribe_deps] only touches [__subs] sets. *)
Lemma unsub_loop_frame r d w :
  let w' := foldl (λ w' sigKey, subs_update sigKey (set_delete (SRunner r)) w') w d in
  EFFECT_STACK w' = EFFECT_STACK w ∧ trace w' = trace w ∧ effects w' = effects w
  ∧ computeds w' = computeds w ∧ states w' = states w ∧ closures w' = closures w
  ∧ objects w' = objects w ∧ log w' = log w
  ∧ length (signals w') = length (signals w) ∧ length (propsigs w') = length (propsigs w).
Proof.
  revert w. induction d as [|k d IH]; intros w; simpl; [done|].
  destruct (IH (subs_update k (set_delete (SRunner r)) w)) as (-> & -> & -> & -> & -> & -> & -> & -> & -> & ->).
  destruct k; unfold_prims; simpl; by rewrite ?length_alter.
Qed.

(** Lookups in updated tables. *)
Lemma from_option_alter {A B} (f : A → B) (g : A → A) d (l : list A) i j :
  from_option f d (alter g i l !! j)
  = if decide (i = j) then from_option (f ∘ g) d (l !! j) else from_option f d (l !! j).
Proof.
  case_decide; subst; [rewrite list_lookup_alter_eq|rewrite list_lookup_alter_ne by done];
    by destruct (l !! j).
Qed.

Lemma bind_alter {A B} (h : A → option B) (g : A → A) (l : list A) i j :
  alter g i l !! j ≫= h
  = if decide (i = j) then l !! j ≫= (h ∘ g) else l !! j ≫= h.
Proof.
  case_decide; subst; [rewrite list_lookup_alter_eq|rewrite list_lookup_alter_ne by done];
    by destruct (l !! j).
Qed.

Lemma from_option_snoc {A B} (f : A → B) d (l : list A) x i :
  f x = d → from_option f d ((l ++ [x]) !! i) = from_option f d (l !! i).
Proof.
  intros Hx. destruct (decide (i < length l)) as [Hi|Hi].
  - by rewrite lookup_app_l.
  - rewrite lookup_app_r by lia. rewrite (lookup_ge_None_2 l i) by lia.
    by destruct (i - length l) as [|[|n]].
Qed.

Lemma bind_snoc {A B} (h : A → option B) (l : list A) x i :
  h x = None → (l ++ [x]) !! i ≫= h = l !! i ≫= h.
Proof.
  intros Hx. destruct (decide (i < length l)) as [Hi|Hi].
  - by rewrite lookup_app_l.
  - rewrite lookup_app_r by lia. rewrite (lookup_ge_None_2 l i) by lia.
    by destruct (i - length l) as [|[|n]].
Qed.

Lemma default_snoc {A} (d : A) (l : list A) i :
  default d ((l ++ [d]) !! i) = default d (l !! i).
Proof. apply (from_option_snoc id). done. Qed.

(** ** First instance: stack discipline and growing history

    Whatever a call does, it returns with [EFFECT_STACK] as it found it,
    it only appends to the trace, and no runner disappears. *)
Definition extends (w w' : World) : Prop :=
  EFFECT_STACK w' = EFFECT_STACK w
  ∧ (∃ t, trace w' = trace w ++ t)
  ∧ length (effects w) ≤ length (effects w')
  ∧ length (computeds w) ≤ length (computeds w')
  ∧ (∀ r, runner_exists r w = true → fn_of r w' = fn_of r w)
  ∧ length (signals w) ≤ length (signals w')
  ∧ length (states w) ≤ length (states w').

Lemma extends_refl w : extends w w.
Proof.
  unfold extends; split_and!; [done|by exists []; rewrite app_nil_r|lia|lia|done|lia|lia].
Qed.

Lemma runner_exists_mono r w w' :
  length (effects w) ≤ length (effects w') → length (computeds w) ≤ length (computeds w') →
  runner_exists r w = true → runner_exists r w' = true.
Proof.
  intros ? ? Hex. destruct r; unfold runner_exists in *;
    apply bool_decide_eq_true; apply bool_decide_eq_true in Hex; lia.
Qed.

Lemma extends_trans w1 w2 w3 : extends w1 w2 → extends w2 w3 → extends w1 w3.
Proof.
  intros (E1 & [t1 T1] & ? & ? & F1 & ? & ?) (E2 & [t2 T2] & ? & ? & F2 & ? & ?).
  unfold extends; split_and!; [congruence| |lia|lia| |lia|lia].
  - exists (t1 ++ t2). by rewrite T2, T1, app_assoc.
  - intros r Hr. rewrite F2, F1; [done..|]. by eapply runner_exists_mono.
Qed.

Ltac solve_fn_of :=
  let Hex := fresh "Hex" in
  intros [?|?] Hex; unfold fn_of, runner_exists in *; simpl in *;
  rewrite ?from_option_alter; repeat case_decide; simpl; try done;
  apply bool_decide_eq_true in Hex; rewrite ?lookup_app_l by done; done.

Ltac solve_extends :=
  unfold extends; unfold_prims; simpl; rewrite ?length_alter, ?length_app; simpl;
  split_and!;
  first [done | lia | by eexists | by exists []; rewrite app_nil_r | solve_fn_of].

Lemma extends_unsub r w : extends w (unsubscribe_deps r w).
Proof.
  unfold unsubscribe_deps. destruct (EFFECT_DEPS_get r w) as [d|].
  - pose proof (unsub_loop_frame r d w) as (E1 & E2 & E3 & E4 & E5 & _ & _ & _ & E6 & _).
    simpl in *. remember (foldl _ w d) as w1 eqn:Hw1. clear Hw1.
    destruct r; unfold_prims; unfold extends; simpl;
      rewrite ?length_alter, ?E1, ?E2, ?E3, ?E4, ?E5, ?E6;
      (split_and!; [done|by eexists|lia|lia| |lia|lia]);
      (intros [?|?] ?; unfold fn_of; simpl; rewrite ?E3, ?E4, ?from_option_alter;
       by repeat case_decide).
  - solve_extends.
Qed.

Lemma extends_track r k w : extends w (_trackDependency r k w).
Proof. destruct r, k; solve_extends. Qed.

Lemma extends_track_prop r st prop w : extends w (track_prop r st prop w).
Proof.
  unfold track_prop, _ensurePropSignalFor.
  destruct (default ∅ (sigs_of st w) !! prop); destruct r; solve_extends.
Qed.

Lemma extends_pop r w w' : extends (push r w) w' → extends w (pop w').
Proof.
  intros (E1 & [t T] & ? & ? & F & ? & ?). unfold extends. unfold_prims; simpl in *.
  split_and!; [by rewrite E1| by exists t |lia|lia|done|lia|lia].
Qed.

Lemma preserved_extends : Preserved (λ _, True) extends (λ _, True).
Proof.
  split; try done; try (by intros; split; [done|solve_extends]).
  - apply extends_trans.
  - intros r w w' (_ & _ & ? & ? & _) Hex. by eapply runner_exists_mono.
  - intros. split; [done|apply extends_unsub].
  - intros. split; [done|]. destruct r; solve_extends.
  - intros. split; [done|by eapply extends_pop].
  - intros. split; [done|apply extends_track].
  - intros. split; [done|apply extends_track_prop].
  - intros. split; [done|]. unfold discard_prop_signal. destruct (sigs_of st w); solve_extends.
Qed.

(** Every call returns with the stack it was given and a longer trace. *)
Lemma call_extends code fuel f args w o w' :
  call code fuel f args w = Done o w' → extends w w'.
Proof. intros H. by eapply (call_ok preserved_extends code fuel f args w o w' I). Qed.

Lemma exec_extends code fuel p w o w' :
  exec code fuel p w = Done o w' → extends w w'.
Proof. intros H. by eapply (exec_ok preserved_extends code fuel p w o w' I). Qed.


(** ** Second instance: the dependency graph is consistent *)

(** [Runner.dependencies]: the set stored for [r] in [EFFECT_DEPS]. *)
Definition deps_of (r : runner) (w : World) : list source :=
  default [] (EFFECT_DEPS_get r w).

Record consistent (w : World) : Prop := {
  (* a source lists a runner only if the runner recorded the source *)
  wf_subs_deps : ∀ r k, SRunner r ∈ subs_of k w → k ∈ deps_of r w;
  (* every recorded source lists the runner *)
  wf_deps_subs : ∀ r k, k ∈ deps_of r w → SRunner r ∈ subs_of k w;
  (* the recorded sources are the ones read since the last unsubscription *)
  wf_history : ∀ r, deps_of r w = live r (trace w);
  (* only existing runners are executing *)
  wf_stack : ∀ r, r ∈ EFFECT_STACK w → runner_exists r w = true;
  (* property signals exist and are never made for an intercepted name *)
  wf_sigs : ∀ st map prop sig, sigs_of st w = Some map → map !! prop = Some sig →
            sig < length (propsigs w) ∧ reserved prop = false
}.

(** Sets as duplicate-free lists. *)
Lemma elem_of_set_add {A} `{EqDecision A} (x y : A) l : y ∈ set_add x l ↔ y = x ∨ y ∈ l.
Proof.
  unfold set_add. case_bool_decide.
  - split; [by right|]. intros [->|?]; done.
  - rewrite elem_of_app, list_elem_of_singleton. tauto.
Qed.

Lemma elem_of_set_delete {A} `{EqDecision A} (x y : A) l : y ∈ set_delete x l ↔ y ≠ x ∧ y ∈ l.
Proof.
  induction l as [|z l IH]; simpl; [rewrite elem_of_nil; tauto|].
  case_bool_decide; subst; rewrite ?elem_of_cons, IH.
  - split; [tauto|]. intros [? [?|?]]; [done|tauto].
  - split; [intros [->|[? ?]]; [split; [congruence|by left]|tauto]|tauto].
Qed.

(** The history function, one event at a time. *)
Lemma live_snoc r t ev : live r (t ++ [ev]) = live_step r (live r t) ev.
Proof. unfold live, live_from. by rewrite foldl_app. Qed.

Lemma live_from_app r acc t1 t2 :
  live_from r acc (t1 ++ t2) = live_from r (live_from r acc t1) t2.
Proof. unfold live_from. by rewrite foldl_app. Qed.

(** Updates that leave the dependency graph as it is. *)
Record same_graph (w w' : World) : Prop := {
  sg_subs_iff : ∀ r k, SRunner r ∈ subs_of k w' ↔ SRunner r ∈ subs_of k w;
  sg_deps : ∀ r, deps_of r w' = deps_of r w;
  sg_live : ∀ r, live r (trace w') = live r (trace w);
  sg_stack : EFFECT_STACK w' = EFFECT_STACK w;
  sg_exists : ∀ r, runner_exists r w = true → runner_exists r w' = true;
  sg_sigs : ∀ st, sigs_of st w' = sigs_of st w;
  sg_propsigs : length (propsigs w') = length (propsigs w)
}.

Lemma consistent_same_graph w w' : same_graph w w' → consistent w → consistent w'.
Proof.
  intros [S1 S2 S3 S4 S5 S6 S7] [C1 C2 C3 C4 C5]. split.
  - intros r k. rewrite S1, S2. apply C1.
  - intros r k. rewrite S1, S2. apply C2.
  - intros r. rewrite S2, S3. apply C3.
  - intros r. rewrite S4. eauto.
  - intros st map prop sig. rewrite S6, S7. apply C5.
Qed.

Ltac unfold_obs :=
  unfold deps_of, EFFECT_DEPS_get, subs_of, cleanup_of, fn_of, runner_exists, cached_of,
    dirty_of, value_of, target_of, globalSubs_of, sigs_of in *.

Ltac solve_obs :=
  unfold_obs; unfold_prims; simpl;
  rewrite ?from_option_alter, ?bind_alter, ?length_alter, ?length_app;
  repeat case_decide; simpl;
  try (rewrite from_option_snoc by done);
  try (rewrite bind_snoc by done);
  try (rewrite default_snoc);
  try done.

Ltac solve_same_graph :=
  split; intros;
  [ match goal with k : source |- _ => destruct k end
  | match goal with r : runner |- _ => destruct r end
  | idtac | idtac
  | match goal with r : runner |- _ => destruct r end
  | idtac | idtac ];
  solve_obs;
  try (by match goal with |- context [?l !! ?i] => destruct (l !! i) end);
  try (by rewrite live_snoc);
  try (apply bool_decide_eq_true;
       match goal with H : bool_decide _ = true |- _ => apply bool_decide_eq_true in H end; lia);
  try (exfalso; simpl in *; lia).

Lemma same_graph_log v w : same_graph w (add_log v w).
Proof. solve_same_graph. Qed.
Lemma same_graph_emit ev w :
  (∀ r k, ev ≠ EvTrack r k) → (∀ r, ev ≠ EvUnsub r) → same_graph w (emit ev w).
Proof.
  intros H1 H2. solve_same_graph. rewrite live_snoc.
  destruct ev; try done; [by destruct (H1 r0 k)|by destruct (H2 r0)].
Qed.
Lemma same_graph_cleanup r v w : same_graph w (set_cleanup r v w).
Proof. destruct r; solve_same_graph. Qed.
Lemma same_graph_value s v w : same_graph w (set_value s v w).
Proof. solve_same_graph. Qed.
Lemma same_graph_alloc_closure c w : same_graph w (alloc_closure c w).
Proof. solve_same_graph. Qed.
Lemma same_graph_alloc_object o w : same_graph w (alloc_object o w).
Proof. solve_same_graph. Qed.
Lemma same_graph_alloc_signal v w : same_graph w (alloc_signal v w).
Proof. solve_same_graph. Qed.
Lemma same_graph_alloc_state i w : same_graph w (alloc_state i w).
Proof. solve_same_graph. Qed.
Lemma same_graph_alloc_effect fn w : same_graph w (alloc_effect fn w).
Proof. solve_same_graph. Qed.
Lemma same_graph_alloc_computed fn w : same_graph w (alloc_computed fn w).
Proof. solve_same_graph. Qed.
Lemma same_graph_dirty c b w : same_graph w (set_dirty c b w).
Proof. solve_same_graph. Qed.
Lemma same_graph_cached c v w : same_graph w (set_cached c v w).
Proof. solve_same_graph. Qed.
Lemma same_graph_target st f w : same_graph w (set_target st f w).
Proof. solve_same_graph. Qed.
Lemma same_graph_globalSubs st f w : same_graph w (set_globalSubs st f w).
Proof. solve_same_graph. Qed.

Lemma same_graph_subs_add s f w :
  same_graph w (subs_update (SrcSig s) (set_add (SFn f)) w).
Proof.
  solve_same_graph. destruct (signals w !! s0); simpl; [|done].
  rewrite elem_of_set_add. split; [intros [?|?]; [done|done]|by right].
Qed.

Lemma same_graph_subs_delete s f w :
  same_graph w (subs_update (SrcSig s) (set_delete (SFn f)) w).
Proof.
  solve_same_graph. destruct (signals w !! s0); simpl; [|done].
  rewrite elem_of_set_delete. split; [by intros [_ ?]|by split].
Qed.

(** *** What [_trackDependency] changes *)

Definition source_exists (k : source) (w : World) : Prop :=
  match k with
  | SrcSig s => s < length (signals w)
  | SrcProp p => p < length (propsigs w)
  end.

Lemma subs_of_update k0 f k w :
  (source_exists k0 w ∨ f [] = []) →
  subs_of k (subs_update k0 f w) = if decide (k0 = k) then f (subs_of k w) else subs_of k w.
Proof.
  intros Hk. destruct k0 as [s0|p0], k as [s|p]; solve_obs; simplify_eq; try done.
  - destruct (signals w !! s) eqn:E; simpl; [done|].
    destruct Hk as [Hk|Hk]; [|done]. simpl in Hk. apply lookup_ge_None_1 in E. lia.
  - destruct (propsigs w !! p) eqn:E; simpl; [done|].
    destruct Hk as [Hk|Hk]; [|done]. simpl in Hk. apply lookup_ge_None_1 in E. lia.
Qed.

Lemma deps_of_put r0 d r w :
  runner_exists r0 w = true →
  deps_of r (EFFECT_DEPS_put r0 d w) = if decide (r0 = r) then default [] d else deps_of r w.
Proof.
  intros Hex. destruct r0 as [e0|c0], r as [e|c]; solve_obs; simplify_eq;
    apply bool_decide_eq_true in Hex; apply lookup_lt_is_Some_2 in Hex as [x Hx];
    by rewrite Hx.
Qed.

Lemma track_subs r k w r' k' :
  source_exists k w →
  SRunner r' ∈ subs_of k' (_trackDependency r k w)
  ↔ (r' = r ∧ k' = k) ∨ SRunner r' ∈ subs_of k' w.
Proof.
  intros Hk. unfold _trackDependency.
  assert (∀ w0 ev, subs_of k' (emit ev w0) = subs_of k' w0) as -> by (intros; destruct k'; solve_obs).
  assert (∀ w0 d, subs_of k' (EFFECT_DEPS_put r d w0) = subs_of k' w0) as ->
    by (intros; destruct r, k'; solve_obs).
  rewrite subs_of_update by auto. case_decide; subst.
  - rewrite elem_of_set_add. split; intros [H|H]; auto; [by left; simplify_eq|].
    destruct H as [-> _]. by left.
  - split; [by right|]. by intros [[_ ?]|?].
Qed.

Lemma track_deps r k w r' :
  runner_exists r w = true →
  deps_of r' (_trackDependency r k w)
  = if decide (r = r') then set_add k (deps_of r w) else deps_of r' w.
Proof.
  intros Hr. unfold _trackDependency.
  assert (∀ w0 ev, deps_of r' (emit ev w0) = deps_of r' w0) as ->
    by (intros; destruct r'; solve_obs).
  assert (∀ r0 w0 f, deps_of r0 (subs_update k f w0) = deps_of r0 w0) as Hs
    by (intros; destruct r0, k; solve_obs).
  rewrite deps_of_put.
  - case_decide; [|apply Hs]. simpl. fold (deps_of r (subs_update k (set_add (SRunner r)) w)).
    by rewrite Hs.
  - destruct r, k; solve_obs.
Qed.

Lemma track_frame r k w :
  let w' := _trackDependency r k w in
  trace w' = trace w ++ [EvTrack r k] ∧ EFFECT_STACK w' = EFFECT_STACK w
  ∧ (∀ r0, runner_exists r0 w' = runner_exists r0 w)
  ∧ (∀ st, sigs_of st w' = sigs_of st w)
  ∧ length (propsigs w') = length (propsigs w).
Proof.
  simpl. split_and!; try (intros [?|?]); try intros ?; destruct r, k; solve_obs.
Qed.

Lemma consistent_track r k w :
  runner_exists r w = true → source_exists k w → consistent w →
  consistent (_trackDependency r k w).
Proof.
  intros Hr Hk [C1 C2 C3 C4 C5].
  destruct (track_frame r k w) as (T & S & X & G & L). split.
  - intros r' k'. rewrite track_subs, track_deps by done.
    intros [[-> ->]|H]; case_decide; simplify_eq; rewrite ?elem_of_set_add; auto.
  - intros r' k'. rewrite track_subs, track_deps by done.
    case_decide; simplify_eq; rewrite ?elem_of_set_add; [|by auto].
    intros [->|H]; auto.
  - intros r'. rewrite track_deps, T, live_snoc by done. simpl.
    case_decide; case_bool_decide; simplify_eq; by rewrite <- ?C3.
  - intros r'. rewrite S, X. apply C4.
  - intros st map prop sig. rewrite G, L. apply C5.
Qed.

(** *** What [unsubscribe_deps] changes *)

Lemma unsub_loop_subs r d w y k :
  y ∈ subs_of k (foldl (λ w' sigKey, subs_update sigKey (set_delete (SRunner r)) w') w d)
  ↔ y ∈ subs_of k w ∧ ¬ (y = SRunner r ∧ k ∈ d).
Proof.
  revert w. induction d as [|k0 d IH]; intros w; simpl.
  - rewrite elem_of_nil. tauto.
  - rewrite IH, subs_of_update by auto. rewrite elem_of_cons.
    case_decide; subst; rewrite ?elem_of_set_delete; [tauto|].
    split; [intros [? ?]; split; [done|intros [? [?|?]]; [congruence|tauto]]|tauto].
Qed.

Lemma unsub_subs r w y k :
  y ∈ subs_of k (unsubscribe_deps r w)
  ↔ y ∈ subs_of k w ∧ ¬ (y = SRunner r ∧ k ∈ deps_of r w).
Proof.
  unfold unsubscribe_deps, deps_of.
  assert (∀ w0 ev, subs_of k (emit ev w0) = subs_of k w0) as -> by (intros; destruct k; solve_obs).
  destruct (EFFECT_DEPS_get r w) as [d|]; simpl.
  - assert (∀ w0 d, subs_of k (EFFECT_DEPS_put r d w0) = subs_of k w0) as ->
      by (intros; destruct r, k; solve_obs).
    apply unsub_loop_subs.
  - rewrite elem_of_nil. tauto.
Qed.

Lemma unsub_deps r w r' :
  deps_of r' (unsubscribe_deps r w) = if decide (r = r') then [] else deps_of r' w.
Proof.
  unfold unsubscribe_deps.
  assert (∀ w0 ev, deps_of r' (emit ev w0) = deps_of r' w0) as ->
    by (intros; destruct r'; solve_obs).
  destruct (EFFECT_DEPS_get r w) as [d|] eqn:E.
  - destruct (unsub_loop_frame r d w) as (_ & _ & E1 & E2 & _).
    remember (foldl _ w d) as w1 eqn:Hw1. clear Hw1.
    assert (deps_of r' w1 = deps_of r' w) as Hd
      by (destruct r'; unfold deps_of, EFFECT_DEPS_get; by rewrite ?E1, ?E2).
    destruct (runner_exists r w1) eqn:Hex.
    + rewrite deps_of_put by done. by case_decide.
    + case_decide; subst.
      * destruct r'; solve_obs; apply bool_decide_eq_false in Hex;
          rewrite lookup_ge_None_2 by lia; done.
      * rewrite <- Hd. destruct r, r'; solve_obs; congruence.
  - case_decide; subst; [|done]. unfold deps_of. by rewrite E.
Qed.

Lemma unsub_frame r w :
  let w' := unsubscribe_deps r w in
  trace w' = trace w ++ [EvUnsub r] ∧ EFFECT_STACK w' = EFFECT_STACK w
  ∧ (∀ r0, runner_exists r0 w' = runner_exists r0 w)
  ∧ (∀ st, sigs_of st w' = sigs_of st w)
  ∧ length (propsigs w') = length (propsigs w).
Proof.
  simpl. unfold unsubscribe_deps. destruct (EFFECT_DEPS_get r w) as [d|].
  - destruct (unsub_loop_frame r d w) as (E1 & E2 & E3 & E4 & E5 & _ & _ & _ & _ & E6).
    remember (foldl _ w d) as w1 eqn:Hw1. clear Hw1.
    split_and!; try (intros [?|?]); try intros ?; destruct r;
      unfold_obs; unfold_prims; simpl; rewrite ?length_alter, ?E1, ?E2, ?E3, ?E4, ?E5, ?E6;
      done.
  - split_and!; try (intros [?|?]); try intros ?; solve_obs.
Qed.

Lemma consistent_unsub r w : consistent w → consistent (unsubscribe_deps r w).
Proof.
  intros [C1 C2 C3 C4 C5].
  destruct (unsub_frame r w) as (T & S & X & G & L). split.
  - intros r' k. rewrite unsub_subs, unsub_deps. intros [Hm Hn].
    case_decide; subst; [|by auto]. destruct Hn. split; [done|by apply C1].
  - intros r' k. rewrite unsub_subs, unsub_deps.
    case_decide; subst; [by rewrite elem_of_nil|]. intros Hm. split; [by apply C2|].
    intros [? _]. congruence.
  - intros r'. rewrite unsub_deps, T, live_snoc. simpl.
    case_decide; case_bool_decide; simplify_eq; by rewrite <- ?C3.
  - intros r'. rewrite S, X. apply C4.
  - intros st map prop sig. rewrite G, L. apply C5.
Qed.

(** *** Stack and property-signal updates *)

Lemma consistent_set_stack f w :
  (∀ r, r ∈ f (EFFECT_STACK w) → runner_exists r w = true) →
  consistent w → consistent (set_stack f w).
Proof.
  intros Hf [C1 C2 C3 C4 C5]. split; try done.
Qed.

Lemma consistent_push r w :
  runner_exists r w = true → consistent w → consistent (push r w).
Proof.
  intros Hr C. apply consistent_set_stack; [|done].
  intros r'. rewrite elem_of_cons. intros [->|?]; [done|by apply (wf_stack _ C)].
Qed.

Lemma consistent_pop w : consistent w → consistent (pop w).
Proof.
  intros C. apply consistent_set_stack; [|done].
  intros r' Hr. apply (wf_stack _ C). destruct (EFFECT_STACK w); [done|].
  simpl in Hr. rewrite drop_0 in Hr. by right.
Qed.

Lemma sigs_of_set_sigs st m w st' :
  sigs_of st' (set_sigs st m w)
  = if decide (st = st')
    then (match states w !! st' with Some _ => m | None => None end)
    else sigs_of st' w.
Proof. solve_obs. Qed.

Lemma ensure_frame st prop w :
  let '(sig, w') := _ensurePropSignalFor st prop w in
  trace w' = trace w ∧ EFFECT_STACK w' = EFFECT_STACK w
  ∧ (∀ r, runner_exists r w' = runner_exists r w)
  ∧ (∀ r, deps_of r w' = deps_of r w)
  ∧ (∀ k, subs_of k w' = subs_of k w)
  ∧ length (propsigs w) ≤ length (propsigs w').
Proof.
  unfold _ensurePropSignalFor. destruct (default ∅ (sigs_of st w) !! prop) as [sig|].
  - split_and!; done.
  - split_and!; try done; try (intros [?|?]); solve_obs. lia.
Qed.

Lemma consistent_ensure st prop w :
  reserved prop = false → consistent w →
  let '(sig, w') := _ensurePropSignalFor st prop w in
  consistent w' ∧ sig < length (propsigs w').
Proof.
  intros Hres C. pose proof (ensure_frame st prop w) as Hf.
  unfold _ensurePropSignalFor in *.
  destruct (default ∅ (sigs_of st w) !! prop) as [sig|] eqn:E.
  - split; [done|]. destruct (sigs_of st w) as [map|] eqn:Em; simpl in E; [|done].
    by eapply (wf_sigs _ C).
  - destruct Hf as (T & Sk & X & D & U & L). destruct C as [C1 C2 C3 C4 C5].
    split; [split|].
    + intros r k. rewrite U, D. apply C1.
    + intros r k. rewrite U, D. apply C2.
    + intros r. rewrite D, T. apply C3.
    + intros r. rewrite Sk, X. apply C4.
    + intros st' map' prop' sig'. rewrite sigs_of_set_sigs.
      assert (∀ n, n < length (propsigs w) →
                n < length (propsigs (set_propsigs (λ l, l ++ [[]]) w))) as Hlt
        by (intros; solve_obs; lia).
      assert (length (propsigs (set_sigs st (Some (<[prop:=length (propsigs w)]>
                 (default ∅ (sigs_of st w))))
                 (set_propsigs (λ l : list (list subscriber), l ++ [[]]) w)))
              = S (length (propsigs w))) as -> by (solve_obs; lia).
      case_decide; subst.
      * destruct (states _ !! st'); [|done]. intros [= <-].
        destruct (decide (prop = prop')) as [->|Hne].
        -- rewrite lookup_insert_eq. intros [= <-]. split; [lia|done].
        -- rewrite lookup_insert_ne by done. intros Hl.
           assert (sigs_of st' (set_propsigs (λ l, l ++ [[]]) w) = sigs_of st' w) as Hs
             by solve_obs.
           destruct (sigs_of st' w) as [map|] eqn:Em; simpl in Hl; [|done].
           destruct (C5 _ _ _ _ Em Hl). split; [lia|done].
      * assert (sigs_of st' (set_propsigs (λ l, l ++ [[]]) w) = sigs_of st' w) as ->
          by solve_obs.
        intros Hm Hl. destruct (C5 _ _ _ _ Hm Hl). split; [lia|done].
    + solve_obs. lia.
Qed.

Lemma consistent_track_prop r st prop w :
  active w = Some r → reserved prop = false → consistent w →
  consistent (track_prop r st prop w).
Proof.
  intros Ha Hres C. unfold track_prop.
  pose proof (consistent_ensure st prop w Hres C) as H1.
  pose proof (ensure_frame st prop w) as H2.
  destruct (_ensurePropSignalFor st prop w) as [sig w1].
  destruct H1 as [C1 Hsig]. destruct H2 as (_ & _ & X & _).
  apply consistent_track; [|done|done].
  rewrite X. apply (wf_stack _ C). unfold active in Ha.
  destruct (EFFECT_STACK w); simpl in Ha; simplify_eq. by left.
Qed.

Lemma consistent_discard st prop w :
  consistent w → consistent (discard_prop_signal st prop w).
Proof.
  intros C. unfold discard_prop_signal. destruct (sigs_of st w) as [map|] eqn:Em; [|done].
  destruct C as [C1 C2 C3 C4 C5]. split; try done.
  intros st' map' prop' sig'. rewrite sigs_of_set_sigs.
  assert (length (propsigs (set_sigs st (Some (delete prop map)) w)) = length (propsigs w))
    as -> by solve_obs.
  case_decide; subst; [|apply C5].
  destruct (states w !! st'); [|done]. intros [= <-] Hl.
  apply lookup_delete_Some in Hl as [_ Hl]. by eapply C5.
Qed.

Lemma consistent_empty : consistent empty_world.
Proof.
  split; try done.
  - intros r k. destruct k; unfold subs_of; simpl; by rewrite elem_of_nil.
  - intros r k. destruct r; unfold deps_of; simpl; by rewrite elem_of_nil.
  - intros r. by destruct r.
  - intros r. simpl. by rewrite elem_of_nil.
Qed.

Lemma preserved_consistent : Preserved consistent extends (λ _, True).
Proof.
  pose proof preserved_extends as PE.
  assert (∀ w w', same_graph w w' → consistent w → extends w w' →
            consistent w' ∧ extends w w') as Hsame
    by (intros w w' ? ? ?; split; [by eapply consistent_same_graph|done]).
  split; try done; try apply PE.
  - intros ev w Hp C. apply Hsame; [|done|by apply PE].
    apply same_graph_emit; intros; destruct ev; done.
  - intros v w C. apply Hsame; [apply same_graph_log|done|by apply PE].
  - intros r w _ C. apply Hsame; [by apply same_graph_emit|done|by apply (pr_run _ _ _ PE)].
  - intros r w C. split; [by apply consistent_unsub|by apply PE].
  - intros r v w C. apply Hsame; [apply same_graph_cleanup|done|by apply PE].
  - intros r w _ Hr C. by apply consistent_push.
  - intros r w w' E C. split; [by apply consistent_pop|by eapply (pr_pop _ _ _ PE)].
  - intros r s w Ha [x Hs] C. split; [|by apply PE].
    apply consistent_track; [| |done].
    + apply (wf_stack _ C). unfold active in Ha.
      destruct (EFFECT_STACK w); simpl in Ha; simplify_eq. by left.
    + simpl. by eapply lookup_lt_Some.
  - intros r st prop w Ha Hs Hres C. split; [by apply consistent_track_prop|by apply PE].
  - intros s v w C. apply Hsame; [apply same_graph_value|done|by apply PE].
  - intros s f w C. apply Hsame; [apply same_graph_subs_add|done|by apply PE].
  - intros s f w C. apply Hsame; [apply same_graph_subs_delete|done|by apply PE].
  - intros c w C. apply Hsame; [apply same_graph_alloc_closure|done|by apply PE].
  - intros o w C. apply Hsame; [apply same_graph_alloc_object|done|by apply PE].
  - intros v w C. apply Hsame; [apply same_graph_alloc_signal|done|by apply PE].
  - intros i w C. apply Hsame; [apply same_graph_alloc_state|done|by apply PE].
  - intros fn w C. apply Hsame; [apply same_graph_alloc_effect|done|by apply PE].
  - intros fn w C. apply Hsame; [apply same_graph_alloc_computed|done|by apply PE].
  - intros c w C. apply Hsame; [apply same_graph_dirty|done|by apply PE].
  - intros c v w C. apply Hsame; [apply same_graph_cached|done|by apply PE].
  - intros st f w C. apply Hsame; [apply same_graph_target|done|by apply PE].
  - intros st prop w C. split; [by apply consistent_discard|by apply PE].
  - intros st f w C. apply Hsame; [apply same_graph_globalSubs|done|by apply PE].
  - intros st f w C. apply Hsame; [apply same_graph_globalSubs|done|by apply PE].
Qed.

(** Every store reached by running a script from the empty store is
    consistent. *)
Lemma exec_consistent code fuel p w o w' :
  consistent w → exec code fuel p w = Done o w' → consistent w'.
Proof. intros C H. by eapply (exec_ok preserved_consistent code fuel p w o w' C). Qed.

Lemma call_consistent code fuel f args w o w' :
  consistent w → call code fuel f args w = Done o w' → consistent w'.
Proof. intros C H. by eapply (call_ok preserved_consistent code fuel f args w o w' C). Qed.

Lemma run_runner_consistent code fuel r w o w' :
  consistent w → run_runner (call code fuel) r w = Done o w' → consistent w'.
Proof.
  intros C H.
  eapply (run_runner_ok preserved_consistent (call code fuel)); [|done|done|exact H].
  intros f a. apply (call_ok preserved_consistent).
Qed.

(** ** Third instance: a runner nobody can reach stays idle *)

(** Runner [r] exists, is not executing, and no source lists it. *)
Record detached (r : runner) (w : World) : Prop := {
  dt_exists : runner_exists r w = true;
  dt_stack : r ∉ EFFECT_STACK w;
  dt_subs : ∀ k, SRunner r ∉ subs_of k w
}.

(** From [w] to [w'] runner [r] has not been entered. *)
Definition idle (r : runner) (w w' : World) : Prop :=
  extends w w' ∧ runs r (trace w') = runs r (trace w).

Lemma runs_snoc r t ev :
  runs r (t ++ [ev]) = runs r t + (if decide (ev = EvRun r) then 1 else 0).
Proof.
  unfold runs. rewrite filter_app, length_app. f_equal.
  rewrite filter_cons, filter_nil. by case_decide.
Qed.

Lemma detached_same_graph r w w' : same_graph w w' → detached r w → detached r w'.
Proof.
  intros [S1 _ _ S4 S5 _ _] [D1 D2 D3]. split; [by apply S5|by rewrite S4|].
  intros k. rewrite S1. apply D3.
Qed.

Lemma detached_unsub r r' w : detached r w → detached r (unsubscribe_deps r' w).
Proof.
  intros [D1 D2 D3]. destruct (unsub_frame r' w) as (_ & Sk & X & _). split.
  - by rewrite X.
  - by rewrite Sk.
  - intros k. rewrite unsub_subs. intros [? _]. by eapply D3.
Qed.

Lemma detached_track r r' k w :
  active w = Some r' → source_exists k w → detached r w → detached r (_trackDependency r' k w).
Proof.
  intros Ha Hk [D1 D2 D3]. destruct (track_frame r' k w) as (_ & Sk & X & _). split.
  - by rewrite X.
  - by rewrite Sk.
  - intros k'. rewrite track_subs by done. intros [[-> _]|?]; [|by eapply D3].
    apply D2. unfold active in Ha. destruct (EFFECT_STACK w); simpl in Ha; simplify_eq. by left.
Qed.

Lemma detached_track_prop r r' st prop w :
  active w = Some r' → reserved prop = false → consistent w →
  detached r w → detached r (track_prop r' st prop w).
Proof.
  intros Ha Hres C [D1 D2 D3]. unfold track_prop.
  pose proof (consistent_ensure st prop w Hres C) as H1.
  pose proof (ensure_frame st prop w) as H2.
  destruct (_ensurePropSignalFor st prop w) as [sig w1].
  destruct H1 as [C1 Hsig]. destruct H2 as (_ & Sk & X & _ & U & _).
  apply detached_track; [by unfold active in *; rewrite Sk|done|].
  split; [by rewrite X|by rewrite Sk|]. intros k. rewrite U. apply D3.
Qed.

Lemma detached_set_sigs r st m w : detached r w → detached r (set_sigs st m w).
Proof.
  intros [D1 D2 D3]. split; [by destruct r|done|].
  intros k. assert (subs_of k (set_sigs st m w) = subs_of k w) as -> by (destruct k; solve_obs).
  apply D3.
Qed.

Lemma runs_emit r ev w : ev ≠ EvRun r → runs r (trace (emit ev w)) = runs r (trace w).
Proof.
  intros Hne. unfold emit, set_trace; simpl. rewrite runs_snoc. case_decide; [done|lia].
Qed.

Lemma preserved_detached e0 :
  let r0 := REffect e0 in
  Preserved (λ w, consistent w ∧ detached r0 w) (idle r0) (λ r, r ≠ r0).
Proof.
  intros r0. pose proof preserved_consistent as PC.
  assert (∀ w w', same_graph w w' → trace w' = trace w →
            consistent w ∧ detached r0 w → extends w w' →
            (consistent w' ∧ detached r0 w') ∧ idle r0 w w') as Hsame.
  { intros w w' Hs Ht [C D] E. split; [split|split]; try done.
    - by eapply consistent_same_graph.
    - by eapply detached_same_graph.
    - by rewrite Ht. }
  split.
  - intros w. split; [apply extends_refl|done].
  - intros w1 w2 w3 [E1 R1] [E2 R2]. split; [by eapply extends_trans|congruence].
  - intros r w w' [E _]. by apply (pr_exists _ _ _ PC).
  - intros ev w Hp [C D].
    destruct (pr_emit _ _ _ PC ev w Hp C) as [C' E'].
    split; [split; [done|]|split; [done|]].
    + eapply detached_same_graph; [|done]. apply same_graph_emit; intros; destruct ev; done.
    + apply runs_emit. intros ->. done.
  - intros v w [C D]. apply Hsame; [apply same_graph_log|done|done|by apply PC].
  - intros r w Hne [C D].
    destruct (pr_run _ _ _ PC r w I C) as [C' E'].
    split; [split; [done|]|split; [done|]].
    + eapply detached_same_graph; [|done]. by apply same_graph_emit.
    + apply runs_emit. congruence.
  - intros r w [C D]. destruct (pr_unsub _ _ _ PC r w C) as [C' E'].
    split; [split; [done|by apply detached_unsub]|split; [done|]].
    destruct (unsub_frame r w) as (-> & _). rewrite runs_snoc. case_decide; [done|lia].
  - intros r v w [C D]. apply Hsame; [apply same_graph_cleanup|by destruct r|done|by apply PC].
  - intros r w Hne Hr [C D]. split; [by apply consistent_push|].
    destruct D as [D1 D2 D3]. split; [by destruct r0|..].
    + unfold push, set_stack; simpl. rewrite elem_of_cons. intros [?|?]; [congruence|done].
    + intros k. assert (subs_of k (push r w) = subs_of k w) as -> by (destruct k; solve_obs).
      apply D3.
  - intros r w w' [E R] [C D]. destruct (pr_pop _ _ _ PC r w w' E C) as [C' E'].
    split; [split; [done|]|split; [done|done]].
    destruct D as [D1 D2 D3]. split; [by destruct r0|..].
    + unfold pop, set_stack; simpl. intros Hin. apply D2.
      destruct (EFFECT_STACK w'); [done|]. simpl in Hin. rewrite drop_0 in Hin. by right.
    + intros k. assert (subs_of k (pop w') = subs_of k w') as -> by (destruct k; solve_obs).
      apply D3.
  - intros r s w Ha Hs [C D]. destruct (pr_track_sig _ _ _ PC r s w Ha Hs C) as [C' E'].
    split; [split; [done|]|split; [done|]].
    + apply detached_track; [done| |done]. destruct Hs as [x Hs]. simpl. by eapply lookup_lt_Some.
    + destruct (track_frame r (SrcSig s) w) as (-> & _). rewrite runs_snoc.
      case_decide; [done|lia].
  - intros r st prop w Ha Hs Hres [C D].
    destruct (pr_track_prop _ _ _ PC r st prop w Ha Hs Hres C) as [C' E'].
    split; [split; [done|by apply detached_track_prop]|split; [done|]].
    unfold track_prop. pose proof (ensure_frame st prop w) as H2.
    destruct (_ensurePropSignalFor st prop w) as [sig w1]. destruct H2 as (T & _).
    destruct (track_frame r (SrcProp sig) w1) as (-> & _). rewrite runs_snoc, T.
    case_decide; [done|lia].
  - intros s v w [C D]. apply Hsame; [apply same_graph_value|done|done|by apply PC].
  - intros s f w [C D]. apply Hsame; [apply same_graph_subs_add|done|done|by apply PC].
  - intros s f w [C D]. apply Hsame; [apply same_graph_subs_delete|done|done|by apply PC].
  - intros c w [C D]. apply Hsame; [apply same_graph_alloc_closure|done|done|by apply PC].
  - intros o w [C D]. apply Hsame; [apply same_graph_alloc_object|done|done|by apply PC].
  - intros v w [C D]. apply Hsame; [apply same_graph_alloc_signal|done|done|by apply PC].
  - intros i w [C D]. apply Hsame; [apply same_graph_alloc_state|done|done|by apply PC].
  - intros fn w [C D]. apply Hsame; [apply same_graph_alloc_effect|done|done|by apply PC].
  - intros fn w [C D]. apply Hsame; [apply same_graph_alloc_computed|done|done|by apply PC].
  - intros c w [C D]. apply Hsame; [apply same_graph_dirty|done|done|by apply PC].
  - intros c v w [C D]. apply Hsame; [apply same_graph_cached|done|done|by apply PC].
  - intros st f w [C D]. apply Hsame; [apply same_graph_target|done|done|by apply PC].
  - intros st prop w [C D]. destruct (pr_discard _ _ _ PC st prop w C) as [C' E'].
    split; [split; [done|]|split; [done|]]; unfold discard_prop_signal;
      destruct (sigs_of st w); try done. by apply detached_set_sigs.
  - intros st f w [C D]. apply Hsame; [apply same_graph_globalSubs|done|done|by apply PC].
  - intros st f w [C D]. apply Hsame; [apply same_graph_globalSubs|done|done|by apply PC].
  - intros k r w [C D] Hr ->. by apply (dt_subs _ _ D k).
  - intros w [C D] Heq. destruct D as [D1 _ _]. unfold r0 in D1.
    inversion Heq as [Heq']. rewrite <- Heq' in D1. unfold runner_exists in D1.
    apply bool_decide_eq_true in D1. lia.
  - intros c w [C D]. done.
Qed.

(** ** Fourth instance: a clean computed value stays clean

    No update of the library sets [dirty] back to [true]. *)
Definition stays_clean (w w' : World) : Prop :=
  extends w w'
  ∧ ∀ c, c < length (computeds w) → dirty_of c w = false → dirty_of c w' = false.

Lemma dirty_of_alter c c' f w :
  (∀ x, cp_dirty (f x) = cp_dirty x ∨ cp_dirty (f x) = false) →
  dirty_of c w = false → dirty_of c (set_computeds (alter f c') w) = false.
Proof.
  intros Hf. unfold dirty_of, set_computeds; simpl. rewrite from_option_alter.
  case_decide; [subst|done]. destruct (computeds w !! c) as [x|]; simpl; [|done].
  intros Hd. destruct (Hf x) as [-> | ->]; done.
Qed.

Lemma dirty_of_same c w w' : computeds w' = computeds w → dirty_of c w' = dirty_of c w.
Proof. unfold dirty_of. by intros ->. Qed.

Lemma stays_clean_put r d w c :
  dirty_of c w = false → dirty_of c (EFFECT_DEPS_put r d w) = false.
Proof.
  destruct r; [intros <-; by apply dirty_of_same|]. apply dirty_of_alter. by left.
Qed.

Lemma stays_clean_subs k f w c : dirty_of c (subs_update k f w) = dirty_of c w.
Proof. by destruct k. Qed.

Lemma stays_clean_unsub r w c :
  dirty_of c w = false → dirty_of c (unsubscribe_deps r w) = false.
Proof.
  intros Hd. unfold unsubscribe_deps.
  assert (∀ ev w0, dirty_of c (emit ev w0) = dirty_of c w0) as -> by done.
  destruct (EFFECT_DEPS_get r w) as [deps|]; [|done].
  apply stays_clean_put. destruct (unsub_loop_frame r deps w) as (_ & _ & _ & E & _).
  rewrite <- Hd. by apply dirty_of_same.
Qed.

Lemma stays_clean_track r k w c :
  dirty_of c w = false → dirty_of c (_trackDependency r k w) = false.
Proof.
  intros Hd. unfold _trackDependency.
  assert (∀ ev w0, dirty_of c (emit ev w0) = dirty_of c w0) as -> by done.
  apply stays_clean_put. by rewrite stays_clean_subs.
Qed.

Lemma preserved_clean : Preserved (λ _, True) stays_clean (λ _, True).
Proof.
  pose proof preserved_extends as PE.
  assert (∀ w w', extends w w' → computeds w' = computeds w → True ∧ stays_clean w w')
    as Hsame.
  { intros w w' E Hc. split; [done|]. split; [done|]. intros c _ <-. by apply dirty_of_same. }
  split; try done.
  - intros w. split; [apply extends_refl|done].
  - intros w1 w2 w3 [E1 D1] [E2 D2]. split; [by eapply extends_trans|].
    intros c Hc Hd. apply D2; [|by apply D1]. destruct E1 as (_ & _ & _ & ? & _). lia.
  - intros r w w' [E _]. by apply (pr_exists _ _ _ PE).
  - intros ev w Hp _. apply Hsame; [by apply PE|done].
  - intros v w _. apply Hsame; [by apply PE|done].
  - intros r w _ _. apply Hsame; [by apply (pr_run _ _ _ PE)|done].
  - intros r w _. split; [done|]. split; [apply extends_unsub|].
    intros c _. apply stays_clean_unsub.
  - intros r v w _. split; [done|]. split; [by apply PE|]. intros c _.
    destruct r; [intros <-; by apply dirty_of_same|]. apply dirty_of_alter. by left.
  - intros r w w' [E D] _. split; [done|]. split; [by eapply extends_pop|].
    intros c Hc Hd. by apply D.
  - intros r s w _ _ _. split; [done|]. split; [apply extends_track|].
    intros c _. apply stays_clean_track.
  - intros r st prop w _ _ _ _. split; [done|]. split; [apply extends_track_prop|].
    intros c _. unfold track_prop. pose proof (ensure_frame st prop w) as Hf.
    assert (computeds (snd (_ensurePropSignalFor st prop w)) = computeds w) as Hc.
    { unfold _ensurePropSignalFor. by destruct (default ∅ (sigs_of st w) !! prop). }
    destruct (_ensurePropSignalFor st prop w) as [sig w1]. simpl in Hc.
    intros Hd. apply stays_clean_track. rewrite <- Hd. by apply dirty_of_same.
  - intros s v w _. apply Hsame; [by apply PE|done].
  - intros s f w _. apply Hsame; [by apply PE|done].
  - intros s f w _. apply Hsame; [by apply PE|done].
  - intros c w _. apply Hsame; [by apply PE|done].
  - intros o w _. apply Hsame; [by apply PE|done].
  - intros v w _. apply Hsame; [by apply PE|done].
  - intros i w _. apply Hsame; [by apply PE|done].
  - intros fn w _. apply Hsame; [by apply PE|done].
  - intros fn w _. split; [done|]. split; [by apply PE|]. intros c Hc.
    unfold dirty_of, alloc_computed, set_computeds; simpl. by rewrite lookup_app_l.
  - intros c w _. split; [done|]. split; [by apply PE|]. intros c' _.
    apply dirty_of_alter. by right.
  - intros c v w _. split; [done|]. split; [by apply PE|]. intros c' _.
    apply dirty_of_alter. by left.
  - intros st f w _. apply Hsame; [by apply PE|done].
  - intros st prop w _. apply Hsame; [by apply PE|].
    unfold discard_prop_signal. by destruct (sigs_of st w).
  - intros st f w _. apply Hsame; [by apply PE|done].
  - intros st f w _. apply Hsame; [by apply PE|done].
Qed.

(** ** Fifth instance: what happens to the entries of [globalSubs] *)

(** [add] appends an entry and [delete] empties one: an entry list only
    grows, and a slot that holds a member held it all along. *)
Definition slots_evolve (l l' : list (option val)) : Prop :=
  length l ≤ length l'
  ∧ ∀ i x, i < length l → l' !! i = Some (Some x) → l !! i = Some (Some x).

(** Between a store and a later one, for the global subscribers of
    every state. *)
Definition slots_grow (w w' : World) : Prop :=
  extends w w' ∧ ∀ st, slots_evolve (globalSubs_of st w) (globalSubs_of st w').

Lemma slots_evolve_refl l : slots_evolve l l.
Proof. by split. Qed.

Lemma slots_evolve_trans l1 l2 l3 :
  slots_evolve l1 l2 → slots_evolve l2 l3 → slots_evolve l1 l3.
Proof.
  intros [L1 H1] [L2 H2]. split; [lia|]. intros i x Hi H3.
  apply H1; [done|]. apply H2; [lia|done].
Qed.

Lemma slots_evolve_add x l : slots_evolve l (slots_add x l).
Proof.
  unfold slots_add. case_bool_decide; [apply slots_evolve_refl|].
  split; [rewrite length_app; lia|]. intros i y Hi Hy. by rewrite lookup_app_l in Hy.
Qed.

Lemma slots_evolve_delete x l : slots_evolve l (slots_delete x l).
Proof.
  unfold slots_delete. split; [by rewrite length_fmap|]. intros i y Hi Hy.
  rewrite list_lookup_fmap in Hy. destruct (l !! i) as [o|]; [|done]. simpl in Hy.
  case_bool_decide; by simplify_eq.
Qed.


Lemma globalSubs_of_set_at st st' f w :
  globalSubs_of st' (set_globalSubs st f w)
  = if decide (st = st') then from_option (f ∘ st_globalSubs) [] (states w !! st')
    else globalSubs_of st' w.
Proof.
  unfold globalSubs_of, set_globalSubs, set_states; simpl. rewrite from_option_alter.
  case_decide; [|done]. by destruct (states w !! st').
Qed.

Lemma preserved_slots : Preserved (λ _, True) slots_grow (λ _, True).
Proof.
  pose proof preserved_extends as PE.
  assert (∀ w w', extends w w' → (∀ st, globalSubs_of st w' = globalSubs_of st w) →
            True ∧ slots_grow w w') as Hsame.
  { intros w w' E Hg. split; [done|]. split; [done|]. intros st. rewrite Hg.
    apply slots_evolve_refl. }
  split; try done.
  - intros w. split; [apply extends_refl|]. intros st. apply slots_evolve_refl.
  - intros w1 w2 w3 [E1 D1] [E2 D2]. split; [by eapply extends_trans|].
    intros st. by eapply slots_evolve_trans.
  - intros r w w' [E _]. by apply (pr_exists _ _ _ PE).
  - intros ev w Hp _. apply Hsame; [by apply PE|done].
  - intros v w _. apply Hsame; [by apply PE|done].
  - intros r w _ _. apply Hsame; [by apply (pr_run _ _ _ PE)|done].
  - intros r w _. apply Hsame; [apply extends_unsub|]. intros st.
    unfold unsubscribe_deps. destruct (EFFECT_DEPS_get r w) as [d|]; [|done].
    destruct (unsub_loop_frame r d w) as (_ & _ & _ & _ & E5 & _).
    remember (foldl _ w d) as w1 eqn:Hw1. clear Hw1.
    unfold globalSubs_of. rewrite <- E5. destruct r; solve_obs.
  - intros r v w _. apply Hsame; [by apply PE|]. intros st. destruct r; solve_obs.
  - intros r w w' [E D] _. split; [done|]. split; [by eapply extends_pop|].
    intros st. apply (D st).
  - intros r s w _ _ _. apply Hsame; [apply extends_track|]. intros st.
    destruct r; solve_obs.
  - intros r st prop w _ _ _ _. apply Hsame; [apply extends_track_prop|]. intros st'.
    unfold track_prop.
    assert (globalSubs_of st' (snd (_ensurePropSignalFor st prop w)) = globalSubs_of st' w) as Hg.
    { unfold _ensurePropSignalFor. destruct (default ∅ (sigs_of st w) !! prop); [done|].
      solve_obs. all: try by destruct (states w !! st'). }
    destruct (_ensurePropSignalFor st prop w) as [sig w1]. simpl in Hg. rewrite <- Hg.
    destruct r; solve_obs.
  - intros s v w _. apply Hsame; [by apply PE|]. intros st. solve_obs.
  - intros s f w _. apply Hsame; [by apply PE|]. intros st. solve_obs.
  - intros s f w _. apply Hsame; [by apply PE|]. intros st. solve_obs.
  - intros c w _. apply Hsame; [by apply PE|]. intros st. solve_obs.
  - intros o w _. apply Hsame; [by apply PE|]. intros st. solve_obs.
  - intros v w _. apply Hsame; [by apply PE|]. intros st. solve_obs.
  - intros i w _. apply Hsame; [by apply PE|]. intros st. solve_obs.
  - intros fn w _. apply Hsame; [by apply PE|]. intros st. solve_obs.
  - intros fn w _. apply Hsame; [by apply PE|]. intros st. solve_obs.
  - intros c w _. apply Hsame; [by apply PE|]. intros st. solve_obs.
  - intros c v w _. apply Hsame; [by apply PE|]. intros st. solve_obs.
  - intros st f w _. apply Hsame; [by apply PE|]. intros st'. solve_obs; by destruct (states w !! st').
  - intros st prop w _. apply Hsame; [by apply PE|]. intros st'.
    unfold discard_prop_signal. destruct (sigs_of st w); [|done].
    solve_obs; by destruct (states w !! st').
  - intros st x w _. split; [done|]. split; [by apply PE|]. intros st'.
    rewrite globalSubs_of_set_at. case_decide; [subst|apply slots_evolve_refl].
    unfold globalSubs_of. destruct (states w !! st'); simpl;
      [apply slots_evolve_add|apply slots_evolve_refl].
  - intros st x w _. split; [done|]. split; [by apply PE|]. intros st'.
    rewrite globalSubs_of_set_at. case_decide; [subst|apply slots_evolve_refl].
    unfold globalSubs_of. destruct (states w !! st'); simpl;
      [apply slots_evolve_delete|apply slots_evolve_refl].
Qed.

Lemma call_slots code fuel f args w o w' :
  call code fuel f args w = Done o w' → slots_grow w w'.
Proof. intros H. by apply (call_ok preserved_slots code fuel f args w o w' I H). Qed.



(** * The specification, claim by claim *)

(** ** Shapes of traces *)

Lemma extends_trace w w' : extends w w' → ∃ t, trace w' = trace w ++ t.
Proof. by intros (_ & Ht & _). Qed.

Lemma extends_stack w w' : extends w w' → EFFECT_STACK w' = EFFECT_STACK w.
Proof. by intros (Hs & _). Qed.

(** A call of a function object first records the call. *)
Lemma call_trace_head code fuel f args w o w' :
  call code fuel (VFun f) args w = Done o w' →
  ∃ t, trace w' = trace w ++ EvCall f args :: t.
Proof.
  intros H. destruct fuel as [|n]; simpl in H; [done|].
  assert (extends (emit (EvCall f args) w) w') as Hext.
  { pose proof (call_ok preserved_extends code n) as IH.
    destruct f as [u|s|s|s|u|e|c].
    - by eapply (exec_with_ok preserved_extends (call code n) n IH _ _ _ _ I).
    - by eapply (sig_get_ok preserved_extends _ _ _ _ I).
    - by eapply (sig_set_ok preserved_extends (call code n) IH _ _ _ _ _ I).
    - by eapply (sig_subscribe_ok preserved_extends _ _ _ _ _ I).
    - by eapply (call_closure_ok preserved_extends _ _ _ _ _ I).
    - by eapply (dispose_ok preserved_extends (call code n) IH _ _ _ _ I).
    - by eapply (computed_get_ok preserved_extends (call code n) IH _ _ _ _ I). }
  destruct (extends_trace _ _ Hext) as [t Ht]. exists t.
  rewrite Ht. unfold emit, set_trace; simpl. by rewrite <- app_assoc.
Qed.

Lemma run_cleanup_extends code fuel r w o w' :
  run_cleanup (call code fuel) r w = Done o w' → extends w w'.
Proof.
  intros H.
  by eapply (run_cleanup_ok preserved_extends (call code fuel) (call_ok preserved_extends code fuel)
               r w o w' I).
Qed.

(** ** C3: the run of an Effect's runner *)






(** The store a script leaves behind. *)
Definition world_of (r : result) : World :=
  match r with Done _ w => w | OutOfFuel => empty_world end.


(** An effect that reads signal 0 and returns a cleanup. *)
Definition client_cleanup (n : nat) (args : list val) : prog :=
  match n with
  | 0 => PCall (VFun (FGet 0)) [] (λ v, PLog v (PRet (VFun (FUser 1))))
  | _ => PLog (VStr "cleanup") (PRet VUndef)
  end.

(** [const [get] = createSignal(0); const dispose = createEffect(fn);] *)
Definition script_cleanup : prog :=
  PNewSignal (VNum 0) (λ _, PNewEffect (VFun (FUser 0)) (λ d, PRet d)).

Definition world_cleanup : World :=
  world_of (exec client_cleanup 4 script_cleanup empty_world).



(** ** C1, C2, C10: computed values *)

Lemma calls_app f t1 t2 : calls f (t1 ++ t2) = calls f t1 + calls f t2.
Proof. unfold calls. by rewrite filter_app, length_app. Qed.

Definition dbl (v : val) : val :=
  match v with VNum n => VNum (n * 2) | _ => VNaN end.

(** [fn = () => n() * 2], with [n] the getter of signal 0. *)
Definition client_double (n : nat) (args : list val) : prog :=
  PCall (VFun (FGet 0)) [] (λ v, PRet (dbl v)).

(** [const [n, setN] = createSignal(2); const c = createComputed(fn);] *)
Definition world_double : World :=
  world_of (exec client_double 4
              (PNewSignal (VNum 2) (λ _, PNewComputed (VFun (FUser 0)) PRet)) empty_world).

(** [setN(5)] afterwards. *)
Definition world_double_set : World :=
  world_of (call client_double 4 (VFun (FSet 0)) [VNum 5] world_double).

(** C1 does not hold of the code.  A notification never marks a
    Computed dirty: whatever a script does, a Computed that is clean stays
    clean, and what a source calls when it notifies a Computed is
    [recompute] itself.  In the scenario of the specification [setN(5)]
    therefore runs [fn] a second time before it returns, the cached value
    is already 10 and clean, and the next call of the getter does not run
    [fn]. *)
Theorem C1_notification_recomputes_eagerly :
  (∀ code fuel p w o w' c,
     exec code fuel p w = Done o w' →
     c < length (computeds w) → dirty_of c w = false → dirty_of c w' = false)
  ∧ (∀ call c w, invoke call (SRunner (RComputed c)) w = recompute call c w)
  ∧ calls (FUser 0) (trace world_double) = 1
  ∧ subs_of (SrcSig 0) world_double = [SRunner (RComputed 0)]
  ∧ call client_double 4 (VFun (FSet 0)) [VNum 5] world_double
    = Done (Normal (VNum 5)) world_double_set
  ∧ calls (FUser 0) (trace world_double_set) = 2
  ∧ dirty_of 0 world_double_set = false
  ∧ cached_of 0 world_double_set = VNum 10
  ∧ computed_get (call client_double 4) 0 world_double_set
    = Done (Normal (VNum 10)) world_double_set.
Proof.
  split.
  { intros code fuel p w o w' c H Hc Hd.
    destruct (exec_ok preserved_clean code fuel p w o w' I H) as [_ [_ D]]. by apply D. }
  split; [done|]. split_and!; by vm_compute.
Qed.

Lemma C1_notification_recomputes_eagerly_witness :
  exec client_double 4 (PCall (VFun (FSet 0)) [VNum 5] PRet) world_double
  = Done (Normal (VNum 5)) world_double_set
  ∧ 0 < length (computeds world_double)
  ∧ dirty_of 0 world_double = false
  ∧ dirty_of 0 world_double_set = false.
Proof.
  split; [by vm_compute|]. split; [vm_compute; lia|]. split; [by vm_compute|].
  apply (proj1 C1_notification_recomputes_eagerly client_double 4
           (PCall (VFun (FSet 0)) [VNum 5] PRet) world_double (Normal (VNum 5))
           world_double_set 0); [by vm_compute|vm_compute; lia|by vm_compute].
Defined.

(** [N] successive calls of the getter of computed [c]. *)
Fixpoint getter_calls (call : val → list val → World → result) (c N : nat) (w : World)
    : option (list val * World) :=
  match N with
  | 0 => Some ([], w)
  | S N' =>
      match computed_get call c w with
      | Done (Normal v) w' =>
          match getter_calls call c N' w' with
          | Some (vs, w'') => Some (v :: vs, w'')
          | None => None
          end
      | _ => None
      end
  end.

(** The store in which [createComputed(fn)] invokes [fn] for the first
    time. *)
Definition creation_store (fn : val) (w : World) : World :=
  let r := RComputed (length (computeds w)) in
  push r (set_cleanup r VNull (unsubscribe_deps r (emit (EvRun r) (alloc_computed fn w)))).

Lemma getter_calls_clean call c N w :
  c < length (computeds w) → dirty_of c w = false →
  getter_calls call c N w = Some (replicate N (cached_of c w), w).
Proof.
  intros Hc Hd. induction N as [|N IH]; simpl; [done|].
  unfold computed_get, dirty_of, cached_of in *.
  destruct (computeds w !! c) as [cp|] eqn:E; simpl in *.
  - rewrite Hd. by rewrite IH.
  - apply lookup_ge_None_1 in E. lia.
Qed.

(** What [createComputed] does when the first run of [fn] returns. *)
Lemma createComputed_returns call fn w v wb :
  is_function fn = true →
  call fn [] (creation_store fn w) = Done (Normal v) wb →
  createComputed call fn w
  = Done (Normal (VFun (FComputed (length (computeds w)))))
      (pop (set_dirty (length (computeds w)) false
              (if is_function v then set_cleanup (RComputed (length (computeds w))) v wb
               else set_cached (length (computeds w)) v wb))).
Proof.
  intros Hfn H. unfold createComputed, recompute. rewrite Hfn.
  unfold creation_store in H.
  remember (length (computeds w)) as c eqn:Hc.
  remember (alloc_computed fn w) as wa eqn:Hwa.
  assert (computeds wa !! c
          = Some {| cp_fn := fn; cp_cached := VUndef; cp_dirty := true;
                    cp_cleanup := VNull; cp_deps := None |}) as Hl.
  { subst; unfold_prims; simpl. by rewrite list_lookup_middle. }
  assert (runner_exists (RComputed c) (emit (EvRun (RComputed c)) wa) = true) as ->.
  { apply bool_decide_eq_true. unfold emit, set_trace; simpl. by eapply lookup_lt_Some. }
  assert (unsubscribe_deps (RComputed c) (emit (EvRun (RComputed c)) wa)
          = emit (EvUnsub (RComputed c)) (emit (EvRun (RComputed c)) wa)) as Hu.
  { unfold unsubscribe_deps, EFFECT_DEPS_get, emit, set_trace; simpl. by rewrite Hl. }
  rewrite Hu in *.
  assert (cleanup_of (RComputed c)
            (emit (EvUnsub (RComputed c)) (emit (EvRun (RComputed c)) wa)) = VNull) as Hcl.
  { unfold cleanup_of, emit, set_trace; simpl. by rewrite Hl. }
  unfold run_cleanup. rewrite Hcl. simpl.
  assert (fn_of (RComputed c)
            (push (RComputed c) (set_cleanup (RComputed c) VNull
               (emit (EvUnsub (RComputed c)) (emit (EvRun (RComputed c)) wa)))) = fn) as ->.
  { unfold fn_of. unfold_prims; simpl. rewrite list_lookup_alter_eq. by rewrite Hl. }
  by rewrite H.
Qed.

Lemma creation_store_trace fn w :
  trace (creation_store fn w)
  = trace w ++ [EvRun (RComputed (length (computeds w)));
                EvUnsub (RComputed (length (computeds w)))].
Proof.
  unfold creation_store.
  destruct (unsub_frame (RComputed (length (computeds w)))
              (emit (EvRun (RComputed (length (computeds w)))) (alloc_computed fn w)))
    as (T & _).
  assert (∀ r v w0, trace (push r (set_cleanup r v w0)) = trace w0) as ->
    by (intros [?|?] ? ?; done).
  rewrite T. unfold emit, alloc_computed, set_trace, set_computeds; simpl.
  by rewrite <- app_assoc.
Qed.

Lemma creation_store_exists fn w :
  runner_exists (RComputed (length (computeds w))) (creation_store fn w) = true.
Proof.
  unfold creation_store.
  destruct (unsub_frame (RComputed (length (computeds w)))
              (emit (EvRun (RComputed (length (computeds w)))) (alloc_computed fn w)))
    as (_ & _ & X & _).
  assert (∀ r v w0, runner_exists r (push r (set_cleanup r v w0)) = runner_exists r w0) as ->
    by (intros [?|?] ? ?; unfold runner_exists; unfold_prims; simpl; by rewrite length_alter).
  rewrite X. unfold runner_exists; unfold_prims; simpl. rewrite length_app; simpl.
  apply bool_decide_eq_true. lia.
Qed.

(** C2. [fn] runs once per invalidation.  When the first run of [fn]
    returns and does not start another run of [fn] itself, any number [N]
    of getter calls after [createComputed(fn)] return the cached value and
    leave the store alone, so that [fn] has been invoked exactly once in
    total.  In the scenario of the specification ([n] starts at 2,
    [c = createComputed(() => n() * 2)], then [c(); c(); setN(5); c()]) the
    values are [4, 4, 10] and [fn] has run twice. *)
Theorem C2_computed_runs_once_per_invalidation :
  (∀ code fuel f w v wb N,
     call code fuel (VFun f) [] (creation_store (VFun f) w) = Done (Normal v) wb →
     calls f (trace wb) = S (calls f (trace (creation_store (VFun f) w))) →
     ∃ w1,
       createComputed (call code fuel) (VFun f) w
       = Done (Normal (VFun (FComputed (length (computeds w))))) w1
       ∧ (∀ fuel', getter_calls (call code fuel') (length (computeds w)) N w1
                   = Some (replicate N (cached_of (length (computeds w)) w1), w1))
       ∧ calls f (trace w1) = S (calls f (trace w))
       ∧ (is_function v = false → cached_of (length (computeds w)) w1 = v))
  ∧ (let script :=
       PNewSignal (VNum 2) (λ n, PNewComputed (VFun (FUser 0)) (λ c,
         PCall c [] (λ a, PLog a (PCall c [] (λ b, PLog b
           (PCall (VFun (FSet n)) [VNum 5] (λ _,
              PCall c [] (λ d, PLog d (PRet VUndef))))))))) in
     log (world_of (exec client_double 4 script empty_world)) = [VNum 4; VNum 4; VNum 10]
     ∧ calls (FUser 0) (trace (world_of (exec client_double 4 script empty_world))) = 2).
Proof.
  split; [|by vm_compute].
  intros code fuel f w v wb N Hrun Hcalls.
  pose proof (createComputed_returns (call code fuel) (VFun f) w v wb eq_refl Hrun) as Hc.
  eexists. split; [exact Hc|].
  pose proof (call_extends _ _ _ _ _ _ _ Hrun) as Hext.
  pose proof (creation_store_exists (VFun f) w) as Hex.
  assert (length (computeds w) < length (computeds wb)) as Hlt.
  { destruct Hext as (_ & _ & _ & Hl & _). unfold runner_exists in Hex.
    apply bool_decide_eq_true in Hex. lia. }
  destruct (lookup_lt_is_Some_2 _ _ Hlt) as [cp Hcp].
  split_and!.
  - intros fuel'. apply getter_calls_clean.
    + destruct (is_function v); unfold_prims; simpl; by rewrite !length_alter.
    + unfold dirty_of. destruct (is_function v); unfold_prims; simpl;
        rewrite !list_lookup_alter_eq, Hcp; done.
  - assert (∀ w0, trace (pop (set_dirty (length (computeds w)) false w0)) = trace w0) as ->
      by done.
    assert (trace (if is_function v
                   then set_cleanup (RComputed (length (computeds w))) v wb
                   else set_cached (length (computeds w)) v wb) = trace wb) as ->
      by (by destruct (is_function v)).
    rewrite Hcalls, creation_store_trace, calls_app. simpl. unfold calls at 2. simpl. lia.
  - intros ->. unfold cached_of. unfold_prims; simpl.
    by rewrite !list_lookup_alter_eq, Hcp.
Qed.

Definition world_signal2 : World := alloc_signal (VNum 2) empty_world.

Definition world_double_body : World :=
  world_of (call client_double 3 (VFun (FUser 0)) []
              (creation_store (VFun (FUser 0)) world_signal2)).

Lemma C2_computed_runs_once_per_invalidation_witness :
  call client_double 3 (VFun (FUser 0)) [] (creation_store (VFun (FUser 0)) world_signal2)
  = Done (Normal (VNum 4)) world_double_body
  ∧ calls (FUser 0) (trace world_double_body)
    = S (calls (FUser 0) (trace (creation_store (VFun (FUser 0)) world_signal2)))
  ∧ ∃ w1,
      createComputed (call client_double 3) (VFun (FUser 0)) world_signal2
      = Done (Normal (VFun (FComputed (length (computeds world_signal2))))) w1
      ∧ (∀ fuel', getter_calls (call client_double fuel') (length (computeds world_signal2)) 3 w1
                  = Some (replicate 3 (cached_of (length (computeds world_signal2)) w1), w1))
      ∧ calls (FUser 0) (trace w1) = S (calls (FUser 0) (trace world_signal2))
      ∧ (is_function (VNum 4) = false → cached_of (length (computeds world_signal2)) w1 = VNum 4).
Proof.
  split; [by vm_compute|]. split; [by vm_compute|].
  apply (proj1 C2_computed_runs_once_per_invalidation client_double 3 (FUser 0)
           world_signal2 (VNum 4) world_double_body 3); by vm_compute.
Defined.

Lemma cleanup_of_unsub r w :
  cleanup_of r (unsubscribe_deps r (emit (EvRun r) w)) = cleanup_of r w.
Proof.
  unfold unsubscribe_deps. destruct (EFFECT_DEPS_get r (emit (EvRun r) w)) as [d|]; [|done].
  destruct (unsub_loop_frame r d (emit (EvRun r) w)) as (_ & _ & E3 & E4 & _).
  remember (foldl _ _ d) as wl eqn:Hwl. clear Hwl.
  destruct r; unfold cleanup_of; unfold_prims; simpl; rewrite ?E3, ?E4, from_option_alter;
    by case_decide.
Qed.

(** A recompute first calls the cleanup left by the previous run. *)
Lemma recompute_cleanup_first code fuel c w o w' g :
  runner_exists (RComputed c) w = true →
  cleanup_of (RComputed c) w = VFun g →
  recompute (call code fuel) c w = Done o w' →
  ∃ t, trace w' = trace w ++ EvRun (RComputed c) :: EvUnsub (RComputed c) :: EvCall g [] :: t.
Proof.
  intros Hex Hg H. unfold recompute in H.
  set (r := RComputed c) in *. set (w0 := emit (EvRun r) w) in *.
  assert (runner_exists r w0 = true) as Hex0 by done. rewrite Hex0 in H.
  set (w1 := unsubscribe_deps r w0) in *.
  assert (trace w1 = trace w ++ [EvRun r; EvUnsub r]) as T1.
  { destruct (unsub_frame r w0) as (T & _). unfold w1. rewrite T.
    unfold w0, emit, set_trace; simpl. by rewrite <- app_assoc. }
  unfold run_cleanup in H. unfold w1, w0 in H. rewrite cleanup_of_unsub, Hg in H.
  fold w0 w1 in H. simpl in H.
  destruct (call code fuel (VFun g) [] w1) as [oc wc|] eqn:Ec; simpl in H; [|done].
  destruct (call_trace_head _ _ _ _ _ _ _ Ec) as [tc Htc].
  set (w3 := push r (set_cleanup r VNull wc)) in *.
  assert (trace w3 = trace wc) as T3 by done.
  destruct (call code fuel (fn_of r w3) [] w3) as [[v|err] w4|] eqn:E4; [| |done];
    destruct (extends_trace _ _ (call_extends _ _ _ _ _ _ _ E4)) as [tb Htb]; simplify_eq.
  - exists (tc ++ tb).
    assert (∀ w5, trace (pop (set_dirty c false w5)) = trace w5) as -> by done.
    assert (trace (if is_function v then set_cleanup r v w4 else set_cached c v w4) = trace w4)
      as -> by (by destruct (is_function v)).
    rewrite Htb, T3, Htc, T1. rewrite <- !app_assoc. done.
  - exists (tc ++ tb ++ [EvConsoleError [VStr "createComputed error"; err]]).
    unfold pop, emit, set_stack, set_trace; simpl.
    rewrite Htb, T3, Htc, T1. rewrite <- !app_assoc. done.
Qed.

(** C10. When [fn] of a computed returns a function, [recompute] keeps
    it as the cleanup of the run and does not touch the cached value: the
    getter keeps returning what was cached, [undefined] right after
    [createComputed] if nothing else was ever cached, and the next
    recompute starts by calling that function. *)
Theorem C10_function_result_is_cleanup code fuel c w o2 w2 g w4 :
  let r := RComputed c in
  let w3 := push r (set_cleanup r VNull w2) in
  let w' := pop (set_dirty c false (set_cleanup r (VFun g) w4)) in
  runner_exists r w = true →
  try_silent (run_cleanup (call code fuel) r (unsubscribe_deps r (emit (EvRun r) w)))
  = Done o2 w2 →
  call code fuel (fn_of r w3) [] w3 = Done (Normal (VFun g)) w4 →
  recompute (call code fuel) c w = Done (Normal VUndef) w'
  ∧ cached_of c w' = cached_of c w4
  ∧ cleanup_of r w' = VFun g
  ∧ dirty_of c w' = false
  ∧ (∀ fuel', computed_get (call code fuel') c w' = Done (Normal (cached_of c w4)) w')
  ∧ (∀ fuel' o'' w'', recompute (call code fuel') c w' = Done o'' w'' →
       ∃ t, trace w'' = trace w' ++ EvRun r :: EvUnsub r :: EvCall g [] :: t)
  ∧ (cached_of c w4 = VUndef →
       ∀ fuel', computed_get (call code fuel') c w' = Done (Normal VUndef) w').
Proof.
  intros r w3 w' Hex H2 H4.
  assert (runner_exists r w4 = true) as Hex4.
  { assert (runner_exists r w3 = true) as Hex3.
    { assert (runner_exists r w3 = runner_exists r w2) as ->
        by (unfold w3, runner_exists, r; unfold_prims; simpl; by rewrite length_alter).
      unfold try_silent in H2.
      destruct (run_cleanup _ _ _) as [oc wc|] eqn:Ec; simplify_eq.
      assert (extends (unsubscribe_deps r (emit (EvRun r) w)) w2) as E.
      { unfold run_cleanup in Ec. destruct (is_function _); simplify_eq;
          [by eapply call_extends|apply extends_refl]. }
      apply (pr_exists _ _ _ preserved_extends r _ _ E).
      destruct (unsub_frame r (emit (EvRun r) w)) as (_ & _ & X & _). by rewrite X. }
    by apply (pr_exists _ _ _ preserved_extends r _ _ (call_extends _ _ _ _ _ _ _ H4)). }
  apply bool_decide_eq_true in Hex4 as Hlt.
  destruct (lookup_lt_is_Some_2 _ _ Hlt) as [cp Hcp].
  assert (computeds w' !! c
          = Some {| cp_fn := cp_fn cp; cp_cached := cp_cached cp; cp_dirty := false;
                    cp_cleanup := VFun g; cp_deps := cp_deps cp |}) as Hc'.
  { unfold w', r. unfold_prims; simpl. by rewrite !list_lookup_alter_eq, Hcp. }
  assert (recompute (call code fuel) c w = Done (Normal VUndef) w') as Hrec.
  { unfold recompute. fold r.
    assert (runner_exists r (emit (EvRun r) w) = true) as -> by done.
    rewrite H2. fold w3. by rewrite H4. }
  assert (cached_of c w' = cached_of c w4) as Hcached
    by (unfold cached_of; by rewrite Hc', Hcp).
  assert (∀ fuel', computed_get (call code fuel') c w' = Done (Normal (cached_of c w4)) w')
    as Hget.
  { intros fuel'. unfold computed_get. rewrite Hc'. simpl. unfold cached_of. by rewrite Hcp. }
  split_and!; try done.
  - unfold cleanup_of, r. by rewrite Hc'.
  - unfold dirty_of. by rewrite Hc'.
  - intros fuel' o'' w'' Hn. eapply recompute_cleanup_first; [| |exact Hn].
    + unfold runner_exists. apply bool_decide_eq_true. by eapply lookup_lt_Some.
    + unfold cleanup_of. by rewrite Hc'.
  - intros Hu fuel'. rewrite <- Hu. apply Hget.
Qed.

(** [createComputed(fn)] with an [fn] that reads signal 0 and returns a
    function: the store when [recompute] starts, after the (absent)
    previous cleanup, and after the body. *)
Definition world_fresh_computed : World :=
  alloc_computed (VFun (FUser 0)) (alloc_signal (VNum 0) empty_world).

Definition world_fresh_computed_unsub : World :=
  unsubscribe_deps (RComputed 0) (emit (EvRun (RComputed 0)) world_fresh_computed).

Definition world_fresh_computed_body : World :=
  world_of (call client_cleanup 3 (VFun (FUser 0)) []
              (push (RComputed 0) (set_cleanup (RComputed 0) VNull world_fresh_computed_unsub))).

Lemma C10_function_result_is_cleanup_witness :
  let r := RComputed 0 in
  let w3 := push r (set_cleanup r VNull world_fresh_computed_unsub) in
  let w' := pop (set_dirty 0 false (set_cleanup r (VFun (FUser 1)) world_fresh_computed_body)) in
  runner_exists r world_fresh_computed = true
  ∧ try_silent (run_cleanup (call client_cleanup 3) r
                  (unsubscribe_deps r (emit (EvRun r) world_fresh_computed)))
    = Done (Normal VUndef) world_fresh_computed_unsub
  ∧ call client_cleanup 3 (fn_of r w3) [] w3
    = Done (Normal (VFun (FUser 1))) world_fresh_computed_body
  ∧ cached_of 0 world_fresh_computed_body = VUndef
  ∧ recompute (call client_cleanup 3) 0 world_fresh_computed = Done (Normal VUndef) w'
  ∧ cached_of 0 w' = cached_of 0 world_fresh_computed_body
  ∧ cleanup_of r w' = VFun (FUser 1)
  ∧ dirty_of 0 w' = false
  ∧ (∀ fuel', computed_get (call client_cleanup fuel') 0 w'
              = Done (Normal (cached_of 0 world_fresh_computed_body)) w')
  ∧ (∀ fuel' o'' w'', recompute (call client_cleanup fuel') 0 w' = Done o'' w'' →
       ∃ t, trace w'' = trace w' ++ EvRun r :: EvUnsub r :: EvCall (FUser 1) [] :: t)
  ∧ (cached_of 0 world_fresh_computed_body = VUndef →
       ∀ fuel', computed_get (call client_cleanup fuel') 0 w' = Done (Normal VUndef) w').
Proof.
  intros r w3 w'.
  split; [by vm_compute|]. split; [by vm_compute|]. split; [by vm_compute|].
  split; [by vm_compute|].
  apply (C10_function_result_is_cleanup client_cleanup 3 0 world_fresh_computed
           (Normal VUndef) world_fresh_computed_unsub (FUser 1) world_fresh_computed_body);
    by vm_compute.
Defined.

(** ** C5: [set] of a signal *)

Lemma extends_after_emit ev w w' :
  extends (emit ev w) w' → ∃ t, trace w' = trace w ++ ev :: t.
Proof.
  intros E. destruct (extends_trace _ _ E) as [t Ht]. exists t. rewrite Ht.
  unfold emit, set_trace; simpl. by rewrite <- app_assoc.
Qed.


(** A run either finds no runner, or goes on from the store in which the
    runner has dropped its dependencies. *)
Lemma run_runner_after_unsub code fuel r w o w' :
  run_runner (call code fuel) r w = Done o w' →
  (runner_exists r w = true ∧ extends (unsubscribe_deps r (emit (EvRun r) w)) w')
  ∨ (runner_exists r w = false ∧ w' = emit (EvRun r) w).
Proof.
  pose proof preserved_extends as PE.
  intros H. destruct r as [e|c]; simpl in H.
  - unfold effect_runner in H. set (r := REffect e) in *. set (w0 := emit (EvRun r) w) in *.
    assert (runner_exists r w0 = runner_exists r w) as Hex by done. rewrite Hex in H.
    destruct (runner_exists r w); [left; split; [done|]|right; by simplify_eq].
    destruct (try_console [] _) as [o2 w2|] eqn:E2; [|done].
    assert (extends (unsubscribe_deps r w0) (set_cleanup r VNull w2)) as Ep.
    { eapply extends_trans; [|by apply (pr_cleanup _ _ _ PE)].
      unfold try_console in E2.
      destruct (run_cleanup _ _ _) as [[v|err] wc|] eqn:Ec; simplify_eq.
      - by eapply run_cleanup_extends.
      - eapply extends_trans; [by eapply run_cleanup_extends|]. by apply (pr_emit _ _ _ PE). }
    eapply extends_trans; [exact Ep|].
    destruct (call code fuel _ [] _) as [[v|err] w4|] eqn:E4; [| |done]; simplify_eq;
      apply (extends_pop r); (eapply extends_trans; [by eapply call_extends|]).
    + destruct (is_function v); [by apply (pr_cleanup _ _ _ PE)|apply extends_refl].
    + by apply (pr_emit _ _ _ PE).
  - unfold recompute in H. set (r := RComputed c) in *. set (w0 := emit (EvRun r) w) in *.
    assert (runner_exists r w0 = runner_exists r w) as Hex by done. rewrite Hex in H.
    destruct (runner_exists r w); [left; split; [done|]|right; by simplify_eq].
    destruct (try_silent _) as [o2 w2|] eqn:E2; [|done].
    assert (extends (unsubscribe_deps r w0) (set_cleanup r VNull w2)) as Ep.
    { eapply extends_trans; [|by apply (pr_cleanup _ _ _ PE)].
      unfold try_silent in E2.
      destruct (run_cleanup _ _ _) as [ov wc|] eqn:Ec; simplify_eq.
      by eapply run_cleanup_extends. }
    eapply extends_trans; [exact Ep|].
    destruct (call code fuel _ [] _) as [[v|err] w4|] eqn:E4; [| |done]; simplify_eq;
      apply (extends_pop r); (eapply extends_trans; [by eapply call_extends|]).
    + eapply extends_trans; [|by apply (pr_dirty _ _ _ PE)].
      destruct (is_function v); [by apply (pr_cleanup _ _ _ PE)|by apply (pr_cached _ _ _ PE)].
    + by apply (pr_emit _ _ _ PE).
Qed.

(** Entering a runner is the first thing its call records. *)
Lemma run_runner_trace_head code fuel r w o w' :
  run_runner (call code fuel) r w = Done o w' → ∃ t, trace w' = trace w ++ EvRun r :: t.
Proof.
  intros H. apply extends_after_emit.
  destruct (run_runner_after_unsub _ _ _ _ _ _ H) as [[_ E]|[_ ->]]; [|apply extends_refl].
  eapply extends_trans; [apply extends_unsub|exact E].
Qed.

(** What a subscriber records when it is called. *)
Definition entry_event (x : subscriber) : event :=
  match x with SRunner r => EvRun r | SFn f => EvCall f [] end.

(** The history of one notification pass over the array [arr]: one
    segment per member, in the order of the array, each opening with the
    call of that member. *)
Inductive pass_trace : list subscriber → list event → Prop :=
| pass_nil : pass_trace [] []
| pass_cons x arr seg rest :
    pass_trace arr rest → pass_trace (x :: arr) (entry_event x :: seg ++ rest).

Lemma invoke_trace_head code fuel x w o w' :
  invoke (call code fuel) x w = Done o w' → ∃ t, trace w' = trace w ++ entry_event x :: t.
Proof.
  destruct x as [r|f]; simpl; [apply run_runner_trace_head|apply call_trace_head].
Qed.

Lemma notify_pass code fuel arr w o w' :
  notify (call code fuel) arr w = Done o w' →
  o = Normal VUndef ∧ ∃ t, trace w' = trace w ++ t ∧ pass_trace arr t.
Proof.
  revert w. induction arr as [|x arr IH]; intros w H; simpl in H.
  - simplify_eq. split; [done|]. exists []. split; [by rewrite app_nil_r|constructor].
  - destruct (try_async (invoke (call code fuel) x w)) as [o1 w1|] eqn:E1; [|done].
    destruct (IH _ H) as (-> & t2 & Ht2 & Hp). split; [done|].
    assert (∃ t1, trace w1 = trace w ++ entry_event x :: t1) as [t1 Ht1].
    { unfold try_async in E1.
      destruct (invoke _ x w) as [[v|err] wi|] eqn:Ei; simplify_eq;
        destruct (invoke_trace_head _ _ _ _ _ _ Ei) as [t Ht].
      - by exists t.
      - exists (t ++ [EvAsyncThrow err]). unfold emit, set_trace; simpl.
        rewrite Ht. by rewrite <- app_assoc. }
    exists (entry_event x :: t1 ++ t2). split; [|by constructor].
    rewrite Ht2, Ht1. by rewrite <- app_assoc.
Qed.

(** Two subscribers of signal 0: function 0 logs the current value,
    function 1 sets the signal to 5 as soon as it sees 1. *)
Definition client_observers (n : nat) (args : list val) : prog :=
  match n with
  | 0 => PCall (VFun (FGet 0)) [] (λ v, PLog v (PRet VUndef))
  | _ => PCall (VFun (FGet 0)) []
           (λ v, if bool_decide (v = VNum 1)
                 then PCall (VFun (FSet 0)) [VNum 5] (λ _, PRet VUndef)
                 else PRet VUndef)
  end.

(** [const [get, set, sub] = createSignal(0); sub(f1);] *)
Definition world_reenter : World :=
  world_of (exec client_observers 3
              (PNewSignal (VNum 0) (λ s,
                 PCall (VFun (FSubscribe s)) [VFun (FUser 1)] (λ _, PRet VUndef)))
              empty_world).

(** C5 as stated fails: [set(1)] on a signal holding 0 whose subscriber
    sets the signal again does not return [next = 1] but the value the
    signal holds when the notification is over. *)
Lemma C5_set_returns_next_counterexample :
  value_of 0 world_reenter = VNum 0
  ∧ ∃ w', sig_set (call client_observers 4) 0 (VNum 1) world_reenter = Done (Normal (VNum 5)) w'
          ∧ VNum 5 ≠ VNum 1.
Proof. split; [by vm_compute|]. eexists. split; [by vm_compute|done]. Qed.

(** C5, amended.  [set] computes [next] (calling an updater with the
    previous value), stores it, and compares it with the previous value.
    If they are identical it returns [next] and calls nobody.  Otherwise it
    calls every member of the subscriber set as it stood after the store,
    in subscription order, and returns the value the signal holds when
    that pass is over.  With a subscriber that logs the current value,
    [set(1); set(1); set(2)] from 0 logs [1, 2]. *)
Theorem C5_set_returns_current_value :
  (∀ code fuel s newVal w sg,
     signals w !! s = Some sg →
     let old := sg_value sg in
     let r1 := if is_function newVal then call code fuel newVal [old] w
               else Done (Normal newVal) w in
     (∀ next w1, r1 = Done (Normal next) w1 → strict_eq old next = true →
        sig_set (call code fuel) s newVal w = Done (Normal next) (set_value s next w1)
        ∧ trace (set_value s next w1) = trace w1
        ∧ log (set_value s next w1) = log w1)
     ∧ (∀ next w1 o3 w3, r1 = Done (Normal next) w1 → strict_eq old next = false →
        let w2 := set_value s next w1 in
        notify (call code fuel) (subs_of (SrcSig s) w2) w2 = Done o3 w3 →
        sig_set (call code fuel) s newVal w = Done (Normal (value_of s w3)) w3
        ∧ value_of s w2 = next
        ∧ ∃ t, trace w3 = trace w2 ++ t ∧ pass_trace (subs_of (SrcSig s) w2) t))
  ∧ (let script :=
       PNewSignal (VNum 0) (λ s,
         PCall (VFun (FSubscribe s)) [VFun (FUser 0)] (λ _,
           PCall (VFun (FSet s)) [VNum 1] (λ _,
             PCall (VFun (FSet s)) [VNum 1] (λ _,
               PCall (VFun (FSet s)) [VNum 2] (λ _, PRet VUndef))))) in
     log (world_of (exec client_observers 4 script empty_world)) = [VNum 1; VNum 2]).
Proof.
  split; [|by vm_compute].
  intros code fuel s newVal w sg Hs old r1. split.
  - intros next w1 H1 Heq. split; [|done].
    unfold sig_set. rewrite Hs. fold old r1. by rewrite H1, Heq.
  - intros next w1 o3 w3 H1 Hne w2 Hn. split_and!.
    + unfold sig_set. rewrite Hs. fold old r1. rewrite H1, Hne. fold w2. by rewrite Hn.
    + assert (s < length (signals w1)) as Hlt.
      { apply lookup_lt_Some in Hs. unfold r1 in H1.
        destruct (is_function newVal); [|by simplify_eq].
        destruct (call_extends _ _ _ _ _ _ _ H1) as (_ & _ & _ & _ & _ & ? & _). lia. }
      destruct (lookup_lt_is_Some_2 _ _ Hlt) as [sg1 Hsg1].
      unfold w2, value_of, set_value, set_signals; simpl.
      by rewrite list_lookup_alter_eq, Hsg1.
    + destruct (notify_pass _ _ _ _ _ _ Hn) as (_ & t & Ht & Hp). by exists t.
Qed.

(** The store after the notification pass of [set(1)] on [world_reenter]. *)
Definition world_reenter_notified : World :=
  world_of (notify (call client_observers 4)
              (subs_of (SrcSig 0) (set_value 0 (VNum 1) world_reenter))
              (set_value 0 (VNum 1) world_reenter)).

Lemma C5_set_returns_current_value_witness :
  signals world_reenter !! 0 = Some {| sg_value := VNum 0; sg_subs := [SFn (FUser 1)] |}
  ∧ strict_eq (VNum 0) (VNum 1) = false
  ∧ notify (call client_observers 4)
      (subs_of (SrcSig 0) (set_value 0 (VNum 1) world_reenter))
      (set_value 0 (VNum 1) world_reenter) = Done (Normal VUndef) world_reenter_notified
  ∧ sig_set (call client_observers 4) 0 (VNum 1) world_reenter
    = Done (Normal (value_of 0 world_reenter_notified)) world_reenter_notified
  ∧ value_of 0 (set_value 0 (VNum 1) world_reenter) = VNum 1
  ∧ ∃ t, trace world_reenter_notified = trace (set_value 0 (VNum 1) world_reenter) ++ t
         ∧ pass_trace (subs_of (SrcSig 0) (set_value 0 (VNum 1) world_reenter)) t.
Proof.
  split; [by vm_compute|]. split; [by vm_compute|]. split; [by vm_compute|].
  destruct (proj1 C5_set_returns_current_value client_observers 4 0 (VNum 1) world_reenter
              {| sg_value := VNum 0; sg_subs := [SFn (FUser 1)] |}) as [_ H2];
    [by vm_compute|].
  apply (H2 (VNum 1) world_reenter (Normal VUndef) world_reenter_notified);
    by vm_compute.
Defined.

(** ** C4: the dependency graph after a run *)

Lemma live_from_elem r acc t k :
  k ∈ live_from r acc t → k ∈ acc ∨ EvTrack r k ∈ t.
Proof.
  revert acc. induction t as [|ev t IH]; intros acc; simpl; [by left|].
  unfold live_from in *; simpl. intros H. apply IH in H as [H|H]; [|right; by right].
  destruct ev as [| |r' k'|r'| |]; simpl in H; try by left.
  - case_bool_decide; subst; [|by left].
    apply elem_of_set_add in H as [->|H]; [right; by left|by left].
  - case_bool_decide; [by apply elem_of_nil in H|by left].
Qed.

(** A runner that reads signal 0, and only while it holds 0 also reads
    signal 1 and then sets signal 0 to 1. *)
Definition client_branch (n : nat) (args : list val) : prog :=
  PCall (VFun (FGet 0)) []
    (λ t, if bool_decide (t = VNum 0)
          then PCall (VFun (FGet 1)) [] (λ _,
                 PCall (VFun (FSet 0)) [VNum 1] (λ _, PRet VUndef))
          else PRet VUndef).

(** Two signals holding 0 and an effect on [client_branch] that has not
    run yet. *)
Definition world_branch : World :=
  alloc_effect (VFun (FUser 0)) (alloc_signal (VNum 0) (alloc_signal (VNum 0) empty_world)).

Lemma consistent_world_branch : consistent world_branch.
Proof.
  eapply consistent_same_graph; [apply same_graph_alloc_effect|].
  eapply consistent_same_graph; [apply same_graph_alloc_signal|].
  eapply consistent_same_graph; [apply same_graph_alloc_signal|].
  apply consistent_empty.
Qed.

(** C4 as stated fails when a run is re-entered: the run below reads
    signal 1, then triggers a nested run of the same runner that drops
    signal 1; when the outer run is over signal 1 has been read during it
    but does not list the runner. *)
Lemma C4_read_sources_list_runner_counterexample :
  consistent world_branch
  ∧ trace world_branch = []
  ∧ ∃ w', run_runner (call client_branch 6) (REffect 0) world_branch = Done (Normal VUndef) w'
          ∧ EvTrack (REffect 0) (SrcSig 1) ∈ trace w'
          ∧ SRunner (REffect 0) ∉ subs_of (SrcSig 1) w'.
Proof.
  split; [apply consistent_world_branch|]. split; [done|].
  eexists. split; [by vm_compute|].
  split; apply (bool_decide_unpack _); by vm_compute.
Qed.

(** C4, amended.  After any runner execution from a consistent store the
    store is consistent again: a source lists the runner exactly when it is
    in the runner's dependency set.  Those sources are exactly the ones the
    runner read during this run after it last dropped its dependencies
    (at the start of the run, or in a nested run or disposal of the same
    runner); every one of them was read during this run, so none that was
    read only in an earlier run retains the runner. *)
Theorem C4_dependency_graph_consistent code fuel r w o w' :
  consistent w →
  run_runner (call code fuel) r w = Done o w' →
  consistent w'
  ∧ (∀ k, SRunner r ∈ subs_of k w' ↔ k ∈ deps_of r w')
  ∧ ∃ seg, trace w' = trace w ++ seg
      ∧ (∀ k, SRunner r ∈ subs_of k w' ↔ k ∈ live r seg)
      ∧ (∀ k, k ∈ live r seg → EvTrack r k ∈ seg).
Proof.
  intros C H. pose proof (run_runner_consistent _ _ _ _ _ _ C H) as C'.
  assert (∀ k, SRunner r ∈ subs_of k w' ↔ k ∈ deps_of r w') as Hiff.
  { intros k. split; [apply (wf_subs_deps _ C')|apply (wf_deps_subs _ C')]. }
  split; [done|]. split; [done|].
  assert (∃ seg, trace w' = trace w ++ seg ∧ live r (trace w') = live r seg)
    as (seg & Hseg & Hlive).
  { destruct (run_runner_after_unsub _ _ _ _ _ _ H) as [[Hex E]|[Hex ->]].
    - destruct (extends_trace _ _ E) as [t Ht].
      destruct (unsub_frame r (emit (EvRun r) w)) as (T & _). rewrite T in Ht.
      exists (EvRun r :: EvUnsub r :: t). split.
      + rewrite Ht. unfold emit, set_trace; simpl. by rewrite <- !app_assoc.
      + rewrite Ht. unfold emit, set_trace; simpl. unfold live.
        rewrite <- !app_assoc. simpl. rewrite live_from_app. simpl.
        by rewrite bool_decide_eq_true_2.
    - exists [EvRun r]. split; [done|].
      unfold emit, set_trace; simpl. rewrite live_snoc. simpl.
      rewrite <- (wf_history _ C). unfold live, live_from; simpl.
      destruct r; unfold deps_of, EFFECT_DEPS_get, runner_exists in *;
        apply bool_decide_eq_false in Hex; rewrite lookup_ge_None_2 by lia; done. }
  exists seg. split; [done|]. split.
  - intros k. rewrite Hiff, (wf_history _ C'). by rewrite Hlive.
  - intros k Hk. apply live_from_elem in Hk as [Hk|Hk]; [by apply elem_of_nil in Hk|done].
Qed.

Lemma C4_dependency_graph_consistent_witness :
  consistent world_branch
  ∧ ∃ w', run_runner (call client_branch 6) (REffect 0) world_branch = Done (Normal VUndef) w'
    ∧ consistent w'
    ∧ (∀ k, SRunner (REffect 0) ∈ subs_of k w' ↔ k ∈ deps_of (REffect 0) w')
    ∧ ∃ seg, trace w' = trace world_branch ++ seg
        ∧ (∀ k, SRunner (REffect 0) ∈ subs_of k w' ↔ k ∈ live (REffect 0) seg)
        ∧ (∀ k, k ∈ live (REffect 0) seg → EvTrack (REffect 0) k ∈ seg).
Proof.
  split; [apply consistent_world_branch|].
  eexists. split; [by vm_compute|].
  eapply (C4_dependency_graph_consistent client_branch 6 (REffect 0) world_branch);
    [apply consistent_world_branch|by vm_compute].
Defined.

(** ** C6: disposing an effect *)







(** [dispose()] on the effect of [world_cleanup]. *)
Definition world_disposed : World :=
  world_of (dispose (call client_cleanup 3) 0 world_cleanup).


(** ** C7, C8, C9: the state proxy *)

(** Calling every callback of an array with the same arguments,
    reporting what a callback throws. *)
Fixpoint call_each (call : val → list val → World → result) (args : list val)
    (fns : list val) (w : World) : result :=
  match fns with
  | [] => Done (Normal VUndef) w
  | fn :: rest =>
      match try_console [] (call fn args w) with
      | OutOfFuel => OutOfFuel
      | Done _ w' => call_each call args rest w'
      end
  end.

(** The live members of a slot list, in insertion order. *)
Definition members (l : list (option val)) : list val := omap id l.

(** No callback of [globalSubs] changes [globalSubs] when called with
    [args]. *)
Definition stable_callbacks (call : val → list val → World → result) (st : nat)
    (args : list val) (gs : list (option val)) : Prop :=
  ∀ fn w0 o w1, Some fn ∈ gs → call fn args w0 = Done o w1 →
    globalSubs_of st w1 = globalSubs_of st w0.

Lemma globalSubs_emit st ev w : globalSubs_of st (emit ev w) = globalSubs_of st w.
Proof. done. Qed.

(** While no callback touches the set, the live [forEach] of
    [notifyGlobal] visits the members it started with, each once, in
    insertion order. *)
Lemma notifyGlobal_from_stable call n st args i w :
  stable_callbacks call st args (globalSubs_of st w) →
  length (globalSubs_of st w) - i < n →
  notifyGlobal_from call n st args i w
  = call_each call args (members (drop i (globalSubs_of st w))) w.
Proof.
  revert i w. induction n as [|n IH]; intros i w Hst Hn; [lia|]. simpl.
  destruct (globalSubs_of st w !! i) as [[fn|]|] eqn:Ei;
    [pose proof (lookup_lt_Some _ _ _ Ei) as Hi|pose proof (lookup_lt_Some _ _ _ Ei) as Hi|].
  - rewrite (drop_S _ _ _ Ei). unfold members; simpl. fold (members (drop (S i) (globalSubs_of st w))).
    destruct (call fn args w) as [[v|err] w1|] eqn:Ec; simpl; [| |done].
    + assert (globalSubs_of st w1 = globalSubs_of st w) as Hg.
      { eapply Hst; [|exact Ec]. exact (list_elem_of_lookup_2 _ _ _ Ei). }
      rewrite <- Hg. apply IH; rewrite Hg; [done|lia].
    + assert (globalSubs_of st w1 = globalSubs_of st w) as Hg.
      { eapply Hst; [|exact Ec]. exact (list_elem_of_lookup_2 _ _ _ Ei). }
      rewrite <- Hg, <- (globalSubs_emit st (EvConsoleError ([] ++ [err])) w1).
      apply IH; rewrite globalSubs_emit, Hg; [done|lia].
  - rewrite (drop_S _ _ _ Ei). unfold members; simpl. apply IH; [done|lia].
  - rewrite drop_ge by (by apply lookup_ge_None_1). done.
Qed.





(** The array [Array.from(sig.__subs)] that [handler.set] and
    [handler.deleteProperty] iterate for property [prop]. *)
Definition prop_snapshot (st : nat) (prop : string) (w : World) : list subscriber :=
  match sigs_of st w ≫= (λ map, map !! prop) with
  | Some sig => subs_of (SrcProp sig) w
  | None => []
  end.

Lemma notify_prop_snapshot call st prop w :
  notify_prop call st prop w = notify call (prop_snapshot st prop w) w.
Proof.
  unfold notify_prop, prop_snapshot. destruct (sigs_of st w) as [map|]; simpl; [|done].
  by destruct (map !! prop).
Qed.

Lemma target_of_set_target st f w x :
  states w !! st = Some x → target_of st (set_target st f w) = f (target_of st w).
Proof.
  intros Hx. unfold target_of, set_target, set_states; simpl.
  by rewrite list_lookup_alter_eq, Hx.
Qed.

(** A state [{x: 0}], a global callback that logs its arguments
    (function 1) and an effect that logs [state.x] (function 0). *)
Definition client_state (n : nat) (args : list val) : prog :=
  match n with
  | 0 => PStateGet 0 "x" (λ v, PLog v (PRet VUndef))
  | _ => PLog (arg 0 args) (PLog (arg 1 args) (PLog (arg 2 args) (PRet VUndef)))
  end.

Definition script_state (tail : prog) : prog :=
  PNewState {["x" := VNum 0]} (λ st,
    PStateGet st "subscribe" (λ subscribe,
      PCall subscribe [VFun (FUser 1)] (λ _,
        PNewEffect (VFun (FUser 0)) (λ _, tail)))).








(** C9 as stated fails for writes: [state.subscribe = 5] is stored in
    the underlying record and reported to the global callbacks, here with
    [("subscribe", undefined, 5)]. *)
Lemma C9_reserved_write_silent_counterexample :
  let w := world_of (exec client_state 5
              (script_state (PStateSet 0 "subscribe" (VNum 5) (PRet VUndef))) empty_world) in
  calls (FUser 1) (trace w) = 1
  ∧ log w = [VNum 0; VStr "subscribe"; VUndef; VNum 5]
  ∧ target_of 0 w !! "subscribe" = Some (VNum 5).
Proof. by vm_compute. Qed.

Lemma reserved_no_snapshot st prop w :
  consistent w → reserved prop = true → prop_snapshot st prop w = [].
Proof.
  intros C Hres. unfold prop_snapshot.
  destruct (sigs_of st w) as [map|] eqn:Em; simpl; [|done].
  destruct (map !! prop) as [sig|] eqn:Es; [|done].
  destruct (wf_sigs _ C _ _ _ _ Em Es) as [_ Hno]. congruence.
Qed.

(** C9, amended.  Reading [subscribe] or [inspect] through the proxy
    returns a fresh closure without looking at the underlying record and
    without registering a dependency, whether or not a runner is active;
    calling [inspect()] returns a new plain object holding the current
    properties, again without touching the dependency graph.  No property
    signal ever exists for these names, so a write to them notifies no
    runner; a write that changes the stored value is reported to the global
    callbacks like any other write. *)
Theorem C9_reserved_names_untracked code fuel loop_fuel st prop w x :
  states w !! st = Some x →
  prop = "subscribe"%string ∨ prop = "inspect"%string →
  (∃ c, handler_get st prop w
        = Done (Normal (VFun (FClosure (length (closures w))))) (alloc_closure c w)
        ∧ same_graph w (alloc_closure c w)
        ∧ trace (alloc_closure c w) = trace w
        ∧ states (alloc_closure c w) = states w)
  ∧ (∀ u args, closures w !! u = Some (CInspect st) →
       let w' := alloc_object (target_of st w) w in
       call_closure u args w = Done (Normal (VObj (length (objects w)))) w'
       ∧ objects w' !! length (objects w) = Some (target_of st w)
       ∧ same_graph w w'
       ∧ trace w' = trace w)
  ∧ (consistent w → ∀ v,
       let old := default VUndef (target_of st w !! prop) in
       let w1 := set_target st (<[prop := v]>) w in
       prop_snapshot st prop w1 = []
       ∧ notify_prop (call code fuel) st prop w1 = Done (Normal VUndef) w1
       ∧ (strict_eq old v = false →
            handler_set (call code fuel) loop_fuel st prop v w
            = match notifyGlobal (call code fuel) loop_fuel st prop old v w1 with
              | Done _ w3 => Done (Normal (VBool true)) w3
              | OutOfFuel => OutOfFuel
              end)).
Proof.
  intros Hx Hprop. split_and!.
  - unfold handler_get. rewrite Hx.
    destruct Hprop as [-> | ->]; simpl; eexists; (split; [reflexivity|]);
      (split; [apply same_graph_alloc_closure|done]).
  - intros u args Hu w'. split_and!.
    + unfold call_closure. by rewrite Hu.
    + unfold w', alloc_object, set_objects; simpl. by rewrite list_lookup_middle.
    + apply same_graph_alloc_object.
    + done.
  - intros C v old w1.
    assert (prop_snapshot st prop w1 = []) as Hsnap.
    { apply reserved_no_snapshot.
      - eapply consistent_same_graph; [apply same_graph_target|done].
      - by destruct Hprop as [-> | ->]. }
    assert (notify_prop (call code fuel) st prop w1 = Done (Normal VUndef) w1) as Hn
      by (by rewrite notify_prop_snapshot, Hsnap).
    split_and!; try done.
    intros Hne. unfold handler_set. rewrite Hx. fold old w1. by rewrite Hne, Hn.
Qed.

(** A store with an [inspect] closure (closure 2) next to the state, the
    global callback and the effect of [script_state]. *)
Definition script_inspect : prog := script_state (PStateGet 0 "inspect" (λ f, PRet f)).
Definition world_inspect : World := world_of (exec client_state 5 script_inspect empty_world).

Lemma consistent_world_inspect : consistent world_inspect.
Proof.
  apply (exec_consistent client_state 5 script_inspect empty_world (Normal (VFun (FClosure 2))));
    [apply consistent_empty|by vm_compute].
Qed.

Lemma C9_reserved_names_untracked_witness :
  states world_inspect !! 0
  = Some {| st_target := {["x" := VNum 0]}; st_globalSubs := [Some (VFun (FUser 1))];
            st_sigs := Some {["x" := 0]} |}
  ∧ ("subscribe"%string = "subscribe"%string ∨ "subscribe"%string = "inspect"%string)
  ∧ closures world_inspect !! 2 = Some (CInspect 0)
  ∧ consistent world_inspect
  ∧ strict_eq (default VUndef (target_of 0 world_inspect !! "subscribe")) (VNum 5) = false
  ∧ (∃ c, handler_get 0 "subscribe" world_inspect
          = Done (Normal (VFun (FClosure (length (closures world_inspect)))))
              (alloc_closure c world_inspect)
          ∧ same_graph world_inspect (alloc_closure c world_inspect)
          ∧ trace (alloc_closure c world_inspect) = trace world_inspect
          ∧ states (alloc_closure c world_inspect) = states world_inspect)
  ∧ call_closure 2 [] world_inspect
    = Done (Normal (VObj (length (objects world_inspect))))
        (alloc_object (target_of 0 world_inspect) world_inspect)
  ∧ prop_snapshot 0 "subscribe" (set_target 0 (<["subscribe" := VNum 5]>) world_inspect) = []
  ∧ handler_set (call client_state 4) 5 0 "subscribe" (VNum 5) world_inspect
    = match notifyGlobal (call client_state 4) 5 0 "subscribe" VUndef (VNum 5)
              (set_target 0 (<["subscribe" := VNum 5]>) world_inspect) with
      | Done _ w3 => Done (Normal (VBool true)) w3
      | OutOfFuel => OutOfFuel
      end.
Proof.
  split; [by vm_compute|]. split; [by left|]. split; [by vm_compute|].
  split; [apply consistent_world_inspect|]. split; [by vm_compute|].
  destruct (C9_reserved_names_untracked client_state 4 5 0 "subscribe"%string world_inspect
              {| st_target := {["x" := VNum 0]}; st_globalSubs := [Some (VFun (FUser 1))];
                 st_sigs := Some {["x" := 0]} |}) as (H1 & H2 & H3);
    [by vm_compute|by left|].
  split; [exact H1|].
  destruct (H2 2 [] ltac:(by vm_compute)) as (H2a & _).
  split; [exact H2a|].
  destruct (H3 consistent_world_inspect (VNum 5)) as (H3a & _ & H3c).
  split; [exact H3a|]. apply H3c. by vm_compute.
Defined.

(** * Further properties of the module *)

(** ** Calls are balanced on [EFFECT_STACK] *)

(** An effect that reads signal 0 and throws, and a computed value whose
    function throws at once. *)
Definition client_faulty (n : nat) (args : list val) : prog :=
  match n with
  | 0 => PCall (VFun (FGet 0)) [] (λ _, PThrow (VStr "boom"))
  | _ => PThrow (VStr "bang")
  end.

(** [s = createSignal(0); createEffect(f0); c = createComputed(f1);
    set(1); return c()] *)
Definition script_faulty : prog :=
  PNewSignal (VNum 0) (λ s,
    PNewEffect (VFun (FUser 0)) (λ _,
      PNewComputed (VFun (FUser 1)) (λ c,
        PCall (VFun (FSet s)) [VNum 1] (λ _, PCall c [] (λ v, PRet v))))).

Definition world_faulty : World :=
  world_of (exec client_faulty 5 script_faulty empty_world).

(** X1. Whatever client code does, and whether it returns or throws, a
    script or a call that ends leaves [EFFECT_STACK] exactly as it found
    it: every [push] of a runner is matched by the [pop] of its
    [finally]. *)
Theorem X1_stack_balanced code fuel :
  (∀ p w o w', exec code fuel p w = Done o w' → EFFECT_STACK w' = EFFECT_STACK w)
  ∧ (∀ f args w o w',
       call code fuel f args w = Done o w' → EFFECT_STACK w' = EFFECT_STACK w).
Proof.
  split.
  - intros p w o w' H. eapply extends_stack, exec_extends, H.
  - intros f args w o w' H. eapply extends_stack, call_extends, H.
Qed.

Lemma X1_stack_balanced_witness :
  exec client_faulty 5 script_faulty empty_world = Done (Normal VUndef) world_faulty
  ∧ EFFECT_STACK world_faulty = EFFECT_STACK empty_world
  ∧ trace world_faulty ≠ [].
Proof.
  split; [by vm_compute|]. split; [|by vm_compute].
  apply (proj1 (X1_stack_balanced client_faulty 5) script_faulty empty_world (Normal VUndef)).
  by vm_compute.
Defined.

(** ** Every reachable store has a consistent dependency graph *)

(** X2. In every store a script can reach from the initial one, no runner
    is executing, a source lists a runner exactly when the runner's
    [EFFECT_DEPS] entry holds the source, and every listed runner exists. *)
Theorem X2_reachable_graph_consistent code fuel p o w :
  exec code fuel p empty_world = Done o w →
  EFFECT_STACK w = []
  ∧ (∀ r k, SRunner r ∈ subs_of k w ↔ k ∈ deps_of r w)
  ∧ (∀ r k, SRunner r ∈ subs_of k w → runner_exists r w = true).
Proof.
  intros H.
  pose proof (exec_consistent _ _ _ _ _ _ consistent_empty H) as C.
  assert (∀ r k, SRunner r ∈ subs_of k w ↔ k ∈ deps_of r w) as Hiff.
  { intros r k. split; [apply (wf_subs_deps _ C)|apply (wf_deps_subs _ C)]. }
  split_and!; [by rewrite (extends_stack _ _ (exec_extends _ _ _ _ _ _ H))|done|].
  intros r k Hin. apply Hiff in Hin. unfold deps_of, EFFECT_DEPS_get in Hin.
  unfold runner_exists. destruct r as [e|c]; apply bool_decide_eq_true.
  - destruct (effects w !! e) as [x|] eqn:E; [by eapply lookup_lt_Some|].
    simpl in Hin. by apply elem_of_nil in Hin.
  - destruct (computeds w !! c) as [x|] eqn:E; [by eapply lookup_lt_Some|].
    simpl in Hin. by apply elem_of_nil in Hin.
Qed.

Lemma X2_reachable_graph_consistent_witness :
  exec client_faulty 5 script_faulty empty_world = Done (Normal VUndef) world_faulty
  ∧ EFFECT_STACK world_faulty = []
  ∧ (∀ r k, SRunner r ∈ subs_of k world_faulty ↔ k ∈ deps_of r world_faulty)
  ∧ (∀ r k, SRunner r ∈ subs_of k world_faulty → runner_exists r world_faulty = true)
  ∧ subs_of (SrcSig 0) world_faulty = [SRunner (REffect 0)].
Proof.
  split; [by vm_compute|].
  destruct (X2_reachable_graph_consistent client_faulty 5 script_faulty (Normal VUndef)
              world_faulty) as (H1 & H2 & H3); [by vm_compute|].
  split_and!; [exact H1|exact H2|exact H3|by vm_compute].
Defined.

(** ** Subscribing to a signal and unsubscribing again *)

Lemma set_delete_fresh {A} `{EqDecision A} (x : A) l : x ∉ l → set_delete x l = l.
Proof.
  induction l as [|y l IH]; simpl; [done|]. intros Hx.
  apply not_elem_of_cons in Hx as [Hne Hx]. rewrite bool_decide_eq_false_2 by done.
  by rewrite IH.
Qed.

Lemma set_delete_app {A} `{EqDecision A} (x : A) l1 l2 :
  set_delete x (l1 ++ l2) = set_delete x l1 ++ set_delete x l2.
Proof.
  induction l1 as [|y l1 IH]; simpl; [done|]. case_bool_decide; [done|]. by rewrite IH.
Qed.

Lemma set_delete_add {A} `{EqDecision A} (x : A) l :
  set_delete x (set_add x l) = set_delete x l.
Proof.
  unfold set_add. case_bool_decide; [done|]. rewrite set_delete_app. simpl.
  rewrite bool_decide_eq_true_2 by done. by rewrite app_nil_r.
Qed.

Lemma not_elem_of_set_delete {A} `{EqDecision A} (x : A) l : x ∉ set_delete x l.
Proof. rewrite elem_of_set_delete. by intros [? _]. Qed.

Lemma subs_of_alloc_closure k c w : subs_of k (alloc_closure c w) = subs_of k w.
Proof. by destruct k. Qed.

Lemma closures_subs_update k f w : closures (subs_update k f w) = closures w.
Proof. by destruct k. Qed.

Lemma lookup_alloc_closure c w :
  closures (alloc_closure c w) !! length (closures w) = Some c.
Proof. unfold alloc_closure, set_closures; simpl. by rewrite list_lookup_middle. Qed.

(** X3. [subscribe(fn)] with a function appends it to the signal's
    subscribers unless it is there already, and hands out a function
    that removes it: called once it returns [true] and leaves the
    subscribers as they were before a first subscription; called again it
    returns [false] and changes nothing.  With anything that is not a
    function [subscribe] registers nothing and hands out a function that
    does nothing. *)
Theorem X3_signal_subscribe_round_trip s w :
  s < length (signals w) →
  let u := length (closures w) in
  let l := subs_of (SrcSig s) w in
  (∀ f, ∃ w1 w2 w3,
     sig_subscribe s (VFun f) w = Done (Normal (VFun (FClosure u))) w1
     ∧ subs_of (SrcSig s) w1 = set_add (SFn f) l
     ∧ call_closure u [] w1 = Done (Normal (VBool true)) w2
     ∧ subs_of (SrcSig s) w2 = set_delete (SFn f) l
     ∧ (SFn f ∉ l → subs_of (SrcSig s) w2 = l)
     ∧ call_closure u [] w2 = Done (Normal (VBool false)) w3
     ∧ subs_of (SrcSig s) w3 = subs_of (SrcSig s) w2)
  ∧ (∀ x, is_function x = false →
     ∃ w1, sig_subscribe s x w = Done (Normal (VFun (FClosure u))) w1
       ∧ subs_of (SrcSig s) w1 = l
       ∧ call_closure u [] w1 = Done (Normal VUndef) w1).
Proof.
  intros Hs u l. destruct (lookup_lt_is_Some_2 _ _ Hs) as [sg Hsg]. split.
  - intros f.
    set (w1 := alloc_closure (CUnsub s (VFun f)) (subs_update (SrcSig s) (set_add (SFn f)) w)).
    set (w2 := subs_update (SrcSig s) (set_delete (SFn f)) w1).
    set (w3 := subs_update (SrcSig s) (set_delete (SFn f)) w2).
    assert (subs_of (SrcSig s) w1 = set_add (SFn f) l) as H1.
    { unfold w1. rewrite subs_of_alloc_closure, subs_of_update by (by left).
      by rewrite decide_True. }
    assert (closures w1 !! u = Some (CUnsub s (VFun f))) as Hu.
    { unfold w1, u. rewrite <- (closures_subs_update (SrcSig s) (set_add (SFn f)) w).
      apply lookup_alloc_closure. }
    assert (s < length (signals w1)) as Hs1.
    { unfold w1. unfold_prims; simpl. by rewrite length_alter. }
    assert (subs_of (SrcSig s) w2 = set_delete (SFn f) l) as H2.
    { unfold w2. rewrite subs_of_update by (by left). rewrite decide_True by done.
      by rewrite H1, set_delete_add. }
    exists w1, w2, w3. split_and!.
    + unfold sig_subscribe. by rewrite Hsg.
    + exact H1.
    + unfold call_closure. rewrite Hu, H1. f_equal. f_equal. f_equal.
      apply bool_decide_eq_true. apply elem_of_set_add. by left.
    + exact H2.
    + intros Hf. by rewrite H2, set_delete_fresh.
    + assert (closures w2 !! u = Some (CUnsub s (VFun f))) as Hu2.
      { unfold w2. by rewrite closures_subs_update. }
      unfold call_closure. rewrite Hu2, H2. f_equal. f_equal. f_equal.
      apply bool_decide_eq_false. apply not_elem_of_set_delete.
    + unfold w3. rewrite subs_of_update; [rewrite decide_True by done|].
      * rewrite H2. apply set_delete_fresh, not_elem_of_set_delete.
      * left. simpl. unfold w2. unfold_prims; simpl. by rewrite length_alter.
  - intros x Hx. exists (alloc_closure CNoop w). split_and!.
    + unfold sig_subscribe. rewrite Hsg. by destruct x.
    + apply subs_of_alloc_closure.
    + unfold call_closure, u. by rewrite lookup_alloc_closure.
Qed.

Definition world_signal0 : World := snd (createSignal (VNum 0) empty_world).

Lemma X3_signal_subscribe_round_trip_witness :
  0 < length (signals world_signal0)
  ∧ ∃ w1 w2 w3,
      sig_subscribe 0 (VFun (FUser 0)) world_signal0 = Done (Normal (VFun (FClosure 0))) w1
      ∧ subs_of (SrcSig 0) w1 = [SFn (FUser 0)]
      ∧ call_closure 0 [] w1 = Done (Normal (VBool true)) w2
      ∧ subs_of (SrcSig 0) w2 = []
      ∧ (SFn (FUser 0) ∉ subs_of (SrcSig 0) world_signal0 → subs_of (SrcSig 0) w2 = [])
      ∧ call_closure 0 [] w2 = Done (Normal (VBool false)) w3
      ∧ subs_of (SrcSig 0) w3 = subs_of (SrcSig 0) w2.
Proof.
  assert (0 < length (signals world_signal0)) as H0 by (vm_compute; lia).
  split; [exact H0|].
  exact (proj1 (X3_signal_subscribe_round_trip 0 world_signal0 H0) (FUser 0)).
Defined.

(** ** What a notification pass does to each subscriber *)

Lemma runs_app r t1 t2 : runs r (t1 ++ t2) = runs r t1 + runs r t2.
Proof. unfold runs. by rewrite filter_app, length_app. Qed.

Lemma runs_entered r t1 t2 : runs r t1 < runs r (t1 ++ EvRun r :: t2).
Proof.
  rewrite runs_app. unfold runs at 3. rewrite filter_cons, decide_True by done. simpl. lia.
Qed.

Lemma invoke_extends code fuel x w o w' :
  invoke (call code fuel) x w = Done o w' → extends w w'.
Proof.
  intros H.
  eapply (invoke_ok preserved_extends (call code fuel)); [|done|done|exact H].
  intros f a. apply (call_ok preserved_extends).
Qed.

Lemma notify_extends code fuel arr w o w' :
  notify (call code fuel) arr w = Done o w' → extends w w'.
Proof.
  intros H.
  eapply (notify_ok preserved_extends (call code fuel)); [|done|done|exact H].
  intros f a. apply (call_ok preserved_extends).
Qed.

(** Every member of the array is invoked, in a store that extends the
    one the pass started from; what it throws is thrown again from a
    timer. *)
Lemma notify_member code fuel arr x w o w' :
  x ∈ arr → notify (call code fuel) arr w = Done o w' →
  ∃ wi oi wi',
    extends w wi ∧ invoke (call code fuel) x wi = Done oi wi'
    ∧ (∃ t, trace w' = trace wi' ++ t)
    ∧ (∀ err, oi = Thrown err → EvAsyncThrow err ∈ trace w').
Proof.
  revert w. induction arr as [|y arr IH]; intros w Hin H; [by apply elem_of_nil in Hin|].
  simpl in H.
  destruct (invoke (call code fuel) y w) as [oy wy|] eqn:Ey; [|done].
  set (wy' := match oy with
              | Thrown err => emit (EvAsyncThrow err) wy | Normal _ => wy end).
  assert (try_async (Done oy wy) = Done (Normal VUndef) wy') as Ht by (by destruct oy).
  rewrite Ht in H.
  assert (∃ t, trace wy' = trace wy ++ t) as [ty Hty].
  { destruct oy; [by exists []; rewrite app_nil_r|by eexists]. }
  destruct (extends_trace _ _ (notify_extends _ _ _ _ _ _ H)) as [tr Htr].
  apply elem_of_cons in Hin as [->|Hin].
  - exists w, oy, wy. split_and!; [apply extends_refl|done| |].
    + exists (ty ++ tr). by rewrite Htr, Hty, app_assoc.
    + intros err ->. rewrite Htr. apply elem_of_app. left. simpl.
      unfold emit, set_trace; simpl. apply elem_of_app. right. by left.
  - destruct (IH wy' Hin H) as (wi & oi & wi' & E & Hi & Htl & Herr).
    exists wi, oi, wi'. split_and!; [|done..].
    eapply extends_trans; [by eapply invoke_extends|].
    eapply extends_trans; [|exact E].
    destruct oy; [apply extends_refl|]. unfold wy'. solve_extends.
Qed.

Lemma subs_of_set_value k s v w : subs_of k (set_value s v w) = subs_of k w.
Proof. destruct k; solve_obs. Qed.

(** X4. [set] with a value that is not a function never throws, whatever
    its subscribers do: each subscriber of the signal is invoked, what one
    of them throws is thrown again from a timer, and the others are
    invoked all the same. *)
Theorem X4_set_isolates_subscriber_errors code fuel s v w o w' :
  s < length (signals w) → is_function v = false →
  sig_set (call code fuel) s v w = Done o w' →
  (∃ x, o = Normal x)
  ∧ (strict_eq (value_of s w) v = false →
     ∀ y, y ∈ subs_of (SrcSig s) w →
       ∃ wi oi wi',
         invoke (call code fuel) y wi = Done oi wi'
         ∧ (∃ t, trace wi = trace w ++ t) ∧ (∃ t, trace w' = trace wi' ++ t)
         ∧ (∀ err, oi = Thrown err → EvAsyncThrow err ∈ trace w')).
Proof.
  intros Hs Hv H. destruct (lookup_lt_is_Some_2 _ _ Hs) as [sg Hsg].
  unfold sig_set in H. rewrite Hsg, Hv in H.
  assert (value_of s w = sg_value sg) as Hval by (unfold value_of; by rewrite Hsg).
  rewrite <- Hval in H.
  destruct (strict_eq (value_of s w) v) eqn:Heq.
  - simplify_eq. split; [by eexists|done].
  - destruct (notify _ _ _) as [o3 w3|] eqn:E3; [|done]. simplify_eq.
    split; [by eexists|]. intros _ y Hy.
    rewrite subs_of_set_value in E3.
    destruct (notify_member _ _ _ _ _ _ _ Hy E3) as (wi & oi & wi' & E & Hi & Ht & Herr).
    exists wi, oi, wi'. split_and!; try done.
    destruct (extends_trace _ _ E) as [t Ht']. by exists t.
Qed.

(** A subscriber that throws, followed by one that logs the signal:
    [subscribe(f0); subscribe(f1)] on [createSignal(0)]. *)
Definition client_throwing (n : nat) (args : list val) : prog :=
  match n with
  | 0 => PThrow (VStr "boom")
  | _ => PCall (VFun (FGet 0)) [] (λ v, PLog v (PRet VUndef))
  end.

Definition world_throwing : World :=
  world_of (exec client_throwing 3
              (PNewSignal (VNum 0) (λ s,
                 PCall (VFun (FSubscribe s)) [VFun (FUser 0)] (λ _,
                   PCall (VFun (FSubscribe s)) [VFun (FUser 1)] (λ _, PRet VUndef))))
              empty_world).

Definition world_throwing_set : World :=
  world_of (sig_set (call client_throwing 3) 0 (VNum 1) world_throwing).

Lemma X4_set_isolates_subscriber_errors_witness :
  0 < length (signals world_throwing)
  ∧ subs_of (SrcSig 0) world_throwing = [SFn (FUser 0); SFn (FUser 1)]
  ∧ sig_set (call client_throwing 3) 0 (VNum 1) world_throwing
    = Done (Normal (VNum 1)) world_throwing_set
  ∧ log world_throwing_set = [VNum 1]
  ∧ EvAsyncThrow (VStr "boom") ∈ trace world_throwing_set
  ∧ ∀ y, y ∈ subs_of (SrcSig 0) world_throwing →
      ∃ wi oi wi',
        invoke (call client_throwing 3) y wi = Done oi wi'
        ∧ (∃ t, trace wi = trace world_throwing ++ t)
        ∧ (∃ t, trace world_throwing_set = trace wi' ++ t)
        ∧ (∀ err, oi = Thrown err → EvAsyncThrow err ∈ trace world_throwing_set).
Proof.
  assert (0 < length (signals world_throwing)) as H0 by (vm_compute; lia).
  split; [exact H0|]. split; [by vm_compute|]. split; [by vm_compute|].
  split; [by vm_compute|].
  split; [apply (bool_decide_unpack _); by vm_compute|].
  destruct (X4_set_isolates_subscriber_errors client_throwing 3 0 (VNum 1) world_throwing
              (Normal (VNum 1)) world_throwing_set H0 eq_refl) as [_ H]; [by vm_compute|].
  exact (H eq_refl).
Defined.

(** ** Reading makes a runner a subscriber *)

(** X5. A runner that has read a signal since it last dropped its
    dependencies is entered again by the next [set] of that signal to a
    different value. *)
Theorem X5_read_then_set_reruns code fuel r s v w o w' :
  consistent w → SrcSig s ∈ live r (trace w) →
  is_function v = false → strict_eq (value_of s w) v = false →
  sig_set (call code fuel) s v w = Done o w' →
  runs r (trace w) < runs r (trace w').
Proof.
  intros C Hlive Hv Hne H.
  rewrite <- (wf_history _ C) in Hlive. apply (wf_deps_subs _ C) in Hlive.
  assert (s < length (signals w)) as Hs.
  { destruct (decide (s < length (signals w))) as [|Hge]; [done|].
    unfold subs_of in Hlive. rewrite lookup_ge_None_2 in Hlive by lia.
    by apply elem_of_nil in Hlive. }
  destruct (lookup_lt_is_Some_2 _ _ Hs) as [sg Hsg].
  unfold sig_set in H. rewrite Hsg, Hv in H.
  assert (value_of s w = sg_value sg) as Hval by (unfold value_of; by rewrite Hsg).
  rewrite <- Hval, Hne in H.
  destruct (notify _ _ _) as [o3 w3|] eqn:E3; [|done]. simplify_eq.
  rewrite subs_of_set_value in E3.
  destruct (notify_member _ _ _ _ _ _ _ Hlive E3) as (wi & oi & wi' & E & Hi & [t1 H1] & _).
  destruct (extends_trace _ _ E) as [t0 H0].
  assert (trace (set_value s v w) = trace w) as Hw by done. rewrite Hw in H0.
  simpl in Hi. destruct (run_runner_trace_head _ _ _ _ _ _ Hi) as [t Ht].
  rewrite H1, Ht, H0, <- !app_assoc. simpl.
  rewrite (app_assoc (trace w)). eapply Nat.lt_le_trans; [|apply runs_entered].
  rewrite runs_app. lia.
Qed.

(** An effect that logs signal 0:
    [s = createSignal(0); createEffect(() => { log.push(s()); })] *)
Definition client_reader (n : nat) (args : list val) : prog :=
  PCall (VFun (FGet 0)) [] (λ v, PLog v (PRet VUndef)).

Definition script_reader : prog :=
  PNewSignal (VNum 0) (λ s, PNewEffect (VFun (FUser 0)) (λ d, PRet d)).

Definition world_reader : World :=
  world_of (exec client_reader 4 script_reader empty_world).

Definition world_reader_set : World :=
  world_of (sig_set (call client_reader 4) 0 (VNum 1) world_reader).

Lemma consistent_world_reader : consistent world_reader.
Proof.
  apply (exec_consistent client_reader 4 script_reader empty_world
           (Normal (VFun (FDispose 0)))); [apply consistent_empty|by vm_compute].
Qed.

Lemma X5_read_then_set_reruns_witness :
  consistent world_reader
  ∧ SrcSig 0 ∈ live (REffect 0) (trace world_reader)
  ∧ strict_eq (value_of 0 world_reader) (VNum 1) = false
  ∧ sig_set (call client_reader 4) 0 (VNum 1) world_reader
    = Done (Normal (VNum 1)) world_reader_set
  ∧ runs (REffect 0) (trace world_reader) < runs (REffect 0) (trace world_reader_set)
  ∧ log world_reader_set = [VNum 0; VNum 1].
Proof.
  assert (SrcSig 0 ∈ live (REffect 0) (trace world_reader)) as Hl
    by (apply (bool_decide_unpack _); by vm_compute).
  split; [apply consistent_world_reader|]. split; [exact Hl|]. split; [by vm_compute|].
  split; [by vm_compute|]. split; [|by vm_compute].
  apply (X5_read_then_set_reruns client_reader 4 (REffect 0) 0 (VNum 1) world_reader
           (Normal (VNum 1)) world_reader_set consistent_world_reader Hl eq_refl eq_refl).
  by vm_compute.
Defined.

Lemma ensure_maps st prop w :
  is_Some (states w !! st) →
  let '(sig, w') := _ensurePropSignalFor st prop w in
  sigs_of st w' ≫= (λ map, map !! prop) = Some sig ∧ target_of st w' = target_of st w.
Proof.
  intros [x Hx]. unfold _ensurePropSignalFor.
  destruct (default ∅ (sigs_of st w) !! prop) as [sig|] eqn:E.
  - split; [|done]. by destruct (sigs_of st w) as [map|].
  - split.
    + rewrite sigs_of_set_sigs, decide_True by done.
      assert (states (set_propsigs (λ l, l ++ [[]]) w) !! st = Some x) as -> by done.
      simpl. by rewrite lookup_insert_eq.
    + solve_obs.
Qed.

Lemma track_states r k w : states (_trackDependency r k w) = states w.
Proof. by destruct r, k. Qed.

Lemma prop_snapshot_set_target st' f st prop w :
  prop_snapshot st prop (set_target st' f w) = prop_snapshot st prop w.
Proof.
  unfold prop_snapshot.
  assert (sigs_of st (set_target st' f w) = sigs_of st w) as -> by solve_obs.
  done.
Qed.

Lemma notifyGlobal_extends code fuel n st args i w o w' :
  notifyGlobal_from (call code fuel) n st args i w = Done o w' → extends w w'.
Proof.
  intros H.
  eapply (notifyGlobal_from_ok preserved_extends (call code fuel)); [|done|exact H].
  intros f a. apply (call_ok preserved_extends).
Qed.

(** What a write of a different value does to the runners that read the
    property. *)
Lemma handler_set_invokes code fuel loop_fuel r st prop v w o w' :
  is_Some (states w !! st) → SRunner r ∈ prop_snapshot st prop w →
  strict_eq (default VUndef (target_of st w !! prop)) v = false →
  handler_set (call code fuel) loop_fuel st prop v w = Done o w' →
  runs r (trace w) < runs r (trace w').
Proof.
  intros [x Hx] Hin Hne H. unfold handler_set in H. rewrite Hx, Hne in H.
  rewrite notify_prop_snapshot, prop_snapshot_set_target in H.
  destruct (notify _ _ _) as [o2 w2|] eqn:E2; [|done].
  destruct (notifyGlobal _ _ _ _ _ _ _) as [o3 w3|] eqn:E3; [|done]. simplify_eq.
  destruct (notify_member _ _ _ _ _ _ _ Hin E2) as (wi & oi & wi' & E & Hi & [t1 H1] & _).
  destruct (extends_trace _ _ E) as [t0 H0]. simpl in Hi.
  destruct (run_runner_trace_head _ _ _ _ _ _ Hi) as [t Ht].
  destruct (extends_trace _ _ (notifyGlobal_extends _ _ _ _ _ _ _ _ _ E3)) as [t3 H3].
  assert (trace (set_target st (<[prop:=v]>) w) = trace w) as Hw by done.
  rewrite H3, H1, Ht, H0, Hw, <- !app_assoc. simpl.
  rewrite (app_assoc (trace w)). eapply Nat.lt_le_trans; [|apply runs_entered].
  rewrite runs_app. lia.
Qed.

(** X6. Reading a property through the proxy while a runner is executing,
    under a name that neither the proxy intercepts nor [Object.prototype]
    defines, returns the target's value, [undefined] when the target has
    no such property, and makes the runner a subscriber of that property,
    present or not.  Every later write of a different value to the
    property enters each runner subscribed to it. *)
Theorem X6_property_read_subscribes code fuel loop_fuel r st prop w :
  consistent w → active w = Some r → is_Some (states w !! st) → reserved prop = false →
  inherited prop = false →
  (∃ w1, handler_get st prop w = Done (Normal (default VUndef (target_of st w !! prop))) w1
         ∧ SRunner r ∈ prop_snapshot st prop w1
         ∧ target_of st w1 = target_of st w)
  ∧ (∀ v w2 o w', is_Some (states w2 !! st) → SRunner r ∈ prop_snapshot st prop w2 →
       strict_eq (default VUndef (target_of st w2 !! prop)) v = false →
       handler_set (call code fuel) loop_fuel st prop v w2 = Done o w' →
       runs r (trace w2) < runs r (trace w')).
Proof.
  intros C Ha Hst Hres _. split; [|intros v w2 o w'; apply handler_set_invokes].
  unfold reserved in Hres. apply orb_false_elim in Hres as [Hres H3].
  apply orb_false_elim in Hres as [H1 H2].
  exists (track_prop r st prop w).
  pose proof (ensure_maps st prop w Hst) as Hm.
  pose proof (consistent_ensure st prop w) as Hc.
  assert (reserved prop = false) as Hres by (unfold reserved; by rewrite H1, H2, H3).
  specialize (Hc Hres C).
  assert (target_of st (track_prop r st prop w) = target_of st w) as Ht.
  { unfold track_prop. destruct (_ensurePropSignalFor st prop w) as [sig w1].
    destruct Hm as [_ <-]. unfold target_of. by rewrite track_states. }
  split_and!.
  - unfold handler_get. destruct Hst as [x Hx]. rewrite Hx, H1, H2, H3, Ha.
    fold (track_prop r st prop w). by rewrite Ht.
  - unfold track_prop, prop_snapshot. destruct (_ensurePropSignalFor st prop w) as [sig w1].
    destruct Hm as [Hm _]. destruct Hc as [_ Hsig].
    assert (sigs_of st (_trackDependency r (SrcProp sig) w1) = sigs_of st w1) as ->.
    { unfold sigs_of. by rewrite track_states. }
    rewrite Hm. apply track_subs; [done|]. by left.
  - exact Ht.
Qed.

(** An effect that logs [state.y] of a state that has no [y]:
    [state = $state({}); createEffect(() => { log.push(state.y); })] *)
Definition client_missing (n : nat) (args : list val) : prog :=
  PStateGet 0 "y" (λ v, PLog v (PRet VUndef)).

Definition script_missing : prog :=
  PNewState ∅ (λ st, PNewEffect (VFun (FUser 0)) (λ d, PRet d)).

Definition world_missing : World :=
  world_of (exec client_missing 4 script_missing empty_world).

(** The store in which the function of the effect starts its first run. *)
Definition world_missing_inside : World :=
  push (REffect 0)
    (set_cleanup (REffect 0) VNull
       (unsubscribe_deps (REffect 0)
          (emit (EvRun (REffect 0))
             (alloc_effect (VFun (FUser 0)) (snd (create_state ∅ empty_world)))))).

Definition world_missing_set : World :=
  world_of (handler_set (call client_missing 4) 3 0 "y" (VNum 1) world_missing).

Lemma consistent_world_missing_inside : consistent world_missing_inside.
Proof.
  pose proof preserved_consistent as PC.
  apply consistent_push; [by vm_compute|].
  apply (pr_cleanup _ _ _ PC). apply consistent_unsub.
  apply (pr_run _ _ _ PC); [done|].
  apply (pr_alloc_effect _ _ _ PC). apply (pr_alloc_state _ _ _ PC). apply consistent_empty.
Qed.

Lemma X6_property_read_subscribes_witness :
  consistent world_missing_inside
  ∧ active world_missing_inside = Some (REffect 0)
  ∧ is_Some (states world_missing_inside !! 0)
  ∧ reserved "y" = false
  ∧ inherited "y" = false
  ∧ (∃ w1, handler_get 0 "y" world_missing_inside = Done (Normal VUndef) w1
           ∧ SRunner (REffect 0) ∈ prop_snapshot 0 "y" w1
           ∧ target_of 0 w1 = target_of 0 world_missing_inside)
  ∧ is_Some (states world_missing !! 0)
  ∧ SRunner (REffect 0) ∈ prop_snapshot 0 "y" world_missing
  ∧ handler_set (call client_missing 4) 3 0 "y" (VNum 1) world_missing
    = Done (Normal (VBool true)) world_missing_set
  ∧ runs (REffect 0) (trace world_missing) < runs (REffect 0) (trace world_missing_set)
  ∧ log world_missing_set = [VUndef; VNum 1].
Proof.
  assert (is_Some (states world_missing_inside !! 0)) as Hs by (by eexists).
  assert (is_Some (states world_missing !! 0)) as Hs2 by (by eexists).
  assert (SRunner (REffect 0) ∈ prop_snapshot 0 "y" world_missing) as Hin
    by (apply (bool_decide_unpack _); by vm_compute).
  destruct (X6_property_read_subscribes client_missing 4 3 (REffect 0) 0 "y"
              world_missing_inside consistent_world_missing_inside eq_refl Hs eq_refl eq_refl)
    as [H1 H2].
  split; [apply consistent_world_missing_inside|]. split; [done|]. split; [exact Hs|].
  split; [done|]. split; [done|]. split; [exact H1|]. split; [exact Hs2|]. split; [exact Hin|].
  split; [by vm_compute|]. split; [|by vm_compute].
  apply (H2 (VNum 1) world_missing (Normal (VBool true)) world_missing_set Hs2 Hin eq_refl).
  by vm_compute.
Defined.

(** ** A runner without dependencies, and the getter of a computed value *)

Lemma detached_without_deps r w :
  consistent w → runner_exists r w = true → r ∉ EFFECT_STACK w → deps_of r w = [] →
  detached r w.
Proof.
  intros C Hex Hst Hd. split; [done|done|].
  intros k Hin. apply (wf_subs_deps _ C) in Hin. rewrite Hd in Hin.
  by apply elem_of_nil in Hin.
Qed.

(** X7. The getter of a computed value that is not dirty returns the
    cached value and leaves the store untouched: it registers no
    dependency for the runner that calls it.  An effect that is not
    executing and has no dependency, for instance because its function
    only called such getters, is never entered again, whatever is
    written later. *)
Theorem X7_effect_without_dependencies_never_reruns code e w :
  let r := REffect e in
  consistent w → runner_exists r w = true → r ∉ EFFECT_STACK w → deps_of r w = [] →
  (∀ call c w0, c < length (computeds w0) → dirty_of c w0 = false →
     computed_get call c w0 = Done (Normal (cached_of c w0)) w0)
  ∧ (∀ fuel p o w', exec code fuel p w = Done o w' → runs r (trace w') = runs r (trace w))
  ∧ (∀ fuel f args o w',
       call code fuel f args w = Done o w' → runs r (trace w') = runs r (trace w)).
Proof.
  intros r C Hex Hst Hd.
  pose proof (detached_without_deps r w C Hex Hst Hd) as D.
  pose proof (preserved_detached e) as PD. simpl in PD. fold r in PD.
  split_and!.
  - intros cl c w0 Hc Hclean. destruct (lookup_lt_is_Some_2 _ _ Hc) as [cp Hcp].
    unfold computed_get, dirty_of, cached_of in *. rewrite Hcp in *. simpl in Hclean.
    by rewrite Hclean.
  - intros fuel p o w' H.
    by destruct (exec_ok PD code fuel p _ _ _ (conj C D) H) as [_ [_ ?]].
  - intros fuel f args o w' H.
    by destruct (call_ok PD code fuel f args _ _ _ (conj C D) H) as [_ [_ ?]].
Qed.

(** [s = createSignal(1); c = createComputed(() => s() * 2);
    createEffect(() => { log.push(c()); })] *)
Definition client_stale (n : nat) (args : list val) : prog :=
  match n with
  | 0 => PCall (VFun (FComputed 0)) [] (λ v, PLog v (PRet VUndef))
  | _ => PCall (VFun (FGet 0)) [] (λ v, PRet (dbl v))
  end.

Definition script_stale : prog :=
  PNewSignal (VNum 1) (λ s,
    PNewComputed (VFun (FUser 1)) (λ c,
      PNewEffect (VFun (FUser 0)) (λ d, PRet d))).

Definition world_stale : World :=
  world_of (exec client_stale 5 script_stale empty_world).

(** [set(5); return c()] *)
Definition script_stale_set : prog :=
  PCall (VFun (FSet 0)) [VNum 5] (λ _, PCall (VFun (FComputed 0)) [] (λ v, PRet v)).

Definition world_stale_set : World :=
  world_of (exec client_stale 5 script_stale_set world_stale).

Lemma consistent_world_stale : consistent world_stale.
Proof.
  apply (exec_consistent client_stale 5 script_stale empty_world
           (Normal (VFun (FDispose 0)))); [apply consistent_empty|by vm_compute].
Qed.

Lemma X7_effect_without_dependencies_never_reruns_witness :
  consistent world_stale
  ∧ runner_exists (REffect 0) world_stale = true
  ∧ (REffect 0 ∉ EFFECT_STACK world_stale)
  ∧ deps_of (REffect 0) world_stale = []
  ∧ exec client_stale 5 script_stale_set world_stale = Done (Normal (VNum 10)) world_stale_set
  ∧ runs (REffect 0) (trace world_stale_set) = runs (REffect 0) (trace world_stale)
  ∧ log world_stale_set = [VNum 2].
Proof.
  assert (REffect 0 ∉ EFFECT_STACK world_stale) as Hst
    by (apply (bool_decide_unpack _); by vm_compute).
  destruct (X7_effect_without_dependencies_never_reruns client_stale 0 world_stale
              consistent_world_stale eq_refl Hst eq_refl) as (_ & H & _).
  split; [apply consistent_world_stale|]. split; [done|]. split; [exact Hst|].
  split; [done|]. split; [by vm_compute|]. split; [|by vm_compute].
  apply (H 5 script_stale_set (Normal (VNum 10))). by vm_compute.
Defined.

(** ** Deleting a property drops its subscribers for good *)

Lemma members_nil_no_callback l fn : members l = [] → Some fn ∉ l.
Proof.
  unfold members. induction l as [|[x|] l IH]; simpl; intros H Hin.
  - by apply elem_of_nil in Hin.
  - done.
  - apply elem_of_cons in Hin as [?|Hin]; [done|]. by apply IH.
Qed.

(** Without a global subscriber [notifyGlobal] calls nobody. *)
Lemma notifyGlobal_nobody call loop_fuel st key old new w :
  members (globalSubs_of st w) = [] → length (globalSubs_of st w) < loop_fuel →
  notifyGlobal call loop_fuel st key old new w = Done (Normal VUndef) w.
Proof.
  intros Hm Hlen. unfold notifyGlobal.
  rewrite notifyGlobal_from_stable; [by rewrite drop_0, Hm| |lia].
  intros fn w0 o w1 Hin. by destruct (members_nil_no_callback _ fn Hm).
Qed.

Lemma states_discard st prop w :
  length (states (discard_prop_signal st prop w)) = length (states w)
  ∧ target_of st (discard_prop_signal st prop w) = target_of st w
  ∧ globalSubs_of st (discard_prop_signal st prop w) = globalSubs_of st w
  ∧ ∀ k, subs_of k (discard_prop_signal st prop w) = subs_of k w.
Proof.
  unfold discard_prop_signal. destruct (sigs_of st w); [|done].
  split_and!; [solve_obs|solve_obs|solve_obs|intros []; solve_obs].
Qed.







(** ** The global subscribers of a state are iterated live *)

(** X9. [notifyGlobal] iterates [globalSubs] itself, not a copy: the
    callback it calls next is taken from the set as the previous callback
    left it.  A callback subscribed by the last callback of the pass is
    called in the same pass, with the same arguments; a callback that the
    previous one unsubscribed is not called. *)
Theorem X9_global_subscribers_iterated_live code fuel n st args i w f o1 w1 :
  globalSubs_of st w !! i = Some (Some f) →
  try_console [] (call code fuel f args w) = Done o1 w1 →
  (∀ g, S i = length (globalSubs_of st w) →
     globalSubs_of st w1 = globalSubs_of st w ++ [Some g] →
     notifyGlobal_from (call code fuel) (S (S n)) st args i w
     = match try_console [] (call code fuel g args w1) with
       | OutOfFuel => OutOfFuel
       | Done _ w2 => notifyGlobal_from (call code fuel) n st args (S (S i)) w2
       end)
  ∧ (∀ h, globalSubs_of st w !! S i = Some (Some h) →
       globalSubs_of st w1 = slots_delete h (globalSubs_of st w) →
       notifyGlobal_from (call code fuel) (S (S n)) st args i w
       = notifyGlobal_from (call code fuel) n st args (S (S i)) w1).
Proof.
  intros Hi Hf. split.
  - intros g Hlen Hg. simpl. rewrite Hi, Hf, Hg, Hlen. by rewrite list_lookup_middle.
  - intros h Hh Hg. simpl. rewrite Hi, Hf, Hg. unfold slots_delete.
    rewrite list_lookup_fmap, Hh. simpl. by rewrite bool_decide_eq_true_2.
Qed.

(** Global callbacks of state 0: function 0 subscribes function 1,
    function 2 calls the function that unsubscribes function 3. *)
Definition client_live (n : nat) (args : list val) : prog :=
  match n with
  | 0 => PStateGet 0 "subscribe" (λ subscribe,
           PCall subscribe [VFun (FUser 1)] (λ _, PLog (VStr "f0") (PRet VUndef)))
  | 1 => PLog (VStr "f1") (PRet VUndef)
  | 2 => PCall (VFun (FClosure 3)) [] (λ _, PLog (VStr "f2") (PRet VUndef))
  | _ => PLog (VStr "f3") (PRet VUndef)
  end.

(** [state = $state({x: 0}); state.subscribe(f0)] *)
Definition world_live_add : World :=
  world_of (exec client_live 3
              (PNewState {["x" := VNum 0]} (λ st,
                 PStateGet st "subscribe" (λ subscribe,
                   PCall subscribe [VFun (FUser 0)] (λ _, PRet VUndef))))
              empty_world).

(** [state = $state({x: 0}); state.subscribe(f2); off = state.subscribe(f3)] *)
Definition world_live_delete : World :=
  world_of (exec client_live 3
              (PNewState {["x" := VNum 0]} (λ st,
                 PStateGet st "subscribe" (λ subscribe,
                   PCall subscribe [VFun (FUser 2)] (λ _,
                     PStateGet st "subscribe" (λ subscribe',
                       PCall subscribe' [VFun (FUser 3)] (λ _, PRet VUndef))))))
              empty_world).

Definition args_live : list val := [VStr "x"; VNum 0; VNum 1].

Definition world_live_add_first : World :=
  world_of (call client_live 3 (VFun (FUser 0)) args_live world_live_add).

Definition world_live_delete_first : World :=
  world_of (call client_live 3 (VFun (FUser 2)) args_live world_live_delete).

Lemma X9_global_subscribers_iterated_live_witness :
  (globalSubs_of 0 world_live_add !! 0 = Some (Some (VFun (FUser 0)))
   ∧ try_console [] (call client_live 3 (VFun (FUser 0)) args_live world_live_add)
     = Done (Normal VUndef) world_live_add_first
   ∧ globalSubs_of 0 world_live_add_first
     = globalSubs_of 0 world_live_add ++ [Some (VFun (FUser 1))]
   ∧ notifyGlobal_from (call client_live 3) 3 0 args_live 0 world_live_add
     = match try_console []
               (call client_live 3 (VFun (FUser 1)) args_live world_live_add_first) with
       | OutOfFuel => OutOfFuel
       | Done _ w2 => notifyGlobal_from (call client_live 3) 1 0 args_live 2 w2
       end
   ∧ log (world_of (handler_set (call client_live 3) 4 0 "x" (VNum 1) world_live_add))
     = [VStr "f0"; VStr "f1"])
  ∧ (globalSubs_of 0 world_live_delete !! 0 = Some (Some (VFun (FUser 2)))
     ∧ try_console [] (call client_live 3 (VFun (FUser 2)) args_live world_live_delete)
       = Done (Normal VUndef) world_live_delete_first
     ∧ globalSubs_of 0 world_live_delete !! 1 = Some (Some (VFun (FUser 3)))
     ∧ globalSubs_of 0 world_live_delete_first
       = slots_delete (VFun (FUser 3)) (globalSubs_of 0 world_live_delete)
     ∧ notifyGlobal_from (call client_live 3) 3 0 args_live 0 world_live_delete
       = notifyGlobal_from (call client_live 3) 1 0 args_live 2 world_live_delete_first
     ∧ log (world_of (handler_set (call client_live 3) 4 0 "x" (VNum 1) world_live_delete))
       = [VStr "f2"]).
Proof.
  split.
  - destruct (X9_global_subscribers_iterated_live client_live 3 1 0 args_live 0 world_live_add
                (VFun (FUser 0)) (Normal VUndef) world_live_add_first) as [H _];
      [by vm_compute|by vm_compute|].
    split; [by vm_compute|]. split; [by vm_compute|]. split; [by vm_compute|].
    split; [|by vm_compute]. apply H; by vm_compute.
  - destruct (X9_global_subscribers_iterated_live client_live 3 1 0 args_live 0 world_live_delete
                (VFun (FUser 2)) (Normal VUndef) world_live_delete_first) as [_ H];
      [by vm_compute|by vm_compute|].
    split; [by vm_compute|]. split; [by vm_compute|]. split; [by vm_compute|].
    split; [by vm_compute|]. split; [|by vm_compute].
    apply (H (VFun (FUser 3))); by vm_compute.
Defined.

(** ** [subscribe] of a state takes anything *)

Lemma call_not_a_function code fuel x args w :
  is_function x = false → call code (S fuel) x args w = Done (Thrown type_error) w.
Proof. by destruct x. Qed.

(** X10. [subscribe] of a state proxy does not check its argument: a value
    that is not a function becomes a member of [globalSubs] like any
    other.  Every pass of [notifyGlobal] that reaches it reports a
    [TypeError] with [console.error] and goes on; the write that caused
    the pass, to a property whose name [Object.prototype] does not
    define, succeeds. *)
Theorem X10_state_subscribe_accepts_any_value code fuel loop_fuel st x u w :
  closures w !! u = Some (CStateSubscribe st) → is_Some (states w !! st) →
  is_function x = false →
  ∃ w1,
    call_closure u [x] w = Done (Normal (VFun (FClosure (length (closures w))))) w1
    ∧ globalSubs_of st w1 = slots_add x (globalSubs_of st w)
    ∧ (∀ n i args w0, globalSubs_of st w0 !! i = Some (Some x) →
         notifyGlobal_from (call code (S fuel)) (S n) st args i w0
         = notifyGlobal_from (call code (S fuel)) n st args (S i)
             (emit (EvConsoleError [type_error]) w0))
    ∧ (∀ prop v, inherited prop = false →
         globalSubs_of st w = [] → prop_snapshot st prop w = [] → 1 < loop_fuel →
         strict_eq (default VUndef (target_of st w !! prop)) v = false →
         handler_set (call code (S fuel)) loop_fuel st prop v w1
         = Done (Normal (VBool true))
             (emit (EvConsoleError [type_error]) (set_target st (<[prop := v]>) w1))).
Proof.
  intros Hu [y Hy] Hx.
  set (w1 := alloc_closure (CStateUnsub st x) (set_globalSubs st (slots_add x) w)).
  assert (globalSubs_of st w1 = slots_add x (globalSubs_of st w)) as Hg.
  { unfold w1. solve_obs; by rewrite Hy. }
  assert (∀ n i args w0, globalSubs_of st w0 !! i = Some (Some x) →
            notifyGlobal_from (call code (S fuel)) (S n) st args i w0
            = notifyGlobal_from (call code (S fuel)) n st args (S i)
                (emit (EvConsoleError [type_error]) w0)) as Hstep.
  { intros n i args w0 Hi. cbn [notifyGlobal_from]. rewrite Hi.
    by rewrite call_not_a_function. }
  exists w1. split_and!; [|done|done|].
  - unfold call_closure. by rewrite Hu.
  - intros prop v _ Hnone Hsnap Hfuel Hne.
    assert (∃ y1, states w1 !! st = Some y1) as [y1 Hy1].
    { apply lookup_lt_is_Some_2. unfold w1. unfold_prims; simpl. rewrite length_alter.
      by eapply lookup_lt_Some. }
    assert (target_of st w1 = target_of st w) as Ht.
    { unfold w1. solve_obs; by rewrite Hy. }
    assert (prop_snapshot st prop w1 = []) as Hs1.
    { rewrite <- Hsnap. unfold prop_snapshot, w1.
      assert (sigs_of st (alloc_closure (CStateUnsub st x) (set_globalSubs st (slots_add x) w))
              = sigs_of st w) as -> by (solve_obs; by rewrite Hy).
      destruct (sigs_of st w ≫= _); [|done]. by destruct y1. }
    unfold handler_set. rewrite Hy1, Ht, Hne.
    rewrite notify_prop_snapshot, prop_snapshot_set_target, Hs1. simpl.
    unfold notifyGlobal. destruct loop_fuel as [|[|n]]; [lia|lia|].
    set (w2 := set_target st (<[prop:=v]>) w1).
    assert (globalSubs_of st w2 = [Some x]) as Hg2.
    { unfold w2. assert (globalSubs_of st (set_target st (<[prop:=v]>) w1) = globalSubs_of st w1)
        as -> by solve_obs. by rewrite Hg, Hnone. }
    rewrite Hstep by (by rewrite Hg2). cbn [notifyGlobal_from].
    by rewrite globalSubs_emit, Hg2.
Qed.

(** [state = $state({x: 0}); subscribe = state.subscribe] *)
Definition world_any : World :=
  world_of (exec client_state 2
              (PNewState {["x" := VNum 0]} (λ st, PStateGet st "subscribe" (λ f, PRet f)))
              empty_world).

Lemma X10_state_subscribe_accepts_any_value_witness :
  closures world_any !! 0 = Some (CStateSubscribe 0)
  ∧ is_Some (states world_any !! 0)
  ∧ inherited "x" = false
  ∧ ∃ w1,
      call_closure 0 [VNum 42] world_any = Done (Normal (VFun (FClosure 1))) w1
      ∧ globalSubs_of 0 w1 = [Some (VNum 42)]
      ∧ handler_set (call client_state 1) 2 0 "x" (VNum 1) w1
        = Done (Normal (VBool true))
            (emit (EvConsoleError [type_error]) (set_target 0 (<["x" := VNum 1]>) w1)).
Proof.
  assert (is_Some (states world_any !! 0)) as Hs by (by eexists).
  split; [by vm_compute|]. split; [exact Hs|]. split; [done|].
  destruct (X10_state_subscribe_accepts_any_value client_state 0 2 0 (VNum 42) 0 world_any)
    as (w1 & H1 & H2 & _ & H4); [by vm_compute|exact Hs|done|].
  exists w1. split; [exact H1|]. split; [exact H2|].
  apply H4; [done|by vm_compute|by vm_compute|lia|by vm_compute].
Defined.

(** ** Disposing twice *)

Lemma cleanup_of_unsubscribe r r' w :
  cleanup_of r (unsubscribe_deps r' w) = cleanup_of r w.
Proof.
  unfold unsubscribe_deps. destruct (EFFECT_DEPS_get r' w) as [d|]; [|done].
  destruct (unsub_loop_frame r' d w) as (_ & _ & E3 & E4 & _).
  remember (foldl _ _ d) as wl eqn:Hwl. clear Hwl.
  destruct r, r'; unfold cleanup_of; unfold_prims; simpl;
    rewrite ?E3, ?E4, ?from_option_alter; by repeat case_decide.
Qed.

Lemma cleanup_of_set_cleanup r v w :
  runner_exists r w = true → cleanup_of r (set_cleanup r v w) = v.
Proof.
  intros Hex. destruct r as [e|c]; unfold runner_exists in Hex;
    apply bool_decide_eq_true in Hex; destruct (lookup_lt_is_Some_2 _ _ Hex) as [x Hx];
    unfold cleanup_of; unfold_prims; simpl; by rewrite list_lookup_alter_eq, Hx.
Qed.

Lemma runner_exists_set_cleanup r r' v w :
  runner_exists r (set_cleanup r' v w) = runner_exists r w.
Proof. destruct r, r'; unfold runner_exists; unfold_prims; simpl; by rewrite ?length_alter. Qed.

(** X11. The disposer never throws, and the cleanup of an effect is
    called by at most one call of its disposer: once a call of the
    disposer has returned the effect has no cleanup, and a further call
    of the disposer calls no function at all; it only drops the
    dependencies the runner may have. *)
Theorem X11_dispose_twice_runs_cleanup_once code fuel e w o w1 :
  let r := REffect e in
  runner_exists r w = true →
  dispose (call code fuel) e w = Done o w1 →
  o = Normal VUndef
  ∧ cleanup_of r w1 = VNull
  ∧ ∀ call',
      dispose call' e w1 = Done (Normal VUndef) (set_cleanup r VNull (unsubscribe_deps r w1))
      ∧ trace (set_cleanup r VNull (unsubscribe_deps r w1)) = trace w1 ++ [EvUnsub r]
      ∧ log (set_cleanup r VNull (unsubscribe_deps r w1)) = log w1.
Proof.
  intros r Hex H. unfold dispose in H. fold r in H. rewrite Hex in H.
  set (wu := unsubscribe_deps r w) in *.
  destruct (try_console [] (run_cleanup (call code fuel) r wu)) as [o2 w2|] eqn:E2; [|done].
  simplify_eq.
  pose proof preserved_extends as PE.
  pose proof (res_ok_try_console PE [] _
                (run_cleanup_ok PE (call code fuel) (call_ok PE code fuel) r)
                wu o2 w2 I E2) as [_ E].
  assert (runner_exists r w2 = true) as Hex2.
  { eapply (pr_exists _ _ _ PE); [exact E|]. eapply (pr_exists _ _ _ PE); [|exact Hex].
    apply extends_unsub. }
  split_and!; [done|by apply cleanup_of_set_cleanup|]. intros call'.
  set (w1 := set_cleanup r VNull w2).
  assert (cleanup_of r (unsubscribe_deps r w1) = VNull) as Hcl.
  { rewrite cleanup_of_unsubscribe. by apply cleanup_of_set_cleanup. }
  split_and!.
  - unfold dispose. fold r. unfold w1 at 1. rewrite runner_exists_set_cleanup, Hex2.
    unfold run_cleanup. fold w1. by rewrite Hcl.
  - destruct (unsub_frame r w1) as (T & _). rewrite <- T. by destruct r.
  - unfold unsubscribe_deps. destruct (EFFECT_DEPS_get r w1) as [d|]; [|done].
    destruct (unsub_loop_frame r d w1) as (_ & _ & _ & _ & _ & _ & _ & L & _).
    rewrite <- L. by destruct r.
Qed.

Definition world_disposed_again : World :=
  world_of (dispose (call client_cleanup 3) 0 world_disposed).

Lemma X11_dispose_twice_runs_cleanup_once_witness :
  runner_exists (REffect 0) world_cleanup = true
  ∧ dispose (call client_cleanup 3) 0 world_cleanup = Done (Normal VUndef) world_disposed
  ∧ is_function (cleanup_of (REffect 0) world_cleanup) = true
  ∧ cleanup_of (REffect 0) world_disposed = VNull
  ∧ dispose (call client_cleanup 3) 0 world_disposed = Done (Normal VUndef) world_disposed_again
  ∧ trace world_disposed_again = trace world_disposed ++ [EvUnsub (REffect 0)]
  ∧ log world_disposed_again = log world_disposed.
Proof.
  destruct (X11_dispose_twice_runs_cleanup_once client_cleanup 3 0 world_cleanup
              (Normal VUndef) world_disposed eq_refl) as (_ & H2 & H3); [by vm_compute|].
  destruct (H3 (call client_cleanup 3)) as (H4 & H5 & H6).
  split; [done|]. split; [by vm_compute|]. split; [by vm_compute|]. split; [exact H2|].
  split; [by vm_compute|]. split; by vm_compute.
Defined.

(** ** Creating an effect or a computed value *)

(** The store in which [createEffect(fn)] calls [fn] for the first
    time. *)
Definition effect_creation_store (fn : val) (w : World) : World :=
  let r := REffect (length (effects w)) in
  push r (set_cleanup r VNull (unsubscribe_deps r (emit (EvRun r) (alloc_effect fn w)))).

Lemma effect_creation_store_eq fn w :
  let r := REffect (length (effects w)) in
  effect_creation_store fn w
  = push r (set_cleanup r VNull (emit (EvUnsub r) (emit (EvRun r) (alloc_effect fn w)))).
Proof.
  intros r. unfold effect_creation_store. fold r. do 2 f_equal.
  unfold unsubscribe_deps, EFFECT_DEPS_get, r, emit, set_trace, alloc_effect, set_effects; simpl.
  by rewrite list_lookup_middle.
Qed.

(** The first run of an effect: nothing to unsubscribe, no cleanup. *)
Lemma createEffect_first_run call fn w :
  is_function fn = true →
  createEffect call fn w
  = match call fn [] (effect_creation_store fn w) with
    | OutOfFuel => OutOfFuel
    | Done (Normal v) w4 =>
        Done (Normal (VFun (FDispose (length (effects w)))))
          (pop (if is_function v then set_cleanup (REffect (length (effects w))) v w4 else w4))
    | Done (Thrown err) w4 =>
        Done (Normal (VFun (FDispose (length (effects w)))))
          (pop (emit (EvConsoleError [VStr "createEffect error"; err]) w4))
    end.
Proof.
  intros Hfn. unfold createEffect, effect_runner. rewrite Hfn.
  rewrite effect_creation_store_eq.
  remember (length (effects w)) as e eqn:He.
  remember (alloc_effect fn w) as wa eqn:Hwa.
  assert (effects wa !! e = Some {| ef_fn := fn; ef_cleanup := VNull; ef_deps := None |}) as Hl.
  { subst; unfold_prims; simpl. by rewrite list_lookup_middle. }
  assert (runner_exists (REffect e) (emit (EvRun (REffect e)) wa) = true) as ->.
  { apply bool_decide_eq_true. unfold emit, set_trace; simpl. by eapply lookup_lt_Some. }
  assert (unsubscribe_deps (REffect e) (emit (EvRun (REffect e)) wa)
          = emit (EvUnsub (REffect e)) (emit (EvRun (REffect e)) wa)) as ->.
  { unfold unsubscribe_deps, EFFECT_DEPS_get, emit, set_trace; simpl. by rewrite Hl. }
  assert (cleanup_of (REffect e)
            (emit (EvUnsub (REffect e)) (emit (EvRun (REffect e)) wa)) = VNull) as Hcl.
  { unfold cleanup_of, emit, set_trace; simpl. by rewrite Hl. }
  unfold run_cleanup. rewrite Hcl. simpl.
  assert (fn_of (REffect e)
            (push (REffect e) (set_cleanup (REffect e) VNull
               (emit (EvUnsub (REffect e)) (emit (EvRun (REffect e)) wa)))) = fn) as ->.
  { unfold fn_of. unfold_prims; simpl. rewrite list_lookup_alter_eq. by rewrite Hl. }
  by destruct (call fn [] _) as [[v|err] w4|].
Qed.

Lemma effect_creation_store_trace fn w :
  trace (effect_creation_store fn w)
  = trace w ++ [EvRun (REffect (length (effects w))); EvUnsub (REffect (length (effects w)))].
Proof.
  rewrite effect_creation_store_eq. unfold_prims; simpl. by rewrite <- app_assoc.
Qed.

(** X12. [createEffect] throws exactly when its argument is not a
    function, and then nothing has been created.  With a function it runs
    the function at once, before it returns, with the new runner on top of
    [EFFECT_STACK]; it returns the disposer of the new effect whether the
    function returned or threw, and in the latter case the exception has
    been reported with [console.error]. *)
Theorem X12_createEffect_runs_at_once code fuel fn w :
  (is_function fn = false →
     createEffect (call code fuel) fn w
     = Done (Thrown (VStr "createEffect: fn must be a function")) w)
  ∧ (∀ f o w', fn = VFun f → createEffect (call code fuel) fn w = Done o w' →
       let e := length (effects w) in
       o = Normal (VFun (FDispose e))
       ∧ EFFECT_STACK w' = EFFECT_STACK w
       ∧ active (effect_creation_store fn w) = Some (REffect e)
       ∧ ∃ o4 w4 t,
           call code fuel fn [] (effect_creation_store fn w) = Done o4 w4
           ∧ trace w4 = trace w ++ EvRun (REffect e) :: EvUnsub (REffect e) :: EvCall f [] :: t
           ∧ (∃ t', trace w' = trace w4 ++ t')
           ∧ (∀ err, o4 = Thrown err →
                trace w' = trace w4 ++ [EvConsoleError [VStr "createEffect error"; err]]
                ∧ cleanup_of (REffect e) w' = cleanup_of (REffect e) w4)).
Proof.
  split.
  - intros Hfn. unfold createEffect. by rewrite Hfn.
  - intros f o w' -> H e. rewrite createEffect_first_run in H by done. fold e in H.
    destruct (call code fuel (VFun f) [] _) as [o4 w4|] eqn:E4; [|done].
    pose proof (call_extends _ _ _ _ _ _ _ E4) as Ext.
    destruct (call_trace_head _ _ _ _ _ _ _ E4) as [t Ht].
    rewrite effect_creation_store_trace in Ht. fold e in Ht.
    assert (EFFECT_STACK w4 = REffect e :: EFFECT_STACK w) as Hst.
    { rewrite (extends_stack _ _ Ext). rewrite effect_creation_store_eq. by unfold_prims. }
    assert (∀ w0, EFFECT_STACK w0 = REffect e :: EFFECT_STACK w →
              EFFECT_STACK (pop w0) = EFFECT_STACK w) as Hpop.
    { intros w0 H0. unfold pop, set_stack; simpl. by rewrite H0. }
    assert (active (effect_creation_store (VFun f) w) = Some (REffect e)) as Hact.
    { rewrite effect_creation_store_eq. by unfold_prims. }
    destruct o4 as [v|err]; simplify_eq.
    + split_and!; [done| |done|].
      * apply Hpop. by destruct (is_function v), e.
      * exists (Normal v), w4, t. split_and!; [done|by rewrite Ht, <- app_assoc| |done].
        exists []. rewrite app_nil_r. by destruct (is_function v).
    + split_and!; [done|by apply Hpop|done|].
      exists (Thrown err), w4, t. split_and!; [done|by rewrite Ht, <- app_assoc|by eexists|].
      intros err' [= <-]. done.
Qed.

(** [createEffect(() => { throw "bang"; })], with function 1 of
    [client_faulty]. *)
Definition world_faulty_effect : World :=
  world_of (createEffect (call client_faulty 2) (VFun (FUser 1)) empty_world).

Lemma X12_createEffect_runs_at_once_witness :
  createEffect (call client_faulty 2) (VNum 7) empty_world
  = Done (Thrown (VStr "createEffect: fn must be a function")) empty_world
  ∧ createEffect (call client_faulty 2) (VFun (FUser 1)) empty_world
    = Done (Normal (VFun (FDispose 0))) world_faulty_effect
  ∧ EFFECT_STACK world_faulty_effect = []
  ∧ trace world_faulty_effect
    = [EvRun (REffect 0); EvUnsub (REffect 0); EvCall (FUser 1) [];
       EvConsoleError [VStr "createEffect error"; VStr "bang"]].
Proof.
  destruct (X12_createEffect_runs_at_once client_faulty 2 (VNum 7) empty_world) as [H1 _].
  destruct (X12_createEffect_runs_at_once client_faulty 2 (VFun (FUser 1)) empty_world) as [_ H2].
  destruct (H2 (FUser 1) (Normal (VFun (FDispose 0))) world_faulty_effect eq_refl)
    as (_ & H3 & _); [by vm_compute|].
  split; [exact (H1 eq_refl)|]. split; [by vm_compute|]. split; [exact H3|]. by vm_compute.
Defined.

Lemma calls_cons_same f args t : calls f (EvCall f args :: t) = S (calls f t).
Proof.
  unfold calls. rewrite filter_cons. simpl. by rewrite bool_decide_eq_true_2.
Qed.

(** A run of [recompute] calls the function of the computed value. *)
Lemma recompute_calls_fn code fuel c w o w' f :
  runner_exists (RComputed c) w = true → fn_of (RComputed c) w = VFun f →
  recompute (call code fuel) c w = Done o w' →
  o = Normal VUndef
  ∧ calls f (trace w) < calls f (trace w')
  ∧ ∃ t, trace w' = trace w ++ EvRun (RComputed c) :: EvUnsub (RComputed c) :: t.
Proof.
  intros Hex Hfn H. unfold recompute in H. pose proof preserved_extends as PE.
  set (r := RComputed c) in *. set (w0 := emit (EvRun r) w) in *.
  assert (runner_exists r w0 = true) as Hex0 by done. rewrite Hex0 in H.
  set (w1 := unsubscribe_deps r w0) in *.
  assert (trace w1 = trace w ++ [EvRun r; EvUnsub r]) as T1.
  { destruct (unsub_frame r w0) as (T & _). unfold w1. rewrite T.
    unfold w0, emit, set_trace; simpl. by rewrite <- app_assoc. }
  assert (extends w w1) as E01.
  { eapply extends_trans; [by apply (pr_run _ _ _ PE r w I)|apply extends_unsub]. }
  destruct (try_silent (run_cleanup (call code fuel) r w1)) as [o2 w2|] eqn:E2; [|done].
  pose proof (res_ok_try_silent _
                (run_cleanup_ok PE (call code fuel) (call_ok PE code fuel) r)
                w1 o2 w2 I E2) as [_ E12].
  set (w3 := push r (set_cleanup r VNull w2)) in *.
  assert (extends w (set_cleanup r VNull w2)) as E02.
  { eapply extends_trans; [exact E01|]. eapply extends_trans; [exact E12|].
    by apply (pr_cleanup _ _ _ PE). }
  assert (fn_of r w3 = VFun f) as Hfn3.
  { rewrite <- Hfn. destruct E02 as (_ & _ & _ & _ & F & _). by rewrite <- (F r Hex). }
  rewrite Hfn3 in H.
  destruct (extends_trace _ _ E12) as [tc Htc].
  assert (trace w3 = trace w ++ [EvRun r; EvUnsub r] ++ tc) as T3.
  { assert (trace w3 = trace w2) as -> by done. rewrite Htc, T1. by rewrite <- app_assoc. }
  destruct (call code fuel (VFun f) [] w3) as [o4 w4|] eqn:E4; [|done].
  destruct (call_trace_head _ _ _ _ _ _ _ E4) as [tb Htb].
  assert (∃ te, trace w' = trace w4 ++ te ∧ o = Normal VUndef) as (te & Hte & Ho).
  { destruct o4 as [v|err]; simplify_eq.
    - exists []. rewrite app_nil_r. split; [|done]. by destruct (is_function v).
    - by eexists. }
  split; [done|]. rewrite Hte, Htb, T3. split.
  - rewrite !calls_app, calls_cons_same. lia.
  - simpl. rewrite <- !app_assoc. simpl. by eexists.
Qed.

(** The first run of a computed value: nothing to unsubscribe, no
    cleanup. *)
Lemma createComputed_first_run call fn w :
  is_function fn = true →
  createComputed call fn w
  = match call fn [] (creation_store fn w) with
    | OutOfFuel => OutOfFuel
    | Done (Normal v) w4 =>
        Done (Normal (VFun (FComputed (length (computeds w)))))
          (pop (set_dirty (length (computeds w)) false
                  (if is_function v then set_cleanup (RComputed (length (computeds w))) v w4
                   else set_cached (length (computeds w)) v w4)))
    | Done (Thrown err) w4 =>
        Done (Normal (VFun (FComputed (length (computeds w)))))
          (pop (emit (EvConsoleError [VStr "createComputed error"; err]) w4))
    end.
Proof.
  intros Hfn.
  destruct (call fn [] (creation_store fn w)) as [[v|err] w4|] eqn:E.
  - by apply createComputed_returns.
  - unfold createComputed, recompute. rewrite Hfn. unfold creation_store in E.
    remember (length (computeds w)) as c eqn:Hc.
    remember (alloc_computed fn w) as wa eqn:Hwa.
    assert (computeds wa !! c
            = Some {| cp_fn := fn; cp_cached := VUndef; cp_dirty := true;
                      cp_cleanup := VNull; cp_deps := None |}) as Hl.
    { subst; unfold_prims; simpl. by rewrite list_lookup_middle. }
    assert (runner_exists (RComputed c) (emit (EvRun (RComputed c)) wa) = true) as ->.
    { apply bool_decide_eq_true. unfold emit, set_trace; simpl. by eapply lookup_lt_Some. }
    assert (unsubscribe_deps (RComputed c) (emit (EvRun (RComputed c)) wa)
            = emit (EvUnsub (RComputed c)) (emit (EvRun (RComputed c)) wa)) as Hu.
    { unfold unsubscribe_deps, EFFECT_DEPS_get, emit, set_trace; simpl. by rewrite Hl. }
    rewrite Hu in *.
    assert (cleanup_of (RComputed c)
              (emit (EvUnsub (RComputed c)) (emit (EvRun (RComputed c)) wa)) = VNull) as Hcl.
    { unfold cleanup_of, emit, set_trace; simpl. by rewrite Hl. }
    unfold run_cleanup. rewrite Hcl. simpl.
    assert (fn_of (RComputed c)
              (push (RComputed c) (set_cleanup (RComputed c) VNull
                 (emit (EvUnsub (RComputed c)) (emit (EvRun (RComputed c)) wa)))) = fn) as ->.
    { unfold fn_of. unfold_prims; simpl. rewrite list_lookup_alter_eq. by rewrite Hl. }
    by rewrite E.
  - unfold createComputed, recompute. rewrite Hfn. unfold creation_store in E.
    remember (length (computeds w)) as c eqn:Hc.
    remember (alloc_computed fn w) as wa eqn:Hwa.
    assert (computeds wa !! c
            = Some {| cp_fn := fn; cp_cached := VUndef; cp_dirty := true;
                      cp_cleanup := VNull; cp_deps := None |}) as Hl.
    { subst; unfold_prims; simpl. by rewrite list_lookup_middle. }
    assert (runner_exists (RComputed c) (emit (EvRun (RComputed c)) wa) = true) as ->.
    { apply bool_decide_eq_true. unfold emit, set_trace; simpl. by eapply lookup_lt_Some. }
    assert (unsubscribe_deps (RComputed c) (emit (EvRun (RComputed c)) wa)
            = emit (EvUnsub (RComputed c)) (emit (EvRun (RComputed c)) wa)) as Hu.
    { unfold unsubscribe_deps, EFFECT_DEPS_get, emit, set_trace; simpl. by rewrite Hl. }
    rewrite Hu in *.
    assert (cleanup_of (RComputed c)
              (emit (EvUnsub (RComputed c)) (emit (EvRun (RComputed c)) wa)) = VNull) as Hcl.
    { unfold cleanup_of, emit, set_trace; simpl. by rewrite Hl. }
    unfold run_cleanup. rewrite Hcl. simpl.
    assert (fn_of (RComputed c)
              (push (RComputed c) (set_cleanup (RComputed c) VNull
                 (emit (EvUnsub (RComputed c)) (emit (EvRun (RComputed c)) wa)))) = fn) as ->.
    { unfold fn_of. unfold_prims; simpl. rewrite list_lookup_alter_eq. by rewrite Hl. }
    by rewrite E.
Qed.

Lemma creation_store_fn fn w :
  fn_of (RComputed (length (computeds w))) (creation_store fn w) = fn.
Proof.
  unfold creation_store.
  remember (length (computeds w)) as c eqn:Hc.
  remember (alloc_computed fn w) as wa eqn:Hwa.
  assert (computeds wa !! c
          = Some {| cp_fn := fn; cp_cached := VUndef; cp_dirty := true;
                    cp_cleanup := VNull; cp_deps := None |}) as Hl.
  { subst; unfold_prims; simpl. by rewrite list_lookup_middle. }
  assert (unsubscribe_deps (RComputed c) (emit (EvRun (RComputed c)) wa)
          = emit (EvUnsub (RComputed c)) (emit (EvRun (RComputed c)) wa)) as ->.
  { unfold unsubscribe_deps, EFFECT_DEPS_get, emit, set_trace; simpl. by rewrite Hl. }
  unfold fn_of. unfold_prims; simpl. rewrite list_lookup_alter_eq. by rewrite Hl.
Qed.

(** X13. When the function of a computed value throws during
    [createComputed], the exception is reported with [console.error] and
    the getter is returned all the same; [cached] and [dirty] stay as the
    function left them.  Whenever a computed value is dirty, a call of its
    getter runs the function again, and the getter returns [cached]
    without throwing. *)
Theorem X13_computed_function_throws code fuel :
  (∀ f w err w4,
     let c := length (computeds w) in
     call code fuel (VFun f) [] (creation_store (VFun f) w) = Done (Thrown err) w4 →
     let w' := pop (emit (EvConsoleError [VStr "createComputed error"; err]) w4) in
     createComputed (call code fuel) (VFun f) w = Done (Normal (VFun (FComputed c))) w'
     ∧ cached_of c w' = cached_of c w4 ∧ dirty_of c w' = dirty_of c w4
     ∧ c < length (computeds w') ∧ fn_of (RComputed c) w' = VFun f)
  ∧ (∀ c f w o w',
       c < length (computeds w) → fn_of (RComputed c) w = VFun f → dirty_of c w = true →
       computed_get (call code fuel) c w = Done o w' →
       o = Normal (cached_of c w') ∧ calls f (trace w) < calls f (trace w')).
Proof.
  split.
  - intros f w err w4 c H w'.
    pose proof (call_extends _ _ _ _ _ _ _ H) as E.
    pose proof (creation_store_exists (VFun f) w) as Hex. fold c in Hex.
    assert (runner_exists (RComputed c) w4 = true) as Hex4.
    { by eapply (pr_exists _ _ _ preserved_extends). }
    split_and!; [|done|done| |].
    + rewrite createComputed_first_run by done. fold c. by rewrite H.
    + unfold runner_exists in Hex4. by apply bool_decide_eq_true in Hex4.
    + destruct E as (_ & _ & _ & _ & F & _).
      assert (fn_of (RComputed c) w' = fn_of (RComputed c) w4) as -> by done.
      rewrite (F _ Hex). apply creation_store_fn.
  - intros c f w o w' Hc Hfn Hd H.
    destruct (lookup_lt_is_Some_2 _ _ Hc) as [cp Hcp].
    unfold computed_get in H. rewrite Hcp in H.
    assert (cp_dirty cp = true) as Hdirty by (revert Hd; unfold dirty_of; by rewrite Hcp).
    rewrite Hdirty in H.
    destruct (recompute (call code fuel) c w) as [o6 w6|] eqn:E6; [|done]. simplify_eq.
    split; [done|].
    assert (runner_exists (RComputed c) w = true) as Hex by (by apply bool_decide_eq_true).
    by destruct (recompute_calls_fn code fuel c w o6 w' f Hex Hfn E6) as (_ & ? & _).
Qed.

(** [c = createComputed(() => { throw "bang"; }); c()], with function 1
    of [client_faulty]. *)
Definition world_faulty_computed_body : World :=
  world_of (call client_faulty 2 (VFun (FUser 1)) []
              (creation_store (VFun (FUser 1)) empty_world)).

Definition world_faulty_computed : World :=
  world_of (createComputed (call client_faulty 2) (VFun (FUser 1)) empty_world).

Definition world_faulty_computed_read : World :=
  world_of (computed_get (call client_faulty 2) 0 world_faulty_computed).

Lemma X13_computed_function_throws_witness :
  call client_faulty 2 (VFun (FUser 1)) [] (creation_store (VFun (FUser 1)) empty_world)
  = Done (Thrown (VStr "bang")) world_faulty_computed_body
  ∧ createComputed (call client_faulty 2) (VFun (FUser 1)) empty_world
    = Done (Normal (VFun (FComputed 0))) world_faulty_computed
  ∧ cached_of 0 world_faulty_computed = VUndef
  ∧ 0 < length (computeds world_faulty_computed)
  ∧ fn_of (RComputed 0) world_faulty_computed = VFun (FUser 1)
  ∧ dirty_of 0 world_faulty_computed = true
  ∧ computed_get (call client_faulty 2) 0 world_faulty_computed
    = Done (Normal VUndef) world_faulty_computed_read
  ∧ calls (FUser 1) (trace world_faulty_computed)
    < calls (FUser 1) (trace world_faulty_computed_read).
Proof.
  destruct (X13_computed_function_throws client_faulty 2) as [Hc Hg].
  destruct (Hc (FUser 1) empty_world (VStr "bang") world_faulty_computed_body)
    as (H1 & _ & _ & H4 & H5); [by vm_compute|].
  split; [by vm_compute|]. split; [exact H1|]. split; [by vm_compute|].
  split; [exact H4|]. split; [exact H5|]. split; [by vm_compute|]. split; [by vm_compute|].
  apply (Hg 0 (FUser 1) world_faulty_computed (Normal VUndef) world_faulty_computed_read
           H4 H5 eq_refl).
  by vm_compute.
Defined.

(** ** [NaN] is never identical to itself *)

(** X14. The guard of [set] and of a write through the proxy compares
    with [===]: writing [NaN] over [NaN] counts as a change.  [set(NaN)] on
    a signal that holds [NaN] invokes every subscriber, and [proxy[prop] =
    NaN] on a property that holds [NaN] runs every runner subscribed to the
    property. *)
Theorem X14_nan_write_always_notifies code fuel loop_fuel :
  (∀ s w o w', s < length (signals w) → value_of s w = VNaN →
     sig_set (call code fuel) s VNaN w = Done o w' →
     o = Normal (value_of s w')
     ∧ ∃ t, trace w' = trace w ++ t ∧ pass_trace (subs_of (SrcSig s) w) t)
  ∧ (∀ st prop w o w', is_Some (states w !! st) → target_of st w !! prop = Some VNaN →
     handler_set (call code fuel) loop_fuel st prop VNaN w = Done o w' →
     ∃ t2 t3, trace w' = trace w ++ t2 ++ t3 ∧ pass_trace (prop_snapshot st prop w) t2).
Proof.
  split.
  - intros s w o w' Hs Hv H. destruct (lookup_lt_is_Some_2 _ _ Hs) as [sg Hsg].
    unfold sig_set in H. rewrite Hsg in H. simpl in H.
    assert (sg_value sg = VNaN) as Hval by (revert Hv; unfold value_of; by rewrite Hsg).
    rewrite Hval in H. simpl in H. rewrite subs_of_set_value in H.
    destruct (notify _ _ _) as [o3 w3|] eqn:E3; [|done]. simplify_eq.
    split; [done|]. by destruct (notify_pass _ _ _ _ _ _ E3) as (_ & t & Ht & Hp); exists t.
  - intros st prop w o w' [x Hx] Hv H. unfold handler_set in H. rewrite Hx, Hv in H.
    simpl in H. rewrite notify_prop_snapshot, prop_snapshot_set_target in H.
    destruct (notify _ _ _) as [o2 w2|] eqn:E2; [|done].
    destruct (notifyGlobal _ _ _ _ _ _ _) as [o3 w3|] eqn:E3; [|done]. simplify_eq.
    destruct (notify_pass _ _ _ _ _ _ E2) as (_ & t2 & Ht2 & Hp).
    destruct (extends_trace _ _ (notifyGlobal_extends _ _ _ _ _ _ _ _ _ E3)) as [t3 Ht3].
    exists t2, t3. split; [|done]. rewrite Ht3, Ht2. by rewrite <- app_assoc.
Qed.

(** [s = createSignal(NaN); subscribe(f1)], with function 1 of
    [client_throwing], which logs the signal. *)
Definition world_nan : World :=
  world_of (exec client_throwing 3
              (PNewSignal VNaN (λ s,
                 PCall (VFun (FSubscribe s)) [VFun (FUser 1)] (λ _, PRet VUndef)))
              empty_world).

Definition world_nan_set : World :=
  world_of (sig_set (call client_throwing 3) 0 VNaN world_nan).

Lemma X14_nan_write_always_notifies_witness :
  0 < length (signals world_nan)
  ∧ value_of 0 world_nan = VNaN
  ∧ subs_of (SrcSig 0) world_nan = [SFn (FUser 1)]
  ∧ sig_set (call client_throwing 3) 0 VNaN world_nan = Done (Normal VNaN) world_nan_set
  ∧ (∃ t, trace world_nan_set = trace world_nan ++ t
          ∧ pass_trace (subs_of (SrcSig 0) world_nan) t)
  ∧ log world_nan_set = [VNaN].
Proof.
  assert (0 < length (signals world_nan)) as H0 by (vm_compute; lia).
  destruct (proj1 (X14_nan_write_always_notifies client_throwing 3 0) 0 world_nan
              (Normal VNaN) world_nan_set H0 eq_refl) as [_ H]; [by vm_compute|].
  split; [exact H0|]. split; [done|]. split; [by vm_compute|]. split; [by vm_compute|].
  split; [exact H|by vm_compute].
Defined.

(** ** Subscribing to a state and unsubscribing again *)

Lemma elem_of_members x l : x ∈ members l ↔ Some x ∈ l.
Proof.
  unfold members. rewrite list_elem_of_omap. split.
  - intros (o & Ho & Hx). simpl in Hx. by subst.
  - intros H. by exists (Some x).
Qed.

Lemma members_slots_add x l : members (slots_add x l) = set_add x (members l).
Proof.
  unfold slots_add, set_add.
  destruct (decide (Some x ∈ l)) as [Hin|Hin].
  - rewrite !bool_decide_eq_true_2; [done|by apply elem_of_members|done].
  - rewrite !bool_decide_eq_false_2; [|by rewrite elem_of_members|done].
    unfold members. by rewrite omap_app.
Qed.

Lemma members_slots_delete x l : members (slots_delete x l) = set_delete x (members l).
Proof.
  unfold members, slots_delete. induction l as [|[y|] l IH]; simpl; [done| |done].
  destruct (decide (x = y)) as [->|Hne].
  - rewrite !bool_decide_eq_true_2 by done. simpl. exact IH.
  - rewrite bool_decide_eq_false_2 by congruence. simpl.
    rewrite bool_decide_eq_false_2 by done. f_equal. exact IH.
Qed.

Lemma slots_delete_fresh x l : Some x ∉ l → slots_delete x l = l.
Proof.
  unfold slots_delete. induction l as [|y l IH]; simpl; [done|]. intros Hx.
  apply not_elem_of_cons in Hx as [Hne Hx]. rewrite bool_decide_eq_false_2 by done.
  f_equal. by apply IH.
Qed.

Lemma not_elem_of_slots_delete x l : Some x ∉ slots_delete x l.
Proof.
  unfold slots_delete. rewrite list_elem_of_fmap. intros (o & Ho & _).
  by case_bool_decide.
Qed.

Lemma globalSubs_of_set st f w :
  is_Some (states w !! st) →
  globalSubs_of st (set_globalSubs st f w) = f (globalSubs_of st w).
Proof.
  intros [x Hx]. unfold globalSubs_of, set_globalSubs, set_states; simpl.
  by rewrite list_lookup_alter_eq, Hx.
Qed.

(** X15. The function read from [proxy.subscribe] adds its argument to
    the global subscribers unless it is one already, and returns a
    function that removes it: called once it returns [true] and leaves the
    subscribers as they were before a first subscription; called again it
    returns [false] and changes nothing. *)
Theorem X15_state_subscribe_round_trip st u fn w :
  closures w !! u = Some (CStateSubscribe st) → is_Some (states w !! st) →
  let u' := length (closures w) in
  let l := members (globalSubs_of st w) in
  ∃ w1 w2 w3,
    call_closure u [fn] w = Done (Normal (VFun (FClosure u'))) w1
    ∧ members (globalSubs_of st w1) = set_add fn l
    ∧ call_closure u' [] w1 = Done (Normal (VBool true)) w2
    ∧ members (globalSubs_of st w2) = set_delete fn l
    ∧ (fn ∉ l → members (globalSubs_of st w2) = l)
    ∧ call_closure u' [] w2 = Done (Normal (VBool false)) w3
    ∧ globalSubs_of st w3 = globalSubs_of st w2.
Proof.
  intros Hu Hst u' l.
  set (w1 := alloc_closure (CStateUnsub st fn) (set_globalSubs st (slots_add fn) w)).
  set (w2 := set_globalSubs st (slots_delete fn) w1).
  set (w3 := set_globalSubs st (slots_delete fn) w2).
  assert (∀ f w0, length (states (set_globalSubs st f w0)) = length (states w0)) as Hlen.
  { intros f w0. unfold set_globalSubs, set_states; simpl. by rewrite length_alter. }
  assert (is_Some (states w1 !! st)) as Hst1.
  { apply lookup_lt_is_Some.
    assert (states w1 = states (set_globalSubs st (slots_add fn) w)) as -> by done.
    rewrite Hlen. by apply lookup_lt_is_Some. }
  assert (is_Some (states w2 !! st)) as Hst2.
  { apply lookup_lt_is_Some. unfold w2. rewrite Hlen. by apply lookup_lt_is_Some. }
  assert (globalSubs_of st w1 = slots_add fn (globalSubs_of st w)) as H1.
  { unfold w1. by rewrite <- (globalSubs_of_set st (slots_add fn) w Hst). }
  assert (globalSubs_of st w2 = slots_delete fn (globalSubs_of st w1)) as H2.
  { unfold w2. by apply globalSubs_of_set. }
  assert (closures w1 !! u' = Some (CStateUnsub st fn)) as Hu1.
  { unfold w1, u'. apply (lookup_alloc_closure _ (set_globalSubs st (slots_add fn) w)). }
  assert (closures w2 !! u' = Some (CStateUnsub st fn)) as Hu2 by done.
  assert (members (globalSubs_of st w2) = set_delete fn l) as Hm2.
  { rewrite H2, members_slots_delete, H1, members_slots_add. apply set_delete_add. }
  exists w1, w2, w3. split_and!.
  - unfold call_closure. by rewrite Hu.
  - by rewrite H1, members_slots_add.
  - unfold call_closure. rewrite Hu1, H1. do 3 f_equal.
    apply bool_decide_eq_true. apply elem_of_members. rewrite members_slots_add.
    apply elem_of_set_add. by left.
  - exact Hm2.
  - intros Hf. by rewrite Hm2, set_delete_fresh.
  - unfold call_closure. rewrite Hu2, H2. do 3 f_equal.
    apply bool_decide_eq_false. apply not_elem_of_slots_delete.
  - unfold w3. rewrite globalSubs_of_set by done. rewrite H2.
    apply slots_delete_fresh, not_elem_of_slots_delete.
Qed.

Lemma X15_state_subscribe_round_trip_witness :
  closures world_any !! 0 = Some (CStateSubscribe 0)
  ∧ is_Some (states world_any !! 0)
  ∧ ∃ w1 w2 w3,
      call_closure 0 [VFun (FUser 1)] world_any = Done (Normal (VFun (FClosure 1))) w1
      ∧ members (globalSubs_of 0 w1) = [VFun (FUser 1)]
      ∧ call_closure 1 [] w1 = Done (Normal (VBool true)) w2
      ∧ members (globalSubs_of 0 w2) = []
      ∧ (VFun (FUser 1) ∉ members (globalSubs_of 0 world_any)
         → members (globalSubs_of 0 w2) = [])
      ∧ call_closure 1 [] w2 = Done (Normal (VBool false)) w3
      ∧ globalSubs_of 0 w3 = globalSubs_of 0 w2.
Proof.
  assert (is_Some (states world_any !! 0)) as Hs by (by eexists).
  split; [by vm_compute|]. split; [exact Hs|].
  apply (X15_state_subscribe_round_trip 0 0 (VFun (FUser 1)) world_any); [by vm_compute|exact Hs].
Defined.

(** ** A property that holds [undefined] *)

(** What the deletion of a property the target has does to the runners
    that read the property. *)
Lemma handler_delete_invokes code fuel loop_fuel r st prop w o w' :
  is_Some (states w !! st) → is_Some (target_of st w !! prop) →
  SRunner r ∈ prop_snapshot st prop w →
  handler_deleteProperty (call code fuel) loop_fuel st prop w = Done o w' →
  runs r (trace w) < runs r (trace w').
Proof.
  intros [x Hx] Hex Hin H. unfold handler_deleteProperty in H.
  rewrite Hx, bool_decide_eq_true_2 in H by done.
  rewrite notify_prop_snapshot, prop_snapshot_set_target in H.
  destruct (notify _ _ _) as [o2 w2|] eqn:E2; [|done].
  destruct (notifyGlobal _ _ _ _ _ _ _) as [o3 w3|] eqn:E3; [|done]. simplify_eq.
  destruct (notify_member _ _ _ _ _ _ _ Hin E2) as (wi & oi & wi' & E & Hi & [t1 H1] & _).
  destruct (extends_trace _ _ E) as [t0 H0]. simpl in Hi.
  destruct (run_runner_trace_head _ _ _ _ _ _ Hi) as [t Ht].
  destruct (extends_trace _ _ (notifyGlobal_extends _ _ _ _ _ _ _ _ _ E3)) as [t3 H3].
  assert (trace (discard_prop_signal st prop w2) = trace w2) as Hd.
  { unfold discard_prop_signal. by destruct (sigs_of st w2). }
  assert (trace (set_target st (delete prop) w) = trace w) as Hw by done.
  rewrite H3, Hd, H1, Ht, H0, Hw, <- !app_assoc. simpl.
  rewrite (app_assoc (trace w)). eapply Nat.lt_le_trans; [|apply runs_entered].
  rewrite runs_app. lia.
Qed.

(** X16. The guard of a write compares values, the guard of a deletion
    asks whether the target has the property.  For a name that
    [Object.prototype] does not define: writing [undefined] to a property
    the target does not have creates the property and notifies nobody;
    deleting a property the target does not have notifies nobody either;
    but once [undefined] has been written, deleting the property runs
    every runner subscribed to it. *)
Theorem X16_undefined_write_creates_property code fuel loop_fuel st prop w :
  is_Some (states w !! st) → target_of st w !! prop = None → inherited prop = false →
  let w1 := set_target st (<[prop := VUndef]>) w in
  handler_set (call code fuel) loop_fuel st prop VUndef w = Done (Normal (VBool true)) w1
  ∧ trace w1 = trace w
  ∧ target_of st w1 !! prop = Some VUndef
  ∧ handler_deleteProperty (call code fuel) loop_fuel st prop w
    = Done (Normal (VBool true)) (set_target st (delete prop) w)
  ∧ (∀ r o w', SRunner r ∈ prop_snapshot st prop w →
       handler_deleteProperty (call code fuel) loop_fuel st prop w1 = Done o w' →
       runs r (trace w1) < runs r (trace w')).
Proof.
  intros [x Hx] Hnone _ w1.
  assert (target_of st w1 !! prop = Some VUndef) as Ht.
  { unfold w1. rewrite (target_of_set_target _ _ _ _ Hx). by rewrite lookup_insert_eq. }
  split_and!; [|done|done| |].
  - unfold handler_set. by rewrite Hx, Hnone.
  - unfold handler_deleteProperty. rewrite Hx, Hnone.
    rewrite bool_decide_eq_false_2; [done|]. by intros [? ?].
  - intros r o w' Hin H.
    eapply handler_delete_invokes;
      [| |unfold w1; by rewrite prop_snapshot_set_target|done].
    + apply lookup_lt_is_Some. unfold w1, set_target, set_states; simpl.
      rewrite length_alter. by eapply lookup_lt_Some.
    + by rewrite Ht.
Qed.

Definition world_missing_undefined : World :=
  set_target 0 (<["y" := VUndef]>) world_missing.

Definition world_missing_deleted : World :=
  world_of (handler_deleteProperty (call client_missing 4) 3 0 "y" world_missing_undefined).

Lemma X16_undefined_write_creates_property_witness :
  is_Some (states world_missing !! 0)
  ∧ target_of 0 world_missing !! "y" = None
  ∧ inherited "y" = false
  ∧ handler_set (call client_missing 4) 3 0 "y" VUndef world_missing
    = Done (Normal (VBool true)) world_missing_undefined
  ∧ trace world_missing_undefined = trace world_missing
  ∧ handler_deleteProperty (call client_missing 4) 3 0 "y" world_missing
    = Done (Normal (VBool true)) (set_target 0 (delete "y") world_missing)
  ∧ SRunner (REffect 0) ∈ prop_snapshot 0 "y" world_missing
  ∧ handler_deleteProperty (call client_missing 4) 3 0 "y" world_missing_undefined
    = Done (Normal (VBool true)) world_missing_deleted
  ∧ runs (REffect 0) (trace world_missing_undefined)
    < runs (REffect 0) (trace world_missing_deleted)
  ∧ log world_missing_deleted = [VUndef; VUndef].
Proof.
  assert (is_Some (states world_missing !! 0)) as Hs by (by eexists).
  assert (SRunner (REffect 0) ∈ prop_snapshot 0 "y" world_missing) as Hin
    by (apply (bool_decide_unpack _); by vm_compute).
  destruct (X16_undefined_write_creates_property client_missing 4 3 0 "y" world_missing
              Hs eq_refl eq_refl) as (H1 & H2 & _ & H4 & H5).
  split; [exact Hs|]. split; [done|]. split; [done|]. split; [exact H1|]. split; [exact H2|].
  split; [exact H4|]. split; [exact Hin|]. split; [by vm_compute|]. split; [|by vm_compute].
  apply (H5 (REffect 0) (Normal (VBool true)) world_missing_deleted Hin). by vm_compute.
Defined.

(** ** What [get] returns after [set] *)

Lemma value_of_set_value s v w : s < length (signals w) → value_of s (set_value s v w) = v.
Proof.
  intros Hs. destruct (lookup_lt_is_Some_2 _ _ Hs) as [sg Hsg].
  unfold value_of, set_value, set_signals; simpl. by rewrite list_lookup_alter_eq, Hsg.
Qed.

(** X17. What [set] returns for a value that is not a function is what
    the signal holds afterwards, and [get] returns just that; outside of
    any runner [get] changes nothing.  When the signal has no subscriber
    the value returned and held is the value passed to [set]. *)
Theorem X17_set_get_round_trip code fuel s v w o w' :
  s < length (signals w) → is_function v = false →
  sig_set (call code fuel) s v w = Done o w' →
  o = Normal (value_of s w')
  ∧ (∃ w'', sig_get s w' = Done (Normal (value_of s w')) w'' ∧ (active w' = None → w'' = w'))
  ∧ (subs_of (SrcSig s) w = [] → w' = set_value s v w ∧ value_of s w' = v).
Proof.
  intros Hs Hv H. destruct (lookup_lt_is_Some_2 _ _ Hs) as [sg Hsg].
  unfold sig_set in H. rewrite Hsg, Hv in H.
  assert (s < length (signals (set_value s v w))) as Hs2.
  { unfold set_value, set_signals; simpl. by rewrite length_alter. }
  assert (s < length (signals w') ∧ o = Normal (value_of s w')
          ∧ (subs_of (SrcSig s) w = [] → w' = set_value s v w)) as (Hs' & Ho & Hw).
  { destruct (strict_eq (sg_value sg) v).
    - simplify_eq. split_and!; [done|by rewrite value_of_set_value|done].
    - destruct (notify _ _ _) as [o3 w3|] eqn:E3; [|done]. simplify_eq.
      split_and!; [|done|].
      + pose proof (notify_extends _ _ _ _ _ _ E3) as (_ & _ & _ & _ & _ & L & _). lia.
      + intros Hnone. rewrite subs_of_set_value, Hnone in E3. simpl in E3. by simplify_eq. }
  split_and!; [done| |].
  - destruct (lookup_lt_is_Some_2 _ _ Hs') as [sg' Hsg'].
    unfold sig_get, value_of. rewrite Hsg'. simpl.
    destruct (active w') as [r|]; eexists; (split; [done|]); [done|done].
  - intros Hnone. split; [by apply Hw|]. rewrite (Hw Hnone). by apply value_of_set_value.
Qed.

Lemma X17_set_get_round_trip_witness :
  0 < length (signals world_signal0)
  ∧ sig_set (call client_reader 1) 0 (VNum 5) world_signal0
    = Done (Normal (VNum 5)) (set_value 0 (VNum 5) world_signal0)
  ∧ sig_get 0 (set_value 0 (VNum 5) world_signal0)
    = Done (Normal (VNum 5)) (set_value 0 (VNum 5) world_signal0)
  ∧ value_of 0 (set_value 0 (VNum 5) world_signal0) = VNum 5.
Proof.
  assert (0 < length (signals world_signal0)) as H0 by (vm_compute; lia).
  destruct (X17_set_get_round_trip client_reader 1 0 (VNum 5) world_signal0
              (Normal (VNum 5)) (set_value 0 (VNum 5) world_signal0) H0 eq_refl)
    as (_ & _ & H3); [by vm_compute|].
  split; [exact H0|]. split; [by vm_compute|]. split; [by vm_compute|].
  exact (proj2 (H3 eq_refl)).
Defined.

(** ** [set] with an updater *)

(** X18. [set(f)] with a function calls [f] with the value the signal
    holds.  If [f] throws, [set] throws the same exception, stores nothing
    and notifies nobody.  If [f] returns a value that is not a function
    and has left the signal alone, [set(f)] goes on exactly as a [set] of
    that value. *)
Theorem X18_set_with_updater code fuel s f w :
  s < length (signals w) →
  (∀ o w', sig_set (call code fuel) s (VFun f) w = Done o w' →
     ∃ t, trace w' = trace w ++ EvCall f [value_of s w] :: t)
  ∧ (∀ err w1, call code fuel (VFun f) [value_of s w] w = Done (Thrown err) w1 →
       sig_set (call code fuel) s (VFun f) w = Done (Thrown err) w1)
  ∧ (∀ next w1, call code fuel (VFun f) [value_of s w] w = Done (Normal next) w1 →
       value_of s w1 = value_of s w → is_function next = false →
       sig_set (call code fuel) s (VFun f) w = sig_set (call code fuel) s next w1).
Proof.
  intros Hs. destruct (lookup_lt_is_Some_2 _ _ Hs) as [sg Hsg].
  assert (value_of s w = sg_value sg) as Hval by (unfold value_of; by rewrite Hsg).
  split_and!.
  - intros o w' H. unfold sig_set in H. rewrite Hsg in H. simpl in H. rewrite <- Hval in H.
    destruct (call code fuel (VFun f) [value_of s w] w) as [[next|err] w1|] eqn:E1; [| |done].
    + destruct (call_trace_head _ _ _ _ _ _ _ E1) as [t1 Ht1].
      assert (∃ t, trace w' = trace w1 ++ t) as [t Ht].
      { destruct (strict_eq _ _); [simplify_eq; by exists []; rewrite app_nil_r|].
        destruct (notify _ _ _) as [o3 w3|] eqn:E3; [|done]. simplify_eq.
        apply (extends_trace (set_value s next w1)). by eapply notify_extends. }
      exists (t1 ++ t). rewrite Ht, Ht1. by rewrite <- app_assoc.
    + simplify_eq. by eapply call_trace_head.
  - intros err w1 H. unfold sig_set. rewrite Hsg. simpl. by rewrite <- Hval, H.
  - intros next w1 H Hsame Hnext. unfold sig_set at 1. rewrite Hsg. simpl. rewrite <- Hval, H.
    assert (s < length (signals w1)) as Hs1.
    { pose proof (call_extends _ _ _ _ _ _ _ H) as (_ & _ & _ & _ & _ & L & _). lia. }
    destruct (lookup_lt_is_Some_2 _ _ Hs1) as [sg1 Hsg1].
    unfold sig_set. rewrite Hsg1, Hnext.
    assert (sg_value sg1 = value_of s w) as ->.
    { rewrite <- Hsame. unfold value_of. by rewrite Hsg1. }
    done.
Qed.

(** [set(v => v * 2)] on [createSignal(10)], and an updater that
    throws. *)
Definition client_updater (n : nat) (args : list val) : prog :=
  match n with
  | 0 => PRet (dbl (arg 0 args))
  | _ => PThrow (VStr "no")
  end.

Definition world_ten : World := snd (createSignal (VNum 10) empty_world).

Lemma X18_set_with_updater_witness :
  0 < length (signals world_ten)
  ∧ (∃ w1, call client_updater 2 (VFun (FUser 0)) [value_of 0 world_ten] world_ten
           = Done (Normal (VNum 20)) w1
           ∧ value_of 0 w1 = value_of 0 world_ten
           ∧ sig_set (call client_updater 2) 0 (VFun (FUser 0)) world_ten
             = sig_set (call client_updater 2) 0 (VNum 20) w1
           ∧ value_of 0 (world_of (sig_set (call client_updater 2) 0 (VFun (FUser 0)) world_ten))
             = VNum 20)
  ∧ (∃ w1, call client_updater 2 (VFun (FUser 1)) [value_of 0 world_ten] world_ten
           = Done (Thrown (VStr "no")) w1
           ∧ sig_set (call client_updater 2) 0 (VFun (FUser 1)) world_ten
             = Done (Thrown (VStr "no")) w1
           ∧ value_of 0 w1 = VNum 10).
Proof.
  assert (0 < length (signals world_ten)) as H0 by (vm_compute; lia).
  split; [exact H0|]. split.
  - destruct (X18_set_with_updater client_updater 2 0 (FUser 0) world_ten H0) as (_ & _ & H).
    eexists. split; [by vm_compute|]. split; [by vm_compute|]. split; [|by vm_compute].
    apply H; by vm_compute.
  - destruct (X18_set_with_updater client_updater 2 0 (FUser 1) world_ten H0) as (_ & H & _).
    eexists. split; [by vm_compute|]. split; [|by vm_compute]. apply H. by vm_compute.
Defined.

(** ** An exception of a cleanup *)

(** X19. When the cleanup left by the previous run throws, the run goes
    on.  The runner of an effect reports the exception with
    [console.error] before it calls the function of the effect;
    [recompute] of a computed value drops it without any report. *)
Theorem X19_cleanup_error_reported_or_dropped code fuel r g f w err wc o w' :
  runner_exists r w = true → cleanup_of r w = VFun g → fn_of r w = VFun f →
  call code fuel (VFun g) [] (unsubscribe_deps r (emit (EvRun r) w)) = Done (Thrown err) wc →
  run_runner (call code fuel) r w = Done o w' →
  o = Normal VUndef
  ∧ ∃ t, trace w'
         = trace wc
           ++ match r with
              | REffect _ => [EvConsoleError [err]]
              | RComputed _ => []
              end
           ++ EvCall f [] :: t.
Proof.
  intros Hex Hg Hf Hc H. pose proof preserved_extends as PE.
  assert (runner_exists r (emit (EvRun r) w) = true) as Hex0 by (by destruct r).
  set (w1 := unsubscribe_deps r (emit (EvRun r) w)) in *.
  assert (cleanup_of r w1 = VFun g) as Hg1 by (unfold w1; by rewrite cleanup_of_unsub).
  assert (extends w wc) as E.
  { eapply extends_trans; [by apply (pr_run _ _ _ PE r w I)|].
    eapply extends_trans; [apply extends_unsub|]. by eapply call_extends. }
  assert (∀ wx, extends wc wx → fn_of r (push r (set_cleanup r VNull wx)) = VFun f) as Hfn.
  { intros wx Ex. rewrite <- Hf.
    assert (extends w (set_cleanup r VNull wx)) as (_ & _ & _ & _ & F & _).
    { eapply extends_trans; [exact E|]. eapply extends_trans; [exact Ex|].
      by apply (pr_cleanup _ _ _ PE). }
    rewrite <- (F r Hex). by destruct r. }
  destruct r as [e|c]; simpl in H.
  - unfold effect_runner in H. rewrite Hex0 in H. fold w1 in H.
    unfold run_cleanup in H. rewrite Hg1 in H. simpl in H. rewrite Hc in H. simpl in H.
    set (wc' := emit (EvConsoleError [err]) wc) in *.
    rewrite (Hfn wc') in H by (by apply (pr_emit _ _ _ PE)).
    destruct (call code fuel (VFun f) [] _) as [o4 w4|] eqn:E4; [|done].
    destruct (call_trace_head _ _ _ _ _ _ _ E4) as [tb Htb].
    assert (trace w4 = trace wc ++ [EvConsoleError [err]] ++ EvCall f [] :: tb) as Htb'.
    { rewrite Htb. unfold wc', emit, set_trace; simpl. by rewrite <- app_assoc. }
    destruct o4 as [v|err']; simplify_eq.
    + split; [done|]. exists tb. rewrite <- Htb'. by destruct (is_function v).
    + split; [done|]. exists (tb ++ [EvConsoleError [VStr "createEffect error"; err']]).
      unfold pop, emit, set_stack, set_trace; simpl. rewrite Htb'. by rewrite <- !app_assoc.
  - unfold recompute in H. rewrite Hex0 in H. fold w1 in H.
    unfold run_cleanup in H. rewrite Hg1 in H. simpl in H. rewrite Hc in H. simpl in H.
    rewrite (Hfn wc) in H by apply extends_refl.
    destruct (call code fuel (VFun f) [] _) as [o4 w4|] eqn:E4; [|done].
    destruct (call_trace_head _ _ _ _ _ _ _ E4) as [tb Htb].
    assert (trace w4 = trace wc ++ [] ++ EvCall f [] :: tb) as Htb' by done.
    destruct o4 as [v|err']; simplify_eq.
    + split; [done|]. exists tb. rewrite <- Htb'. by destruct (is_function v).
    + split; [done|]. exists (tb ++ [EvConsoleError [VStr "createComputed error"; err']]).
      unfold pop, emit, set_stack, set_trace; simpl. rewrite Htb'. by rewrite <- !app_assoc.
Qed.

(** A function that reads signal 0 and returns a cleanup that throws. *)
Definition client_badcleanup (n : nat) (args : list val) : prog :=
  match n with
  | 0 => PCall (VFun (FGet 0)) [] (λ _, PRet (VFun (FUser 1)))
  | _ => PThrow (VStr "oops")
  end.

(** [s = createSignal(0); createEffect(f0); createComputed(f0)] *)
Definition world_badcleanup : World :=
  world_of (exec client_badcleanup 4
              (PNewSignal (VNum 0) (λ s,
                 PNewEffect (VFun (FUser 0)) (λ _,
                   PNewComputed (VFun (FUser 0)) (λ _, PRet VUndef))))
              empty_world).

Definition world_badcleanup_at (r : runner) : World :=
  world_of (call client_badcleanup 3 (VFun (FUser 1)) []
              (unsubscribe_deps r (emit (EvRun r) world_badcleanup))).

Definition world_badcleanup_run (r : runner) : World :=
  world_of (run_runner (call client_badcleanup 3) r world_badcleanup).

Lemma X19_cleanup_error_reported_or_dropped_witness :
  (runner_exists (REffect 0) world_badcleanup = true
   ∧ cleanup_of (REffect 0) world_badcleanup = VFun (FUser 1)
   ∧ fn_of (REffect 0) world_badcleanup = VFun (FUser 0)
   ∧ call client_badcleanup 3 (VFun (FUser 1)) []
       (unsubscribe_deps (REffect 0) (emit (EvRun (REffect 0)) world_badcleanup))
     = Done (Thrown (VStr "oops")) (world_badcleanup_at (REffect 0))
   ∧ run_runner (call client_badcleanup 3) (REffect 0) world_badcleanup
     = Done (Normal VUndef) (world_badcleanup_run (REffect 0))
   ∧ ∃ t, trace (world_badcleanup_run (REffect 0))
          = trace (world_badcleanup_at (REffect 0))
            ++ [EvConsoleError [VStr "oops"]] ++ EvCall (FUser 0) [] :: t)
  ∧ (runner_exists (RComputed 0) world_badcleanup = true
     ∧ cleanup_of (RComputed 0) world_badcleanup = VFun (FUser 1)
     ∧ fn_of (RComputed 0) world_badcleanup = VFun (FUser 0)
     ∧ call client_badcleanup 3 (VFun (FUser 1)) []
         (unsubscribe_deps (RComputed 0) (emit (EvRun (RComputed 0)) world_badcleanup))
       = Done (Thrown (VStr "oops")) (world_badcleanup_at (RComputed 0))
     ∧ run_runner (call client_badcleanup 3) (RComputed 0) world_badcleanup
       = Done (Normal VUndef) (world_badcleanup_run (RComputed 0))
     ∧ ∃ t, trace (world_badcleanup_run (RComputed 0))
            = trace (world_badcleanup_at (RComputed 0)) ++ [] ++ EvCall (FUser 0) [] :: t).
Proof.
  split.
  - split; [done|]. split; [by vm_compute|]. split; [by vm_compute|].
    split; [by vm_compute|]. split; [by vm_compute|].
    apply (X19_cleanup_error_reported_or_dropped client_badcleanup 3 (REffect 0) (FUser 1) (FUser 0)
             world_badcleanup (VStr "oops") (world_badcleanup_at (REffect 0)) (Normal VUndef)
             (world_badcleanup_run (REffect 0))); by vm_compute.
  - split; [done|]. split; [by vm_compute|]. split; [by vm_compute|].
    split; [by vm_compute|]. split; [by vm_compute|].
    apply (X19_cleanup_error_reported_or_dropped client_badcleanup 3 (RComputed 0) (FUser 1)
             (FUser 0) world_badcleanup (VStr "oops") (world_badcleanup_at (RComputed 0))
             (Normal VUndef) (world_badcleanup_run (RComputed 0))); by vm_compute.
Defined.

(** ** Writing, reading and deleting when nobody listens *)

(** X20. In a state without global subscriber, outside of any runner and
    for a property that no runner has read and whose name neither the
    proxy intercepts nor [Object.prototype] defines: a write stores the
    value and a read returns it; a deletion removes the property and a
    read returns [undefined]; reads of the other properties with such a
    name are not affected by either. *)
Theorem X20_quiet_state_round_trip code fuel loop_fuel st prop v w :
  is_Some (states w !! st) → reserved prop = false → inherited prop = false →
  active w = None →
  prop_snapshot st prop w = [] →
  members (globalSubs_of st w) = [] → length (globalSubs_of st w) < loop_fuel →
  let w1 := set_target st (<[prop := v]>) w in
  let w2 := discard_prop_signal st prop (set_target st (delete prop) w1) in
  handler_set (call code fuel) loop_fuel st prop v w = Done (Normal (VBool true)) w1
  ∧ handler_get st prop w1 = Done (Normal v) w1
  ∧ handler_deleteProperty (call code fuel) loop_fuel st prop w1 = Done (Normal (VBool true)) w2
  ∧ handler_get st prop w2 = Done (Normal VUndef) w2
  ∧ (∀ q, q ≠ prop → reserved q = false → inherited q = false →
       handler_get st q w1 = Done (Normal (default VUndef (target_of st w !! q))) w1
       ∧ handler_get st q w2 = Done (Normal (default VUndef (target_of st w !! q))) w2).
Proof.
  intros [x Hx] Hres _ Ha Hsnap Hm Hlen w1 w2.
  assert (∀ f w0, length (states (set_target st f w0)) = length (states w0)) as Hl.
  { intros f w0. unfold set_target, set_states; simpl. by rewrite length_alter. }
  assert (∃ x1, states w1 !! st = Some x1) as [x1 Hx1].
  { apply lookup_lt_is_Some. unfold w1. rewrite Hl. by eapply lookup_lt_Some. }
  set (w1' := set_target st (delete prop) w1) in *.
  assert (∃ x2, states w1' !! st = Some x2) as [x2 Hx2].
  { apply lookup_lt_is_Some. unfold w1'. rewrite Hl. by eapply lookup_lt_Some. }
  destruct (states_discard st prop w1') as (Hl2 & Ht2 & Hg2 & _). fold w2 in Hl2, Ht2, Hg2.
  assert (∃ x3, states w2 !! st = Some x3) as [x3 Hx3].
  { apply lookup_lt_is_Some. rewrite Hl2. by eapply lookup_lt_Some. }
  assert (target_of st w1 = <[prop := v]> (target_of st w)) as Ht1.
  { unfold w1. by apply (target_of_set_target _ _ _ x). }
  assert (target_of st w2 = delete prop (<[prop := v]> (target_of st w))) as Ht2'.
  { rewrite Ht2. unfold w1'. rewrite (target_of_set_target _ _ _ x1) by done. by rewrite Ht1. }
  assert (∀ f w0, globalSubs_of st (set_target st f w0) = globalSubs_of st w0) as Hg
    by (intros; solve_obs).
  assert (active w1 = None ∧ active w2 = None) as [Ha1 Ha2].
  { split; [done|]. unfold w2, discard_prop_signal. by destruct (sigs_of st w1'). }
  assert (∀ q w0 y, states w0 !! st = Some y → active w0 = None → reserved q = false →
            handler_get st q w0 = Done (Normal (default VUndef (target_of st w0 !! q))) w0)
    as Hget.
  { intros q w0 y Hy Hact Hq. unfold reserved in Hq.
    apply orb_false_elim in Hq as [Hq H3]. apply orb_false_elim in Hq as [H1 H2].
    unfold handler_get. by rewrite Hy, H1, H2, H3, Hact. }
  split_and!.
  - unfold handler_set. rewrite Hx. fold w1. destruct (strict_eq _ _); [done|].
    rewrite notify_prop_snapshot. unfold w1 at 1 2. rewrite prop_snapshot_set_target, Hsnap.
    simpl. fold w1. rewrite notifyGlobal_nobody; [done|..]; unfold w1; by rewrite Hg.
  - rewrite (Hget prop w1 x1) by done. by rewrite Ht1, lookup_insert_eq.
  - unfold handler_deleteProperty. rewrite Hx1, Ht1, lookup_insert_eq.
    rewrite bool_decide_eq_true_2 by done. fold w1'.
    rewrite notify_prop_snapshot. unfold w1' at 1 2, w1 at 1 2.
    rewrite !prop_snapshot_set_target, Hsnap. simpl. fold w1 w1' w2.
    rewrite notifyGlobal_nobody; [done|..]; rewrite Hg2; unfold w1', w1; by rewrite !Hg.
  - rewrite (Hget prop w2 x3) by done. by rewrite Ht2', lookup_delete_eq.
  - intros q Hq Hrq _. split.
    + rewrite (Hget q w1 x1) by done. by rewrite Ht1, lookup_insert_ne.
    + rewrite (Hget q w2 x3) by done. rewrite Ht2', lookup_delete_ne by done.
      by rewrite lookup_insert_ne.
Qed.

(** [$state({x: 0, y: 7})] *)
Definition world_quiet : World :=
  snd (create_state {["x" := VNum 0; "y" := VNum 7]} empty_world).

Lemma X20_quiet_state_round_trip_witness :
  is_Some (states world_quiet !! 0)
  ∧ inherited "x" = false ∧ inherited "y" = false
  ∧ prop_snapshot 0 "x" world_quiet = []
  ∧ members (globalSubs_of 0 world_quiet) = []
  ∧ length (globalSubs_of 0 world_quiet) < 1
  ∧ handler_set (call client_state 0) 1 0 "x" (VNum 5) world_quiet
    = Done (Normal (VBool true)) (set_target 0 (<["x" := VNum 5]>) world_quiet)
  ∧ handler_get 0 "x" (set_target 0 (<["x" := VNum 5]>) world_quiet)
    = Done (Normal (VNum 5)) (set_target 0 (<["x" := VNum 5]>) world_quiet)
  ∧ handler_get 0 "y" (set_target 0 (<["x" := VNum 5]>) world_quiet)
    = Done (Normal (VNum 7)) (set_target 0 (<["x" := VNum 5]>) world_quiet).
Proof.
  assert (is_Some (states world_quiet !! 0)) as Hs by (by eexists).
  assert (length (globalSubs_of 0 world_quiet) < 1) as Hlen by (vm_compute; lia).
  destruct (X20_quiet_state_round_trip client_state 0 1 0 "x" (VNum 5) world_quiet
              Hs eq_refl eq_refl eq_refl eq_refl eq_refl Hlen) as (H1 & H2 & _ & _ & H5).
  split; [exact Hs|]. split; [done|]. split; [done|]. split; [done|]. split; [done|].
  split; [exact Hlen|]. split; [exact H1|]. split; [exact H2|].
  exact (proj1 (H5 "y"%string ltac:(done) eq_refl eq_refl)).
Defined.
